(** * AddOn Architect: the store and the exporters

    A shallow embedding of [src/lib/types.ts], [src/lib/store.ts] and
    [src/lib/exporters.ts].

    - JavaScript strings are held as [string]: well-formed text, one
      [ascii] per UTF-8 byte.  Every literal of the source is ASCII.
    - [crypto.randomUUID()] is an oracle [uuid : nat -> string] read at a
      counter that every call advances; the counter is threaded through
      the operations by the small monad [Gen].
    - zustand's [set] merges the partial state an updater returns into the
      current state; each operation below returns the merged [AddonState].
      The [persist] middleware is outside the embedding. *)

From Stdlib Require Import List String Ascii Bool Arith ZArith Lia.
From Stdlib Require Import DecimalString DecimalNat.
Import ListNotations.
Open Scope string_scope.

(** ** JavaScript string primitives *)

Module Js.

(** [ToBoolean] on a string: only the empty string is falsy. *)
Definition truthy (s : string) : bool := negb (s =? "").

(** [a || b] on strings. *)
Definition orElse (a b : string) : string := if truthy a then a else b.

(** [Array.prototype.join]. *)
Definition join (sep : string) (l : list string) : string := String.concat sep l.

(** [String.prototype.split] with a separator of one character, which is
    how both call sites of the exporters use it. *)
Fixpoint split (sep : ascii) (s : string) : list string :=
  match s with
  | "" => [""]
  | String c s' =>
      if Ascii.eqb c sep then "" :: split sep s'
      else match split sep s' with
           | [] => [String c ""]
           | t :: ts => String c t :: ts
           end
  end.

Fixpoint drop (n : nat) (s : string) : string :=
  match n, s with
  | O, _ => s
  | S _, "" => ""
  | S n', String _ s' => drop n' s'
  end.

Fixpoint rev (s : string) : string :=
  match s with
  | "" => ""
  | String c s' => rev s' ++ String c ""
  end.

Definition bytes (l : list nat) : string :=
  string_of_list_ascii (map ascii_of_nat l).

(** ECMAScript WhiteSpace and LineTerminator code points, as UTF-8. *)
Definition whitespace : list string :=
  [ bytes [9]; bytes [10]; bytes [11]; bytes [12]; bytes [13]; bytes [32];
    bytes [194; 160];
    bytes [225; 154; 128];
    bytes [226; 128; 128]; bytes [226; 128; 129]; bytes [226; 128; 130];
    bytes [226; 128; 131]; bytes [226; 128; 132]; bytes [226; 128; 133];
    bytes [226; 128; 134]; bytes [226; 128; 135]; bytes [226; 128; 136];
    bytes [226; 128; 137]; bytes [226; 128; 138];
    bytes [226; 128; 168]; bytes [226; 128; 169]; bytes [226; 128; 175];
    bytes [226; 129; 159];
    bytes [227; 128; 128];
    bytes [239; 187; 191] ].

(** The rest of [s] behind one leading entry of [table], if there is one. *)
Fixpoint stripOne (table : list string) (s : string) : option string :=
  match table with
  | [] => None
  | w :: table' =>
      if String.prefix w s then Some (drop (String.length w) s)
      else stripOne table' s
  end.

Fixpoint stripAll (table : list string) (fuel : nat) (s : string) : string :=
  match fuel with
  | O => s
  | S fuel' =>
      match stripOne table s with
      | Some s' => stripAll table fuel' s'
      | None => s
      end
  end.

Definition trimStart (s : string) : string :=
  stripAll whitespace (String.length s) s.

Definition trimEnd (s : string) : string :=
  rev (stripAll (map rev whitespace) (String.length s) (rev s)).

(** [String.prototype.trim]. *)
Definition trim (s : string) : string := trimEnd (trimStart s).

(** [String.prototype.replace] with a string pattern: the first
    occurrence only.  The replacement text is taken literally, which is
    what JavaScript does when it holds no [$]. *)
Fixpoint replace (pat rep s : string) : string :=
  if String.prefix pat s then rep ++ drop (String.length pat) s
  else match s with
       | "" => ""
       | String c s' => String c (replace pat rep s')
       end.

(** Number of occurrences of a character. *)
Fixpoint count (c : ascii) (s : string) : nat :=
  match s with
  | "" => 0
  | String d s' => (if Ascii.eqb d c then 1 else 0) + count c s'
  end.

(** Whether [pat] occurs in [s]. *)
Fixpoint includes (pat s : string) : bool :=
  String.prefix pat s ||
  match s with
  | "" => false
  | String _ s' => includes pat s'
  end.

End Js.

(** ** [JSON.stringify (value, null, 2)] *)

Module JSON.

#[local] Set Warnings "-register-all".

Inductive value : Type :=
| Null
| Bool (b : bool)
| Num (z : Z)
| Str (s : string)
| Arr (items : list value)
| Obj (props : list (string * value)).

Definition hexDigit (n : nat) : ascii :=
  match n with
  | 0 => "0" | 1 => "1" | 2 => "2" | 3 => "3" | 4 => "4" | 5 => "5"
  | 6 => "6" | 7 => "7" | 8 => "8" | 9 => "9" | 10 => "a" | 11 => "b"
  | 12 => "c" | 13 => "d" | 14 => "e" | _ => "f"
  end%char.

(** QuoteJSONString, one code unit. *)
Definition escape (c : ascii) : string :=
  let n := nat_of_ascii c in
  if Nat.eqb n 8 then "\b"
  else if Nat.eqb n 9 then "\t"
  else if Nat.eqb n 10 then "\n"
  else if Nat.eqb n 12 then "\f"
  else if Nat.eqb n 13 then "\r"
  else if Nat.eqb n 34 then "\" ++ String c ""
  else if Nat.eqb n 92 then "\\"
  else if Nat.ltb n 32 then
    "\u00" ++ String (hexDigit (n / 16)) (String (hexDigit (n mod 16)) "")
  else String c "".

Fixpoint escapeAll (s : string) : string :=
  match s with
  | "" => ""
  | String c s' => escape c ++ escapeAll s'
  end.

Definition dq : string := String (ascii_of_nat 34) "".
Definition nl : string := String (ascii_of_nat 10) "".

Definition quote (s : string) : string := dq ++ escapeAll s ++ dq.

Definition number (z : Z) : string := NilZero.string_of_int (Z.to_int z).

(** SerializeJSONProperty with gap [gap]; [indent] is the current
    indentation. *)
Fixpoint serialize (gap indent : string) (v : value) : string :=
  let inner := indent ++ gap in
  match v with
  | Null => "null"
  | Bool true => "true"
  | Bool false => "false"
  | Num z => number z
  | Str s => quote s
  | Arr [] => "[]"
  | Arr items =>
      "[" ++ nl ++ inner
        ++ Js.join ("," ++ nl ++ inner) (map (serialize gap inner) items)
        ++ nl ++ indent ++ "]"
  | Obj [] => "{}"
  | Obj props =>
      "{" ++ nl ++ inner
        ++ Js.join ("," ++ nl ++ inner)
             (map (fun kv => quote (fst kv) ++ ": " ++ serialize gap inner (snd kv))
                  props)
        ++ nl ++ indent ++ "}"
  end.

(** [JSON.stringify (v, null, 2)]. *)
Definition stringify2 (v : value) : string := serialize "  " "" v.

End JSON.

(** ** The domain model ([src/lib/types.ts]) *)

Inductive ParameterKind : Type :=
| KBool | KInt | KFloat | KString | KVector | KRotator | KTransform
| KObject | KName | KArray | KMap.

Definition kindText (k : ParameterKind) : string :=
  match k with
  | KBool => "bool" | KInt => "int" | KFloat => "float" | KString => "string"
  | KVector => "vector" | KRotator => "rotator" | KTransform => "transform"
  | KObject => "object" | KName => "name" | KArray => "array" | KMap => "map"
  end.

Definition isObjectKind (k : ParameterKind) : bool :=
  match k with KObject => true | _ => false end.

Record BlueprintParameter : Type := {
  param_id : string;
  param_name : string;
  kind : ParameterKind;
  defaultValue : option string;
  param_description : option string;
  isArray : option bool
}.

Record BlueprintNode : Type := {
  node_id : string;
  node_title : string;
  node_category : string;
  node_description : string;
  inputs : list BlueprintParameter;
  outputs : list BlueprintParameter;
  body : string
}.

Record CommandBinding : Type := {
  cmd_id : string;
  cmd_name : string;
  context : string;
  hotkey : string;
  cmd_description : string;
  script : string
}.

Inductive ModuleTarget : Type := Editor | Runtime | EditorAndRuntime.

Definition targetText (t : ModuleTarget) : string :=
  match t with
  | Editor => "Editor" | Runtime => "Runtime" | EditorAndRuntime => "EditorAndRuntime"
  end.

Record AddonModule : Type := {
  mod_id : string;
  mod_name : string;
  target : ModuleTarget;
  mod_description : string;
  dependencies : list string;
  nodes : list BlueprintNode;
  commands : list CommandBinding
}.

Inductive PluginType : Type := Code | Blueprint | Hybrid.

Record AddonMeta : Type := {
  title : string;
  identifier : string;
  author : string;
  version : string;
  minEngineVersion : string;
  pluginType : PluginType;
  meta_description : string
}.

Record AddonState : Type := {
  meta : AddonMeta;
  modules : list AddonModule;
  selectedModuleId : option string;
  selectedNodeId : option string
}.

(** *** Patches: [Partial<T>], a value for each field that is set *)

Record ParameterPatch : Type := {
  pp_id : option string;
  pp_name : option string;
  pp_kind : option ParameterKind;
  pp_defaultValue : option string;
  pp_description : option string;
  pp_isArray : option bool
}.

Record NodePatch : Type := {
  np_id : option string;
  np_title : option string;
  np_category : option string;
  np_description : option string;
  np_inputs : option (list BlueprintParameter);
  np_outputs : option (list BlueprintParameter);
  np_body : option string
}.

Record CommandPatch : Type := {
  cp_id : option string;
  cp_name : option string;
  cp_context : option string;
  cp_hotkey : option string;
  cp_description : option string;
  cp_script : option string
}.

Record ModulePatch : Type := {
  mp_id : option string;
  mp_name : option string;
  mp_target : option ModuleTarget;
  mp_description : option string;
  mp_dependencies : option (list string);
  mp_nodes : option (list BlueprintNode);
  mp_commands : option (list CommandBinding)
}.

(** [updateMeta (key, value)]: the key and a value of that key's type. *)
Inductive MetaUpdate : Type :=
| SetTitle (v : string)
| SetIdentifier (v : string)
| SetAuthor (v : string)
| SetVersion (v : string)
| SetMinEngineVersion (v : string)
| SetPluginType (v : PluginType)
| SetDescription (v : string).

Inductive Placement : Type := Inputs | Outputs.

(** A field of [{ ...old, ...patch }]. *)
Definition merged {A : Type} (patch : option A) (old : A) : A :=
  match patch with
  | Some v => v
  | None => old
  end.

(** The same for a field that is optional in the entity itself. *)
Definition mergedOpt {A : Type} (patch old : option A) : option A :=
  match patch with
  | Some v => Some v
  | None => old
  end.

Definition mergeParameter (p : BlueprintParameter) (patch : ParameterPatch)
  : BlueprintParameter :=
  {| param_id := merged (pp_id patch) (param_id p);
     param_name := merged (pp_name patch) (param_name p);
     kind := merged (pp_kind patch) (kind p);
     defaultValue := mergedOpt (pp_defaultValue patch) (defaultValue p);
     param_description := mergedOpt (pp_description patch) (param_description p);
     isArray := mergedOpt (pp_isArray patch) (isArray p) |}.

Definition mergeNode (n : BlueprintNode) (patch : NodePatch) : BlueprintNode :=
  {| node_id := merged (np_id patch) (node_id n);
     node_title := merged (np_title patch) (node_title n);
     node_category := merged (np_category patch) (node_category n);
     node_description := merged (np_description patch) (node_description n);
     inputs := merged (np_inputs patch) (inputs n);
     outputs := merged (np_outputs patch) (outputs n);
     body := merged (np_body patch) (body n) |}.

Definition mergeCommand (c : CommandBinding) (patch : CommandPatch) : CommandBinding :=
  {| cmd_id := merged (cp_id patch) (cmd_id c);
     cmd_name := merged (cp_name patch) (cmd_name c);
     context := merged (cp_context patch) (context c);
     hotkey := merged (cp_hotkey patch) (hotkey c);
     cmd_description := merged (cp_description patch) (cmd_description c);
     script := merged (cp_script patch) (script c) |}.

Definition mergeModule (m : AddonModule) (patch : ModulePatch) : AddonModule :=
  {| mod_id := merged (mp_id patch) (mod_id m);
     mod_name := merged (mp_name patch) (mod_name m);
     target := merged (mp_target patch) (target m);
     mod_description := merged (mp_description patch) (mod_description m);
     dependencies := merged (mp_dependencies patch) (dependencies m);
     nodes := merged (mp_nodes patch) (nodes m);
     commands := merged (mp_commands patch) (commands m) |}.

Definition mergeMeta (m : AddonMeta) (u : MetaUpdate) : AddonMeta :=
  match u with
  | SetTitle v =>
      {| title := v; identifier := identifier m; author := author m;
         version := version m; minEngineVersion := minEngineVersion m;
         pluginType := pluginType m; meta_description := meta_description m |}
  | SetIdentifier v =>
      {| title := title m; identifier := v; author := author m;
         version := version m; minEngineVersion := minEngineVersion m;
         pluginType := pluginType m; meta_description := meta_description m |}
  | SetAuthor v =>
      {| title := title m; identifier := identifier m; author := v;
         version := version m; minEngineVersion := minEngineVersion m;
         pluginType := pluginType m; meta_description := meta_description m |}
  | SetVersion v =>
      {| title := title m; identifier := identifier m; author := author m;
         version := v; minEngineVersion := minEngineVersion m;
         pluginType := pluginType m; meta_description := meta_description m |}
  | SetMinEngineVersion v =>
      {| title := title m; identifier := identifier m; author := author m;
         version := version m; minEngineVersion := v;
         pluginType := pluginType m; meta_description := meta_description m |}
  | SetPluginType v =>
      {| title := title m; identifier := identifier m; author := author m;
         version := version m; minEngineVersion := minEngineVersion m;
         pluginType := v; meta_description := meta_description m |}
  | SetDescription v =>
      {| title := title m; identifier := identifier m; author := author m;
         version := version m; minEngineVersion := minEngineVersion m;
         pluginType := pluginType m; meta_description := v |}
  end.

(** Record updates of the fields the store rewrites. *)
Definition withNodes (m : AddonModule) (ns : list BlueprintNode) : AddonModule :=
  {| mod_id := mod_id m; mod_name := mod_name m; target := target m;
     mod_description := mod_description m; dependencies := dependencies m;
     nodes := ns; commands := commands m |}.

Definition withCommands (m : AddonModule) (cs : list CommandBinding) : AddonModule :=
  {| mod_id := mod_id m; mod_name := mod_name m; target := target m;
     mod_description := mod_description m; dependencies := dependencies m;
     nodes := nodes m; commands := cs |}.

Definition placed (pl : Placement) (n : BlueprintNode) : list BlueprintParameter :=
  match pl with
  | Inputs => inputs n
  | Outputs => outputs n
  end.

Definition withPlaced (pl : Placement) (n : BlueprintNode)
  (ps : list BlueprintParameter) : BlueprintNode :=
  {| node_id := node_id n; node_title := node_title n;
     node_category := node_category n; node_description := node_description n;
     inputs := match pl with Inputs => ps | Outputs => inputs n end;
     outputs := match pl with Inputs => outputs n | Outputs => ps end;
     body := body n |}.

Definition withModules (s : AddonState) (ms : list AddonModule) : AddonState :=
  {| meta := meta s; modules := ms;
     selectedModuleId := selectedModuleId s; selectedNodeId := selectedNodeId s |}.

Definition withSelection (s : AddonState) (ms : list AddonModule)
  (selMod selNode : option string) : AddonState :=
  {| meta := meta s; modules := ms;
     selectedModuleId := selMod; selectedNodeId := selNode |}.

(** ** Identifier generation *)

(** A computation that draws identifiers: the number of draws made so far
    goes in and comes out. *)
Definition Gen (A : Type) : Type := nat -> A * nat.

Definition ret {A : Type} (a : A) : Gen A := fun n => (a, n).

Definition bind {A B : Type} (m : Gen A) (k : A -> Gen B) : Gen B :=
  fun n => let (a, n') := m n in k a n'.

Notation "x <- m ;; k" := (bind m (fun x => k))
  (at level 61, m at next level, right associativity).

(** [Array.prototype.map] with a callback that draws identifiers. *)
Fixpoint mapM {A B : Type} (f : A -> Gen B) (l : list A) : Gen (list B) :=
  match l with
  | [] => ret []
  | x :: xs => y <- f x ;; ys <- mapM f xs ;; ret (y :: ys)
  end.

(** A generator for examples: the decimal numeral of the draw, behind a
    fixed prefix. *)
Definition demoUUID (n : nat) : string :=
  "uuid-" ++ NilEmpty.string_of_uint (Nat.to_uint n).

(** [modules.at(-1)]. *)
Fixpoint atLast {A : Type} (l : list A) : option A :=
  match l with
  | [] => None
  | [x] => Some x
  | _ :: l' => atLast l'
  end.

(** ** The store ([src/lib/store.ts]) *)

Section Store.

(** What the [n]-th call of [crypto.randomUUID()] returns. *)
Variable uuid : nat -> string.

Definition randomUUID : Gen string := fun n => (uuid n, S n).

Definition createParameter (name : string) : Gen BlueprintParameter :=
  i <- randomUUID ;;
  ret {| param_id := i; param_name := name; kind := KString;
         defaultValue := None; param_description := None; isArray := None |}.

Definition createNode : Gen BlueprintNode :=
  i <- randomUUID ;;
  context <- createParameter "Context" ;;
  result <- createParameter "Result" ;;
  ret {| node_id := i;
         node_title := "Execute Task";
         node_description := "Runs a custom task in the editor or runtime.";
         node_category := "Utilities";
         inputs := [context];
         outputs := [result];
         body := "// Describe the node behaviour here. This will be exported as a comment in the generated C++ scaffold."
                 ++ JSON.nl ++ "return Result;" |}.

Definition createModule : Gen AddonModule :=
  i <- randomUUID ;;
  node <- createNode ;;
  c <- randomUUID ;;
  ret {| mod_id := i;
         mod_name := "CoreModule";
         target := EditorAndRuntime;
         mod_description := "Primary module that ships with the add-on.";
         dependencies := ["Core"; "Engine"; "UnrealEd"];
         nodes := [node];
         commands :=
           [ {| cmd_id := c;
                cmd_name := "OpenPalette";
                context := "LevelEditor";
                hotkey := "Ctrl+Alt+P";
                cmd_description := "Opens the add-on palette.";
                script :=
                  "UEditorUtilitySubsystem* UtilitySubsystem = GEditor->GetEditorSubsystem<UEditorUtilitySubsystem>();"
                  ++ JSON.nl ++ "UtilitySubsystem->ExecuteUtility(FName("
                  ++ JSON.dq ++ "BP_OpenPaletteUtility" ++ JSON.dq ++ "));" |} ] |}.

(** The module is built once, when [store.ts] is loaded: draws 0 to 4. *)
Definition defaultState : AddonState :=
  {| meta :=
       {| title := "AddOn Architect";
          identifier := "AddonArchitect";
          author := "StudioX";
          version := "1.0.0";
          minEngineVersion := "5.3";
          pluginType := Hybrid;
          meta_description :=
            "Design a hybrid Blueprint/C++ add-on with modular nodes, editor commands, and export utilities." |};
     modules := [fst (createModule 0)];
     selectedModuleId := None;
     selectedNodeId := None |}.

Definition findModule (id : string) (ms : list AddonModule) : option AddonModule :=
  find (fun md => mod_id md =? id) ms.

(** [m?.nodes[0]?.id ?? null]. *)
Definition firstNodeId (m : option AddonModule) : option string :=
  match m with
  | Some m' =>
      match nodes m' with
      | n :: _ => Some (node_id n)
      | [] => None
      end
  | None => None
  end.

Definition updateMeta (u : MetaUpdate) (s : AddonState) : AddonState :=
  {| meta := mergeMeta (meta s) u; modules := modules s;
     selectedModuleId := selectedModuleId s; selectedNodeId := selectedNodeId s |}.

Definition selectModule (id : option string) (s : AddonState) : AddonState :=
  withSelection s (modules s) id
    match id with
    | Some i =>
        if Js.truthy i then firstNodeId (findModule i (modules s)) else None
    | None => None
    end.

Definition selectNode (id : option string) (s : AddonState) : AddonState :=
  withSelection s (modules s) (selectedModuleId s) id.

Definition addModule (s : AddonState) : Gen AddonState :=
  newModule <- createModule ;;
  ret (withSelection s (modules s ++ [newModule])
         (Some (mod_id newModule)) (firstNodeId (Some newModule))).

Definition cloneParameter (param : BlueprintParameter) : Gen BlueprintParameter :=
  i <- randomUUID ;;
  ret {| param_id := i; param_name := param_name param; kind := kind param;
         defaultValue := defaultValue param;
         param_description := param_description param;
         isArray := isArray param |}.

Definition cloneNode (node : BlueprintNode) : Gen BlueprintNode :=
  i <- randomUUID ;;
  ins <- mapM cloneParameter (inputs node) ;;
  outs <- mapM cloneParameter (outputs node) ;;
  ret {| node_id := i; node_title := node_title node;
         node_category := node_category node;
         node_description := node_description node;
         inputs := ins; outputs := outs; body := body node |}.

Definition cloneCommand (command : CommandBinding) : Gen CommandBinding :=
  i <- randomUUID ;;
  ret {| cmd_id := i; cmd_name := cmd_name command; context := context command;
         hotkey := hotkey command; cmd_description := cmd_description command;
         script := script command |}.

(** The object literal [cloned] of [cloneModule]. *)
Definition cloneOf (existing : AddonModule) : Gen AddonModule :=
  i <- randomUUID ;;
  ns <- mapM cloneNode (nodes existing) ;;
  cs <- mapM cloneCommand (commands existing) ;;
  ret {| mod_id := i;
         mod_name := mod_name existing ++ "Copy";
         target := target existing;
         mod_description := mod_description existing;
         dependencies := dependencies existing;
         nodes := ns;
         commands := cs |}.

Definition cloneModule (id : string) (s : AddonState) : Gen AddonState :=
  match findModule id (modules s) with
  | None => ret s
  | Some existing =>
      cloned <- cloneOf existing ;;
      ret (withSelection s (modules s ++ [cloned])
             (Some (mod_id cloned)) (firstNodeId (Some cloned)))
  end.

Definition updateModule (id : string) (patch : ModulePatch) (s : AddonState)
  : AddonState :=
  withModules s
    (map (fun md => if mod_id md =? id then mergeModule md patch else md)
         (modules s)).

Definition removeModule (id : string) (s : AddonState) : AddonState :=
  let ms := filter (fun md => negb (mod_id md =? id)) (modules s) in
  let nextSelected := option_map mod_id (atLast ms) in
  withSelection s ms nextSelected
    match nextSelected with
    | Some i =>
        if Js.truthy i && negb (Nat.eqb (List.length ms) 0)
        then firstNodeId (findModule i ms)
        else None
    | None => None
    end.

Definition addNode (moduleId : string) (s : AddonState) : Gen AddonState :=
  node <- createNode ;;
  ret (withSelection s
         (map (fun md =>
                 if mod_id md =? moduleId
                 then withNodes md (nodes md ++ [node])
                 else md)
              (modules s))
         (Some moduleId) (Some (node_id node))).

Definition updateNode (moduleId nodeId : string) (patch : NodePatch)
  (s : AddonState) : AddonState :=
  withModules s
    (map (fun md =>
            if mod_id md =? moduleId
            then withNodes md
                   (map (fun node =>
                           if node_id node =? nodeId
                           then mergeNode node patch
                           else node)
                        (nodes md))
            else md)
         (modules s)).

Definition removeNode (moduleId nodeId : string) (s : AddonState) : AddonState :=
  let ms :=
    map (fun md =>
           if mod_id md =? moduleId
           then withNodes md
                  (filter (fun node => negb (node_id node =? nodeId)) (nodes md))
           else md)
        (modules s) in
  let activeModule := findModule moduleId ms in
  withSelection s ms (Some moduleId) (firstNodeId activeModule).

Definition addParameter (moduleId nodeId : string) (placement : Placement)
  (s : AddonState) : Gen AddonState :=
  ms <- mapM (fun md =>
                if mod_id md =? moduleId
                then ns <- mapM (fun node =>
                                   if node_id node =? nodeId
                                   then p <- createParameter
                                               match placement with
                                               | Inputs => "InputParam"
                                               | Outputs => "OutputParam"
                                               end ;;
                                        ret (withPlaced placement node
                                               (placed placement node ++ [p]))
                                   else ret node)
                                (nodes md) ;;
                     ret (withNodes md ns)
                else ret md)
             (modules s) ;;
  ret (withModules s ms).

Definition updateParameter (moduleId nodeId : string) (placement : Placement)
  (paramId : string) (patch : ParameterPatch) (s : AddonState) : AddonState :=
  withModules s
    (map (fun md =>
            if mod_id md =? moduleId
            then withNodes md
                   (map (fun node =>
                           if node_id node =? nodeId
                           then withPlaced placement node
                                  (map (fun param =>
                                          if param_id param =? paramId
                                          then mergeParameter param patch
                                          else param)
                                       (placed placement node))
                           else node)
                        (nodes md))
            else md)
         (modules s)).

Definition removeParameter (moduleId nodeId : string) (placement : Placement)
  (paramId : string) (s : AddonState) : AddonState :=
  withModules s
    (map (fun md =>
            if mod_id md =? moduleId
            then withNodes md
                   (map (fun node =>
                           if node_id node =? nodeId
                           then withPlaced placement node
                                  (filter (fun param => negb (param_id param =? paramId))
                                          (placed placement node))
                           else node)
                        (nodes md))
            else md)
         (modules s)).

Definition addCommand (moduleId : string) (s : AddonState) : Gen AddonState :=
  ms <- mapM (fun md =>
                if mod_id md =? moduleId
                then i <- randomUUID ;;
                     ret (withCommands md
                            (commands md ++
                             [ {| cmd_id := i;
                                  cmd_name := "NewCommand";
                                  context := "LevelEditor";
                                  hotkey := "Ctrl+Shift+N";
                                  cmd_description := "Executes a custom command.";
                                  script := "// Script body" |} ]))
                else ret md)
             (modules s) ;;
  ret (withModules s ms).

Definition updateCommand (moduleId commandId : string) (patch : CommandPatch)
  (s : AddonState) : AddonState :=
  withModules s
    (map (fun md =>
            if mod_id md =? moduleId
            then withCommands md
                   (map (fun command =>
                           if cmd_id command =? commandId
                           then mergeCommand command patch
                           else command)
                        (commands md))
            else md)
         (modules s)).

Definition removeCommand (moduleId commandId : string) (s : AddonState)
  : AddonState :=
  withModules s
    (map (fun md =>
            if mod_id md =? moduleId
            then withCommands md
                   (filter (fun command => negb (cmd_id command =? commandId))
                           (commands md))
            else md)
         (modules s)).

(** [set ({ ...defaultState })]: all four fields are overwritten. *)
Definition reset (s : AddonState) : AddonState :=
  {| meta := meta defaultState;
     modules := modules defaultState;
     selectedModuleId := selectedModuleId defaultState;
     selectedNodeId := selectedNodeId defaultState |}.

(** *** The store as a transition system *)

Inductive Action : Type :=
| UpdateMeta (u : MetaUpdate)
| SelectModule (id : option string)
| SelectNode (id : option string)
| AddModule
| CloneModule (id : string)
| UpdateModule (id : string) (patch : ModulePatch)
| RemoveModule (id : string)
| AddNode (moduleId : string)
| UpdateNode (moduleId nodeId : string) (patch : NodePatch)
| RemoveNode (moduleId nodeId : string)
| AddParameter (moduleId nodeId : string) (placement : Placement)
| UpdateParameter (moduleId nodeId : string) (placement : Placement)
    (paramId : string) (patch : ParameterPatch)
| RemoveParameter (moduleId nodeId : string) (placement : Placement)
    (paramId : string)
| AddCommand (moduleId : string)
| UpdateCommand (moduleId commandId : string) (patch : CommandPatch)
| RemoveCommand (moduleId commandId : string)
| Reset.

Definition perform (a : Action) (s : AddonState) : Gen AddonState :=
  match a with
  | UpdateMeta u => ret (updateMeta u s)
  | SelectModule id => ret (selectModule id s)
  | SelectNode id => ret (selectNode id s)
  | AddModule => addModule s
  | CloneModule id => cloneModule id s
  | UpdateModule id patch => ret (updateModule id patch s)
  | RemoveModule id => ret (removeModule id s)
  | AddNode moduleId => addNode moduleId s
  | UpdateNode moduleId nodeId patch => ret (updateNode moduleId nodeId patch s)
  | RemoveNode moduleId nodeId => ret (removeNode moduleId nodeId s)
  | AddParameter moduleId nodeId placement =>
      addParameter moduleId nodeId placement s
  | UpdateParameter moduleId nodeId placement paramId patch =>
      ret (updateParameter moduleId nodeId placement paramId patch s)
  | RemoveParameter moduleId nodeId placement paramId =>
      ret (removeParameter moduleId nodeId placement paramId s)
  | AddCommand moduleId => addCommand moduleId s
  | UpdateCommand moduleId commandId patch =>
      ret (updateCommand moduleId commandId patch s)
  | RemoveCommand moduleId commandId => ret (removeCommand moduleId commandId s)
  | Reset => ret (reset s)
  end.

(** The live model and the number of identifiers drawn so far. *)
Record Store : Type := { model : AddonState; draws : nat }.

Definition dispatch (a : Action) (st : Store) : Store :=
  let (s, n) := perform a (model st) (draws st) in
  {| model := s; draws := n |}.

Definition initialStore : Store :=
  {| model := defaultState; draws := snd (createModule 0) |}.

Definition dispatchAll (l : list Action) (st : Store) : Store :=
  fold_left (fun st' a => dispatch a st') l st.

(** The stores reached from the initial one by actions that [allowed]
    admits in the model they are applied to. *)
Inductive reachableBy (allowed : Action -> AddonState -> Prop) : Store -> Prop :=
| reach_initial : reachableBy allowed initialStore
| reach_dispatch (a : Action) (st : Store) :
    reachableBy allowed st ->
    allowed a (model st) ->
    reachableBy allowed (dispatch a st).

Definition reachable : Store -> Prop := reachableBy (fun _ _ => True).

End Store.

(** ** The exporters ([src/lib/exporters.ts]) *)

Definition nl : string := JSON.nl.
Definition dq : string := JSON.dq.

Definition descriptorModule (module : AddonModule) : JSON.value :=
  JSON.Obj
    [ ("Name", JSON.Str (mod_name module));
      ("Type", JSON.Str (targetText (target module)));
      ("LoadingPhase", JSON.Str "Default");
      ("AdditionalDependencies", JSON.Arr (map JSON.Str (dependencies module))) ].

(** The object handed to [JSON.stringify] by [createUPluginDescriptor]. *)
Definition descriptorObject (state : AddonState) : JSON.value :=
  let modules := map descriptorModule (modules state) in
  JSON.Obj
    [ ("FileVersion", JSON.Num 3);
      ("Version", JSON.Num 1);
      ("VersionName", JSON.Str (version (meta state)));
      ("FriendlyName", JSON.Str (title (meta state)));
      ("EngineVersion", JSON.Str (minEngineVersion (meta state)));
      ("Description", JSON.Str (meta_description (meta state)));
      ("Category", JSON.Str "Editor");
      ("CreatedBy", JSON.Str (author (meta state)));
      ("CreatedByURL", JSON.Str "https://addon-architect.vercel.app");
      ("Modules", JSON.Arr modules) ].

Definition createUPluginDescriptor (state : AddonState) : string :=
  JSON.stringify2 (descriptorObject state).

(** The constants [inputs] and [outputs] of [createBlueprintNodeSnippet]. *)
Definition inputsText (node : BlueprintNode) : string :=
  Js.join nl
    (map (fun param => "  " ++ kindText (kind param) ++ " " ++ param_name param ++ ";")
         (inputs node)).

Definition outputsText (node : BlueprintNode) : string :=
  Js.join nl
    (map (fun param =>
            "  " ++ kindText (kind param) ++ " " ++ param_name param
              ++ match isArray param with
                 | Some true => "[]"
                 | _ => ""
                 end
              ++ ";")
         (outputs node)).

Definition signatureText (node : BlueprintNode) : string :=
  Js.join ("," ++ nl)
    (map (fun param =>
            "    "
              ++ (if isObjectKind (kind param) then "UObject*"
                  else "const " ++ kindText (kind param))
              ++ " " ++ param_name param)
         (inputs node)).

Definition createBlueprintNodeSnippet (node : BlueprintNode) : string :=
  let inputs := inputsText node in
  let outputs := outputsText node in
  "UFUNCTION(BlueprintCallable, Category = " ++ dq ++ node_category node ++ dq ++ ")" ++ nl
    ++ "static void " ++ node_title node ++ "(" ++ nl
    ++ signatureText node ++ nl
    ++ ");" ++ nl ++ nl
    ++ "// Description: " ++ node_description node ++ nl
    ++ "// Body Example:" ++ nl
    ++ "/*" ++ nl
    ++ body node ++ nl
    ++ "*/" ++ nl
    ++ "// Outputs:" ++ nl
    ++ "/*" ++ nl
    ++ Js.orElse outputs "// void" ++ nl
    ++ "*/" ++ nl
    ++ "// Inputs:" ++ nl
    ++ "/*" ++ nl
    ++ Js.orElse inputs "// none" ++ nl
    ++ "*/".

(** The callback mapped over the tokens of a hotkey. *)
Definition keyToken (token : string) : string :=
  "EKeys::" ++ Js.replace "Ctrl" "LeftControl" (Js.trim token).

(** The argument of [FInputChord] in [createCommandSnippet]. *)
Definition inputChord (hotkey : string) : string :=
  Js.join ", " (map keyToken (Js.split "+" hotkey)).

Definition createCommandSnippet (command : CommandBinding) : string :=
  "FUICommandInfoDecl(" ++ nl
    ++ "    CommandList," ++ nl
    ++ "    " ++ dq ++ context command ++ dq ++ "," ++ nl
    ++ "    " ++ dq ++ cmd_name command ++ dq ++ "," ++ nl
    ++ "    LOCTEXT(" ++ dq ++ cmd_name command ++ dq ++ ", "
    ++ dq ++ cmd_description command ++ dq ++ ")," ++ nl
    ++ "    FInputChord(" ++ inputChord (hotkey command) ++ ")," ++ nl
    ++ "    FSlateIcon()" ++ nl
    ++ ").ExecuteAction(FExecuteAction::CreateLambda([]()" ++ nl
    ++ "{" ++ nl
    ++ "    " ++ script command ++ nl
    ++ "}));".

Definition indentLines (text : string) : string :=
  Js.join nl (map (fun line => "    " ++ line) (Js.split (ascii_of_nat 10) text)).

Definition createCppScaffold (state : AddonState) : string :=
  let headerNodes :=
    Js.join (nl ++ nl)
      (filter Js.truthy
         (map (fun module =>
                 Js.join (nl ++ nl)
                   (map (fun snippet => "// Module: " ++ mod_name module ++ nl ++ snippet)
                      (map createBlueprintNodeSnippet (nodes module))))
              (modules state))) in
  let commandSnippets :=
    Js.join (nl ++ nl)
      (map (fun command =>
              "// Command: " ++ cmd_name command ++ nl ++ createCommandSnippet command)
           (flat_map commands (modules state))) in
  "#pragma once" ++ nl
    ++ nl
    ++ "#include " ++ dq ++ "CoreMinimal.h" ++ dq ++ nl
    ++ "#include " ++ dq ++ "Kismet/BlueprintFunctionLibrary.h" ++ dq ++ nl
    ++ nl
    ++ "class " ++ identifier (meta state) ++ "Library : public UBlueprintFunctionLibrary" ++ nl
    ++ "{" ++ nl
    ++ "    GENERATED_BODY()" ++ nl
    ++ nl
    ++ "public:" ++ nl
    ++ indentLines headerNodes ++ nl
    ++ "};" ++ nl
    ++ nl
    ++ "// Editor Command Bindings" ++ nl
    ++ "void Register" ++ identifier (meta state)
    ++ "Commands(const TSharedRef<FUICommandList>& CommandList)" ++ nl
    ++ "{" ++ nl
    ++ indentLines commandSnippets ++ nl
    ++ "}".

(** ** Vocabulary of the properties *)

(** Whether an identifier references an entity of the model. *)
Definition hasModule (moduleId : string) (s : AddonState) : bool :=
  existsb (fun md => mod_id md =? moduleId) (modules s).

Definition nodeIn (moduleId nodeId : string) (ms : list AddonModule) : bool :=
  existsb (fun md =>
             (mod_id md =? moduleId)
             && existsb (fun node => node_id node =? nodeId) (nodes md))
          ms.

Definition hasNode (moduleId nodeId : string) (s : AddonState) : bool :=
  nodeIn moduleId nodeId (modules s).

Definition hasParameter (moduleId nodeId : string) (placement : Placement)
  (paramId : string) (s : AddonState) : bool :=
  existsb (fun md =>
             (mod_id md =? moduleId)
             && existsb (fun node =>
                           (node_id node =? nodeId)
                           && existsb (fun param => param_id param =? paramId)
                                      (placed placement node))
                        (nodes md))
          (modules s).

Definition hasCommand (moduleId commandId : string) (s : AddonState) : bool :=
  existsb (fun md =>
             (mod_id md =? moduleId)
             && existsb (fun command => cmd_id command =? commandId) (commands md))
          (modules s).

Definition anyNode (nodeId : string) (s : AddonState) : bool :=
  existsb (fun md => existsb (fun node => node_id node =? nodeId) (nodes md))
          (modules s).

(** An action names an identifier that references nothing in the model. *)
Definition targetMissing (a : Action) (s : AddonState) : bool :=
  match a with
  | UpdateMeta _ | AddModule | Reset => false
  | SelectModule None | SelectNode None => false
  | SelectModule (Some id) => negb (hasModule id s)
  | SelectNode (Some id) => negb (anyNode id s)
  | CloneModule id | UpdateModule id _ | RemoveModule id => negb (hasModule id s)
  | AddNode moduleId | AddCommand moduleId => negb (hasModule moduleId s)
  | UpdateNode moduleId nodeId _ | RemoveNode moduleId nodeId
  | AddParameter moduleId nodeId _ => negb (hasNode moduleId nodeId s)
  | UpdateParameter moduleId nodeId placement paramId _
  | RemoveParameter moduleId nodeId placement paramId =>
      negb (hasParameter moduleId nodeId placement paramId s)
  | UpdateCommand moduleId commandId _ | RemoveCommand moduleId commandId =>
      negb (hasCommand moduleId commandId s)
  end.

(** The operations whose updater does not write the selection fields. *)
Definition leavesSelection (a : Action) : bool :=
  match a with
  | SelectModule _ | SelectNode _ | RemoveModule _
  | AddNode _ | RemoveNode _ _ => false
  | _ => true
  end.

(** The selection invariant. *)
Definition selectionConsistent (s : AddonState) : bool :=
  match selectedNodeId s with
  | None => true
  | Some nodeId =>
      match selectedModuleId s with
      | None => false
      | Some moduleId => hasNode moduleId nodeId s
      end
  end.

Definition unset {A : Type} (o : option A) : bool :=
  match o with
  | None => true
  | Some _ => false
  end.

(** Calls under which the selection invariant is kept. *)
Definition selectionSafe (a : Action) (s : AddonState) : bool :=
  match a with
  | SelectNode (Some id) =>
      match selectedModuleId s with
      | Some moduleId => hasNode moduleId id s
      | None => false
      end
  | AddNode moduleId => hasModule moduleId s
  | UpdateModule _ patch => unset (mp_id patch) && unset (mp_nodes patch)
  | UpdateNode _ _ patch => unset (np_id patch)
  | _ => true
  end.

(** Calls whose patch sets neither an id nor a list of nested entities. *)
Definition keepsIds (a : Action) : bool :=
  match a with
  | UpdateModule _ patch =>
      unset (mp_id patch) && unset (mp_nodes patch) && unset (mp_commands patch)
  | UpdateNode _ _ patch =>
      unset (np_id patch) && unset (np_inputs patch) && unset (np_outputs patch)
  | UpdateParameter _ _ _ _ patch => unset (pp_id patch)
  | UpdateCommand _ _ patch => unset (cp_id patch)
  | _ => true
  end.

(** The ids of an entity and of everything nested in it, in the order in
    which [cloneModule] draws them. *)
Definition nodeIds (node : BlueprintNode) : list string :=
  node_id node :: map param_id (inputs node) ++ map param_id (outputs node).

Definition moduleIds (md : AddonModule) : list string :=
  mod_id md :: flat_map nodeIds (nodes md) ++ map cmd_id (commands md).

Definition stateIds (s : AddonState) : list string :=
  flat_map moduleIds (modules s).

Definition nodeSize (node : BlueprintNode) : nat :=
  S (List.length (inputs node) + List.length (outputs node)).

Definition moduleSize (md : AddonModule) : nat :=
  S (list_sum (map nodeSize (nodes md)) + List.length (commands md)).


(** An entity without its ids. *)
Definition anonParameter (param : BlueprintParameter) : BlueprintParameter :=
  {| param_id := ""; param_name := param_name param; kind := kind param;
     defaultValue := defaultValue param;
     param_description := param_description param; isArray := isArray param |}.

Definition anonNode (node : BlueprintNode) : BlueprintNode :=
  {| node_id := ""; node_title := node_title node;
     node_category := node_category node;
     node_description := node_description node;
     inputs := map anonParameter (inputs node);
     outputs := map anonParameter (outputs node);
     body := body node |}.

Definition anonCommand (command : CommandBinding) : CommandBinding :=
  {| cmd_id := ""; cmd_name := cmd_name command; context := context command;
     hotkey := hotkey command; cmd_description := cmd_description command;
     script := script command |}.

Definition anonModule (md : AddonModule) : AddonModule :=
  {| mod_id := ""; mod_name := mod_name md; target := target md;
     mod_description := mod_description md; dependencies := dependencies md;
     nodes := map anonNode (nodes md);
     commands := map anonCommand (commands md) |}.

(** A model without its entity ids; the selection is kept. *)
Definition anonState (s : AddonState) : AddonState :=
  withModules s (map anonModule (modules s)).

(** Every id is unique within its containing collection. *)
Definition NodeUnique (node : BlueprintNode) : Prop :=
  NoDup (map param_id (inputs node)) /\ NoDup (map param_id (outputs node)).

Definition ModuleUnique (md : AddonModule) : Prop :=
  NoDup (map node_id (nodes md))
  /\ NoDup (map cmd_id (commands md))
  /\ Forall NodeUnique (nodes md).

Definition UniqueIds (s : AddonState) : Prop :=
  NoDup (map mod_id (modules s)) /\ Forall ModuleUnique (modules s).

(** The descriptor as text: two spaces of indentation per level. *)
Definition quoted (s : string) : string := dq ++ s ++ dq.

Definition arrayText (indent : string) (items : list string) : string :=
  match items with
  | [] => "[]"
  | _ =>
      "[" ++ nl
        ++ Js.join ("," ++ nl) (map (fun item => indent ++ "  " ++ item) items)
        ++ nl ++ indent ++ "]"
  end.

Definition descriptorModuleText (md : AddonModule) : string :=
  "{" ++ nl
    ++ "      " ++ quoted "Name" ++ ": " ++ JSON.quote (mod_name md) ++ "," ++ nl
    ++ "      " ++ quoted "Type" ++ ": " ++ quoted (targetText (target md)) ++ "," ++ nl
    ++ "      " ++ quoted "LoadingPhase" ++ ": " ++ quoted "Default" ++ "," ++ nl
    ++ "      " ++ quoted "AdditionalDependencies" ++ ": "
    ++ arrayText "      " (map JSON.quote (dependencies md)) ++ nl
    ++ "    }".

Definition descriptorText (s : AddonState) : string :=
  "{" ++ nl
    ++ "  " ++ quoted "FileVersion" ++ ": 3," ++ nl
    ++ "  " ++ quoted "Version" ++ ": 1," ++ nl
    ++ "  " ++ quoted "VersionName" ++ ": " ++ JSON.quote (version (meta s)) ++ "," ++ nl
    ++ "  " ++ quoted "FriendlyName" ++ ": " ++ JSON.quote (title (meta s)) ++ "," ++ nl
    ++ "  " ++ quoted "EngineVersion" ++ ": "
    ++ JSON.quote (minEngineVersion (meta s)) ++ "," ++ nl
    ++ "  " ++ quoted "Description" ++ ": "
    ++ JSON.quote (meta_description (meta s)) ++ "," ++ nl
    ++ "  " ++ quoted "Category" ++ ": " ++ quoted "Editor" ++ "," ++ nl
    ++ "  " ++ quoted "CreatedBy" ++ ": " ++ JSON.quote (author (meta s)) ++ "," ++ nl
    ++ "  " ++ quoted "CreatedByURL" ++ ": "
    ++ quoted "https://addon-architect.vercel.app" ++ "," ++ nl
    ++ "  " ++ quoted "Modules" ++ ": "
    ++ arrayText "  " (map descriptorModuleText (modules s)) ++ nl
    ++ "}".

(** The scaffold of a node up to and including its body block. *)
Definition snippetThroughBody (node : BlueprintNode) : string :=
  "UFUNCTION(BlueprintCallable, Category = " ++ dq ++ node_category node ++ dq ++ ")" ++ nl
    ++ "static void " ++ node_title node ++ "(" ++ nl
    ++ signatureText node ++ nl
    ++ ");" ++ nl ++ nl
    ++ "// Description: " ++ node_description node ++ nl
    ++ "// Body Example:" ++ nl
    ++ "/*" ++ nl
    ++ body node ++ nl
    ++ "*/" ++ nl.

Definition commentBlock (label content : string) : string :=
  label ++ nl ++ "/*" ++ nl ++ content ++ nl ++ "*/".

(** A node without parameters. *)
Definition bareNode : BlueprintNode :=
  {| node_id := "n"; node_title := "Ping"; node_category := "Utilities";
     node_description := "Does nothing."; inputs := []; outputs := [];
     body := "return;" |}.

(** The binding of a command before and behind its input chord. *)
Definition bindingLead (command : CommandBinding) : string :=
  "FUICommandInfoDecl(" ++ nl
    ++ "    CommandList," ++ nl
    ++ "    " ++ dq ++ context command ++ dq ++ "," ++ nl
    ++ "    " ++ dq ++ cmd_name command ++ dq ++ "," ++ nl
    ++ "    LOCTEXT(" ++ dq ++ cmd_name command ++ dq ++ ", "
    ++ dq ++ cmd_description command ++ dq ++ ")," ++ nl
    ++ "    ".

Definition bindingRest (command : CommandBinding) : string :=
  "," ++ nl
    ++ "    FSlateIcon()" ++ nl
    ++ ").ExecuteAction(FExecuteAction::CreateLambda([]()" ++ nl
    ++ "{" ++ nl
    ++ "    " ++ script command ++ nl
    ++ "}));".

(** The token substitution of the hotkey rule, on a trimmed token. *)
Definition substituteToken (token : string) : string :=
  "EKeys::" ++ Js.replace "Ctrl" "LeftControl" token.

(** A command bound to the hotkey of the default command. *)
Definition sampleCommand : CommandBinding :=
  {| cmd_id := "c"; cmd_name := "OpenPalette"; context := "LevelEditor";
     hotkey := "Ctrl+Alt+P"; cmd_description := "Opens the add-on palette.";
     script := "// Script body" |}.

(** Patches that set one field. *)
Definition titlePatch (v : string) : NodePatch :=
  {| np_id := None; np_title := Some v; np_category := None;
     np_description := None; np_inputs := None; np_outputs := None;
     np_body := None |}.

Definition idPatch (v : string) : ModulePatch :=
  {| mp_id := Some v; mp_name := None; mp_target := None;
     mp_description := None; mp_dependencies := None; mp_nodes := None;
     mp_commands := None |}.

(** Modules that carry the same module id and the same node ids. *)
Definition sameNodeIds (md md' : AddonModule) : Prop :=
  mod_id md' = mod_id md /\ map node_id (nodes md') = map node_id (nodes md).

(** An identifier is one of the first [n] draws of the generator. *)
Definition drawn (uuid : nat -> string) (n : nat) (x : string) : Prop :=
  exists k, k < n /\ x = uuid k.

(** The ids of an entity are draws below [n], unique in each collection. *)
Definition NodeGood (uuid : nat -> string) (n : nat) (node : BlueprintNode) : Prop :=
  Forall (drawn uuid n) (nodeIds node) /\ NodeUnique node.

Definition ModuleGood (uuid : nat -> string) (n : nat) (md : AddonModule) : Prop :=
  drawn uuid n (mod_id md)
  /\ Forall (NodeGood uuid n) (nodes md)
  /\ Forall (drawn uuid n) (map cmd_id (commands md))
  /\ NoDup (map node_id (nodes md))
  /\ NoDup (map cmd_id (commands md)).

Definition ModulesGood (uuid : nat -> string) (n : nat) (ms : list AddonModule) : Prop :=
  Forall (ModuleGood uuid n) ms /\ NoDup (map mod_id ms).

(** The generator never returns the same identifier twice. *)
Definition NeverRepeats (uuid : nat -> string) : Prop :=
  forall a b, uuid a = uuid b -> a = b.

(** ** The specification document ([createBlueprintJSON]) *)

Definition pluginTypeText (t : PluginType) : string :=
  match t with
  | Code => "Code" | Blueprint => "Blueprint" | Hybrid => "Hybrid"
  end.

(** One element of [formatParameters]: [?? false], [?? null] and [?? ""]
    fill the optional fields in. *)
Definition formatParameter (param : BlueprintParameter) : JSON.value :=
  JSON.Obj
    [ ("name", JSON.Str (param_name param));
      ("type", JSON.Str (kindText (kind param)));
      ("isArray", JSON.Bool match isArray param with
                            | Some b => b
                            | None => false
                            end);
      ("defaultValue", match defaultValue param with
                       | Some v => JSON.Str v
                       | None => JSON.Null
                       end);
      ("description", JSON.Str match param_description param with
                               | Some v => v
                               | None => ""
                               end) ].

Definition formatParameters (params : list BlueprintParameter) : list JSON.value :=
  map formatParameter params.

(** Objects of the store are written by the literals of [store.ts] and by
    spreads over them, which keep the keys in the order of the literal. *)
Definition metaObject (m : AddonMeta) : JSON.value :=
  JSON.Obj
    [ ("title", JSON.Str (title m));
      ("identifier", JSON.Str (identifier m));
      ("author", JSON.Str (author m));
      ("version", JSON.Str (version m));
      ("minEngineVersion", JSON.Str (minEngineVersion m));
      ("pluginType", JSON.Str (pluginTypeText (pluginType m)));
      ("description", JSON.Str (meta_description m)) ].

(** [commands: module.commands] hands the command objects over as they
    are, and [JSON.stringify] writes an object in the insertion order of
    its keys.  The records of the model do not hold that order, so it is an
    input of its own: [keys] is the order of the keys of the command object
    at hand, a permutation of the six keys for an object of the type. *)
Inductive CommandKey : Type :=
| KeyId | KeyName | KeyContext | KeyHotkey | KeyDescription | KeyScript.

Definition commandKeyName (k : CommandKey) : string :=
  match k with
  | KeyId => "id" | KeyName => "name" | KeyContext => "context"
  | KeyHotkey => "hotkey" | KeyDescription => "description" | KeyScript => "script"
  end.

Definition commandField (k : CommandKey) (command : CommandBinding) : string :=
  match k with
  | KeyId => cmd_id command | KeyName => cmd_name command
  | KeyContext => context command | KeyHotkey => hotkey command
  | KeyDescription => cmd_description command | KeyScript => script command
  end.

(** The order of the keys in the two command literals of [store.ts]
    (lines 80-87 and 284-291); the spreads [{ ...command, id }] and
    [{ ...command, ...patch }] keep the order of [command].  A command that
    comes in through the [commands] of an [updateModule] patch has the order
    its caller gave it. *)
Definition storeKeys : list CommandKey :=
  [KeyId; KeyName; KeyContext; KeyHotkey; KeyDescription; KeyScript].

Definition commandObject (keys : list CommandKey) (command : CommandBinding)
  : JSON.value :=
  JSON.Obj (map (fun k => (commandKeyName k, JSON.Str (commandField k command))) keys).

(** [map] with the position of each element, from [i] on: the position is
    what the key orders of the command objects are looked up by. *)
Fixpoint mapFrom {A B : Type} (f : nat -> A -> B) (i : nat) (l : list A) : list B :=
  match l with
  | [] => []
  | x :: l' => f i x :: mapFrom f (S i) l'
  end.

Definition blueprintNode (node : BlueprintNode) : JSON.value :=
  JSON.Obj
    [ ("id", JSON.Str (node_id node));
      ("title", JSON.Str (node_title node));
      ("category", JSON.Str (node_category node));
      ("description", JSON.Str (node_description node));
      ("inputs", JSON.Arr (formatParameters (inputs node)));
      ("outputs", JSON.Arr (formatParameters (outputs node)));
      ("body", JSON.Str (body node)) ].

(** [keys j] is the key order of the [j]-th command of the module. *)
Definition blueprintModule (keys : nat -> list CommandKey) (module : AddonModule)
  : JSON.value :=
  JSON.Obj
    [ ("id", JSON.Str (mod_id module));
      ("name", JSON.Str (mod_name module));
      ("target", JSON.Str (targetText (target module)));
      ("description", JSON.Str (mod_description module));
      ("dependencies", JSON.Arr (map JSON.Str (dependencies module)));
      ("nodes", JSON.Arr (map blueprintNode (nodes module)));
      ("commands",
       JSON.Arr (mapFrom (fun j command => commandObject (keys j) command) 0
                   (commands module))) ].

(** [keys i j] is the key order of the [j]-th command of the [i]-th
    module. *)
Definition blueprintObject (keys : nat -> nat -> list CommandKey)
  (state : AddonState) : JSON.value :=
  JSON.Obj
    [ ("meta", metaObject (meta state));
      ("modules",
       JSON.Arr (mapFrom (fun i module => blueprintModule (keys i) module) 0
                   (modules state))) ].

Definition createBlueprintJSON (keys : nat -> nat -> list CommandKey)
  (state : AddonState) : string :=
  JSON.stringify2 (blueprintObject keys state).

(** ** The workspace ([src/components/AddonWorkspace.tsx]) *)

Module Workspace.

Inductive PreviewTab : Type := TabBlueprint | TabUplugin | TabCpp.

(** [module.id === selectedModuleId]: no id equals [null]. *)
Definition isSelected (selected : option string) (id : string) : bool :=
  match selected with
  | Some i => id =? i
  | None => false
  end.

(** [a ?? b] on optional values. *)
Definition orElseOpt {A : Type} (a b : option A) : option A :=
  match a with
  | Some _ => a
  | None => b
  end.

(** The module the workspace shows. *)
Definition selectedModule (s : AddonState) : option AddonModule :=
  orElseOpt
    (find (fun module => isSelected (selectedModuleId s) (mod_id module)) (modules s))
    (hd_error (modules s)).

(** The node the workspace shows. *)
Definition selectedNode (s : AddonState) : option BlueprintNode :=
  match selectedModule s with
  | Some module =>
      orElseOpt
        (find (fun node => isSelected (selectedNodeId s) (node_id node)) (nodes module))
        (hd_error (nodes module))
  | None => None
  end.

(** The condition of the effect, [!selectedModule && modules[0]], under
    which it calls [selectModule (modules[0].id)]. *)
Definition autoSelect (s : AddonState) : option Action :=
  match selectedModule s, hd_error (modules s) with
  | None, Some first => Some (SelectModule (Some (mod_id first)))
  | _, _ => None
  end.

(** [keys] is the key order of the command objects of [exportState], which
    [createBlueprintJSON] writes as they are. *)
Definition previewContent (keys : nat -> nat -> list CommandKey)
  (previewTab : PreviewTab) (exportState : AddonState) : string :=
  match previewTab with
  | TabUplugin => createUPluginDescriptor exportState
  | TabCpp => createCppScaffold exportState
  | _ => createBlueprintJSON keys exportState
  end.

(** [handleDownload]: the file name and the content handed to
    [downloadText]. *)
Definition handleDownload (keys : nat -> nat -> list CommandKey)
  (previewTab : PreviewTab) (exportState : AddonState) : string * string :=
  match previewTab with
  | TabBlueprint =>
      (identifier (meta exportState) ++ ".json",
       createBlueprintJSON keys exportState)
  | TabUplugin =>
      (identifier (meta exportState) ++ ".uplugin",
       createUPluginDescriptor exportState)
  | _ => (identifier (meta exportState) ++ ".h", createCppScaffold exportState)
  end.

(** The dependencies field: what it shows and what it stores on a change. *)
Definition dependenciesValue (module : AddonModule) : string :=
  Js.join ", " (dependencies module).

Definition dependenciesOfInput (value : string) : list string :=
  filter Js.truthy (map Js.trim (Js.split "," value)).

(** The patches the form fields send. *)
Definition modulePatch (name : option string) (target : option ModuleTarget)
  (description : option string) (deps : option (list string)) : ModulePatch :=
  {| mp_id := None; mp_name := name; mp_target := target;
     mp_description := description; mp_dependencies := deps;
     mp_nodes := None; mp_commands := None |}.

Definition nodePatch (title category description body : option string) : NodePatch :=
  {| np_id := None; np_title := title; np_category := category;
     np_description := description; np_inputs := None; np_outputs := None;
     np_body := body |}.

Definition parameterPatch (name : option string) (kind : option ParameterKind)
  (description defaultValue : option string) (isArray : option bool)
  : ParameterPatch :=
  {| pp_id := None; pp_name := name; pp_kind := kind;
     pp_defaultValue := defaultValue; pp_description := description;
     pp_isArray := isArray |}.

Definition commandPatch (name hotkey context description script : option string)
  : CommandPatch :=
  {| cp_id := None; cp_name := name; cp_context := context;
     cp_hotkey := hotkey; cp_description := description; cp_script := script |}.

(** A patch of one field, as every [onChange] handler sends it. *)
Inductive ModuleEdit : Type :=
| EditModuleDescription (value : string)
| EditModuleName (value : string)
| EditModuleTarget (value : ModuleTarget)
| EditModuleDependencies (value : string).

Definition moduleEditPatch (e : ModuleEdit) : ModulePatch :=
  match e with
  | EditModuleDescription v => modulePatch None None (Some v) None
  | EditModuleName v => modulePatch (Some v) None None None
  | EditModuleTarget v => modulePatch None (Some v) None None
  | EditModuleDependencies v =>
      modulePatch None None None (Some (dependenciesOfInput v))
  end.

Inductive NodeEdit : Type :=
| EditNodeTitle (value : string)
| EditNodeCategory (value : string)
| EditNodeDescription (value : string)
| EditNodeBody (value : string).

Definition nodeEditPatch (e : NodeEdit) : NodePatch :=
  match e with
  | EditNodeTitle v => nodePatch (Some v) None None None
  | EditNodeCategory v => nodePatch None (Some v) None None
  | EditNodeDescription v => nodePatch None None (Some v) None
  | EditNodeBody v => nodePatch None None None (Some v)
  end.

Inductive ParameterEdit : Type :=
| EditParameterName (value : string)
| EditParameterKind (value : ParameterKind)
| EditParameterDescription (value : string)
| EditParameterDefault (value : string)
| EditParameterArray (checked : bool).

Definition parameterEditPatch (e : ParameterEdit) : ParameterPatch :=
  match e with
  | EditParameterName v => parameterPatch (Some v) None None None None
  | EditParameterKind v => parameterPatch None (Some v) None None None
  | EditParameterDescription v => parameterPatch None None (Some v) None None
  | EditParameterDefault v => parameterPatch None None None (Some v) None
  | EditParameterArray b => parameterPatch None None None None (Some b)
  end.

Inductive CommandEdit : Type :=
| EditCommandName (value : string)
| EditCommandHotkey (value : string)
| EditCommandContext (value : string)
| EditCommandDescription (value : string)
| EditCommandScript (value : string).

Definition commandEditPatch (e : CommandEdit) : CommandPatch :=
  match e with
  | EditCommandName v => commandPatch (Some v) None None None None
  | EditCommandHotkey v => commandPatch None (Some v) None None None
  | EditCommandContext v => commandPatch None None (Some v) None None
  | EditCommandDescription v => commandPatch None None None (Some v) None
  | EditCommandScript v => commandPatch None None None None (Some v)
  end.

(** The store calls the workspace makes while it shows the model [s]: one
    constructor for each handler of the component. *)
Inductive Offers (s : AddonState) : Action -> Prop :=
| offer_reset : Offers s Reset
| offer_updateMeta (u : MetaUpdate) : Offers s (UpdateMeta u)
| offer_addModule : Offers s AddModule
| offer_selectModule (module : AddonModule) :
    In module (modules s) -> Offers s (SelectModule (Some (mod_id module)))
| offer_cloneModule (module : AddonModule) :
    In module (modules s) -> Offers s (CloneModule (mod_id module))
| offer_removeModule (module : AddonModule) :
    In module (modules s) -> Offers s (RemoveModule (mod_id module))
| offer_updateModule (module : AddonModule) (e : ModuleEdit) :
    In module (modules s) ->
    Offers s (UpdateModule (mod_id module) (moduleEditPatch e))
| offer_addNode (module : AddonModule) :
    selectedModule s = Some module -> Offers s (AddNode (mod_id module))
| offer_selectNode (module : AddonModule) (node : BlueprintNode) :
    selectedModule s = Some module -> In node (nodes module) ->
    Offers s (SelectNode (Some (node_id node)))
| offer_updateNode (module : AddonModule) (node : BlueprintNode) (e : NodeEdit) :
    selectedModule s = Some module -> selectedNode s = Some node ->
    Offers s (UpdateNode (mod_id module) (node_id node) (nodeEditPatch e))
| offer_removeNode (module : AddonModule) (node : BlueprintNode) :
    selectedModule s = Some module -> selectedNode s = Some node ->
    Offers s (RemoveNode (mod_id module) (node_id node))
| offer_addParameter (module : AddonModule) (node : BlueprintNode)
    (placement : Placement) :
    selectedModule s = Some module -> selectedNode s = Some node ->
    Offers s (AddParameter (mod_id module) (node_id node) placement)
| offer_updateParameter (module : AddonModule) (node : BlueprintNode)
    (placement : Placement) (param : BlueprintParameter) (e : ParameterEdit) :
    selectedModule s = Some module -> selectedNode s = Some node ->
    In param (placed placement node) ->
    Offers s (UpdateParameter (mod_id module) (node_id node) placement
                (param_id param) (parameterEditPatch e))
| offer_removeParameter (module : AddonModule) (node : BlueprintNode)
    (placement : Placement) (param : BlueprintParameter) :
    selectedModule s = Some module -> selectedNode s = Some node ->
    In param (placed placement node) ->
    Offers s (RemoveParameter (mod_id module) (node_id node) placement
                (param_id param))
| offer_addCommand (module : AddonModule) :
    selectedModule s = Some module -> Offers s (AddCommand (mod_id module))
| offer_updateCommand (module : AddonModule) (command : CommandBinding)
    (e : CommandEdit) :
    selectedModule s = Some module -> In command (commands module) ->
    Offers s (UpdateCommand (mod_id module) (cmd_id command) (commandEditPatch e))
| offer_removeCommand (module : AddonModule) (command : CommandBinding) :
    selectedModule s = Some module -> In command (commands module) ->
    Offers s (RemoveCommand (mod_id module) (cmd_id command))
| offer_autoSelect (a : Action) : autoSelect s = Some a -> Offers s a.

End Workspace.

(** ** Vocabulary of further properties *)

(** The operations that create an entity. *)
Definition creates (a : Action) : bool :=
  match a with
  | AddModule | CloneModule _ | AddNode _ | AddParameter _ _ _ | AddCommand _ => true
  | _ => false
  end.

(** The operations that write the meta data. *)
Definition writesMeta (a : Action) : bool :=
  match a with
  | UpdateMeta _ | Reset => true
  | _ => false
  end.

(** The operations that derive the selection from the modules they leave,
    in the model they are applied to. *)
Definition rederives (a : Action) (s : AddonState) : bool :=
  match a with
  | SelectModule _ | AddModule | RemoveModule _ | RemoveNode _ _ | Reset => true
  | CloneModule id => hasModule id s
  | AddNode moduleId => hasModule moduleId s
  | _ => false
  end.

(** The operations on nodes, parameters, commands and the selection. *)
Definition belowModules (a : Action) : bool :=
  match a with
  | SelectModule _ | SelectNode _
  | AddNode _ | UpdateNode _ _ _ | RemoveNode _ _
  | AddParameter _ _ _ | UpdateParameter _ _ _ _ _ | RemoveParameter _ _ _ _
  | AddCommand _ | UpdateCommand _ _ _ | RemoveCommand _ _ => true
  | _ => false
  end.

(** The command [addCommand] appends, under the id it draws. *)
Definition newCommand (i : string) : CommandBinding :=
  {| cmd_id := i; cmd_name := "NewCommand"; context := "LevelEditor";
     hotkey := "Ctrl+Shift+N"; cmd_description := "Executes a custom command.";
     script := "// Script body" |}.

(** The parameter [addParameter] appends, under the id it draws. *)
Definition newParameter (placement : Placement) (i : string) : BlueprintParameter :=
  {| param_id := i;
     param_name := match placement with
                   | Inputs => "InputParam"
                   | Outputs => "OutputParam"
                   end;
     kind := KString; defaultValue := None; param_description := None;
     isArray := None |}.

(** A model whose selection points nowhere. *)
Definition strayState (uuid : nat -> string) : AddonState :=
  selectNode (Some "ghost") (defaultState uuid).

(** The node a node id resolves to in a module: the first with that id. *)
Definition findNode (nodeId : string) (md : AddonModule) : option BlueprintNode :=
  find (fun node => node_id node =? nodeId) (nodes md).

(** The operations that append a module. *)
Definition appendsModule (a : Action) : bool :=
  match a with
  | AddModule | CloneModule _ => true
  | _ => false
  end.

(** The modules of [addCommand] and of [addParameter], with the draw of
    each callback made explicit. *)
Definition commandStep (uuid : nat -> string) (md : AddonModule) : Gen AddonModule :=
  fun m => (withCommands md (commands md ++ [newCommand (uuid m)]), S m).

Definition parameterStep (uuid : nat -> string) (placement : Placement) (node : BlueprintNode)
  : Gen BlueprintNode :=
  fun m =>
    (withPlaced placement node
       (placed placement node ++ [newParameter placement (uuid m)]), S m).

Definition nodesStep (uuid : nat -> string) (nodeId : string) (placement : Placement) (md : AddonModule)
  : Gen AddonModule :=
  ns <- mapM (fun node =>
                if node_id node =? nodeId
                then parameterStep uuid placement node
                else ret node)
             (nodes md) ;;
  ret (withNodes md ns).

(** The operations that neither create nor remove an entity and whose
    patch, if any, sets neither an id nor a list of nested entities. *)
Definition editsInPlace (a : Action) : bool :=
  match a with
  | UpdateMeta _ | SelectModule _ | SelectNode _ => true
  | UpdateModule _ _ | UpdateNode _ _ _ | UpdateParameter _ _ _ _ _
  | UpdateCommand _ _ _ => keepsIds a
  | _ => false
  end.

(** The scaffold of a model without nodes and commands. *)
Definition emptyScaffold (identifier : string) : string :=
  "#pragma once" ++ nl
    ++ nl
    ++ "#include " ++ dq ++ "CoreMinimal.h" ++ dq ++ nl
    ++ "#include " ++ dq ++ "Kismet/BlueprintFunctionLibrary.h" ++ dq ++ nl
    ++ nl
    ++ "class " ++ identifier ++ "Library : public UBlueprintFunctionLibrary" ++ nl
    ++ "{" ++ nl
    ++ "    GENERATED_BODY()" ++ nl
    ++ nl
    ++ "public:" ++ nl
    ++ "    " ++ nl
    ++ "};" ++ nl
    ++ nl
    ++ "// Editor Command Bindings" ++ nl
    ++ "void Register" ++ identifier
    ++ "Commands(const TSharedRef<FUICommandList>& CommandList)" ++ nl
    ++ "{" ++ nl
    ++ "    " ++ nl
    ++ "}".

Definition newline : ascii := ascii_of_nat 10.

(** A module without the ids of its parameters. *)
Definition withoutParameterIds (md : AddonModule) : AddonModule :=
  withNodes md
    (map (fun node =>
            {| node_id := node_id node; node_title := node_title node;
               node_category := node_category node;
               node_description := node_description node;
               inputs := map anonParameter (inputs node);
               outputs := map anonParameter (outputs node);
               body := body node |})
         (nodes md)).

(** A dependency name that the dependencies field gives back as it is. *)
Definition cleanDependency (d : string) : bool :=
  (Js.trim d =? d) && Js.truthy d && Nat.eqb (Js.count "," d) 0.

(** The specification document as text: two spaces of indentation per
    level. *)
Definition boolText (b : bool) : string := if b then "true" else "false".

Definition parameterText (param : BlueprintParameter) : string :=
  "{" ++ nl
    ++ "              " ++ quoted "name" ++ ": " ++ JSON.quote (param_name param)
    ++ "," ++ nl
    ++ "              " ++ quoted "type" ++ ": "
    ++ JSON.quote (kindText (kind param)) ++ "," ++ nl
    ++ "              " ++ quoted "isArray" ++ ": "
    ++ boolText match isArray param with
                | Some b => b
                | None => false
                end ++ "," ++ nl
    ++ "              " ++ quoted "defaultValue" ++ ": "
    ++ match defaultValue param with
       | Some v => JSON.quote v
       | None => "null"
       end ++ "," ++ nl
    ++ "              " ++ quoted "description" ++ ": "
    ++ JSON.quote match param_description param with
                  | Some v => v
                  | None => ""
                  end ++ nl
    ++ "            }".

Definition nodeText (node : BlueprintNode) : string :=
  "{" ++ nl
    ++ "          " ++ quoted "id" ++ ": " ++ JSON.quote (node_id node) ++ "," ++ nl
    ++ "          " ++ quoted "title" ++ ": " ++ JSON.quote (node_title node)
    ++ "," ++ nl
    ++ "          " ++ quoted "category" ++ ": " ++ JSON.quote (node_category node)
    ++ "," ++ nl
    ++ "          " ++ quoted "description" ++ ": "
    ++ JSON.quote (node_description node) ++ "," ++ nl
    ++ "          " ++ quoted "inputs" ++ ": "
    ++ arrayText "          " (map parameterText (inputs node)) ++ "," ++ nl
    ++ "          " ++ quoted "outputs" ++ ": "
    ++ arrayText "          " (map parameterText (outputs node)) ++ "," ++ nl
    ++ "          " ++ quoted "body" ++ ": " ++ JSON.quote (body node) ++ nl
    ++ "        }".

(** A command object as text, its keys in the order [keys]. *)
Definition commandText (keys : list CommandKey) (command : CommandBinding) : string :=
  match keys with
  | [] => "{}"
  | _ =>
      "{" ++ nl
        ++ Js.join ("," ++ nl)
             (map (fun k =>
                     "          " ++ quoted (commandKeyName k) ++ ": "
                       ++ JSON.quote (commandField k command))
                  keys)
        ++ nl ++ "        }"
  end.

(** The same for a command with the keys in the order of the store. *)
Definition storeCommandText (command : CommandBinding) : string :=
  "{" ++ nl
    ++ "          " ++ quoted "id" ++ ": " ++ JSON.quote (cmd_id command) ++ "," ++ nl
    ++ "          " ++ quoted "name" ++ ": " ++ JSON.quote (cmd_name command)
    ++ "," ++ nl
    ++ "          " ++ quoted "context" ++ ": " ++ JSON.quote (context command)
    ++ "," ++ nl
    ++ "          " ++ quoted "hotkey" ++ ": " ++ JSON.quote (hotkey command)
    ++ "," ++ nl
    ++ "          " ++ quoted "description" ++ ": "
    ++ JSON.quote (cmd_description command) ++ "," ++ nl
    ++ "          " ++ quoted "script" ++ ": " ++ JSON.quote (script command) ++ nl
    ++ "        }".

Definition moduleText (keys : nat -> list CommandKey) (md : AddonModule) : string :=
  "{" ++ nl
    ++ "      " ++ quoted "id" ++ ": " ++ JSON.quote (mod_id md) ++ "," ++ nl
    ++ "      " ++ quoted "name" ++ ": " ++ JSON.quote (mod_name md) ++ "," ++ nl
    ++ "      " ++ quoted "target" ++ ": " ++ JSON.quote (targetText (target md))
    ++ "," ++ nl
    ++ "      " ++ quoted "description" ++ ": " ++ JSON.quote (mod_description md)
    ++ "," ++ nl
    ++ "      " ++ quoted "dependencies" ++ ": "
    ++ arrayText "      " (map JSON.quote (dependencies md)) ++ "," ++ nl
    ++ "      " ++ quoted "nodes" ++ ": "
    ++ arrayText "      " (map nodeText (nodes md)) ++ "," ++ nl
    ++ "      " ++ quoted "commands" ++ ": "
    ++ arrayText "      "
         (mapFrom (fun j command => commandText (keys j) command) 0 (commands md))
    ++ nl
    ++ "    }".

Definition metaText (m : AddonMeta) : string :=
  "{" ++ nl
    ++ "    " ++ quoted "title" ++ ": " ++ JSON.quote (title m) ++ "," ++ nl
    ++ "    " ++ quoted "identifier" ++ ": " ++ JSON.quote (identifier m) ++ "," ++ nl
    ++ "    " ++ quoted "author" ++ ": " ++ JSON.quote (author m) ++ "," ++ nl
    ++ "    " ++ quoted "version" ++ ": " ++ JSON.quote (version m) ++ "," ++ nl
    ++ "    " ++ quoted "minEngineVersion" ++ ": "
    ++ JSON.quote (minEngineVersion m) ++ "," ++ nl
    ++ "    " ++ quoted "pluginType" ++ ": "
    ++ JSON.quote (pluginTypeText (pluginType m)) ++ "," ++ nl
    ++ "    " ++ quoted "description" ++ ": " ++ JSON.quote (meta_description m) ++ nl
    ++ "  }".

Definition blueprintText (keys : nat -> nat -> list CommandKey) (s : AddonState)
  : string :=
  "{" ++ nl
    ++ "  " ++ quoted "meta" ++ ": " ++ metaText (meta s) ++ "," ++ nl
    ++ "  " ++ quoted "modules" ++ ": "
    ++ arrayText "  " (mapFrom (fun i md => moduleText (keys i) md) 0 (modules s))
    ++ nl
    ++ "}".

(** A key order that writes the script first. *)
Definition scriptFirst : list CommandKey :=
  [KeyScript; KeyId; KeyName; KeyContext; KeyHotkey; KeyDescription].

(** How a store call changes the list of ids of the model, read from the
    left with the counter of draws: an id of the old list is kept or left
    out, the next draw is put in, or the next draw goes unused. *)
Inductive IdEdit (uuid : nat -> string)
  : nat -> list string -> nat -> list string -> Prop :=
| edit_done (n : nat) : IdEdit uuid n [] n []
| edit_keep (n n' : nat) (x : string) (l l' : list string) :
    IdEdit uuid n l n' l' -> IdEdit uuid n (x :: l) n' (x :: l')
| edit_drop (n n' : nat) (x : string) (l l' : list string) :
    IdEdit uuid n l n' l' -> IdEdit uuid n (x :: l) n' l'
| edit_draw (n n' : nat) (l l' : list string) :
    IdEdit uuid (S n) l n' l' -> IdEdit uuid n l n' (uuid n :: l')
| edit_skip (n n' : nat) (l l' : list string) :
    IdEdit uuid (S n) l n' l' -> IdEdit uuid n l n' l'.

(** The operations other than [reset] whose patch, if any, sets neither an
    id nor a list of nested entities. *)
Definition editsIds (a : Action) : bool :=
  match a with
  | Reset => false
  | _ => keepsIds a
  end.

(** ** Vocabulary of the scaffold regions *)

(** The fixed text of the scaffold around its two regions. *)
Definition scaffoldFrame (identifier nodesRegion commandsRegion : string) : string :=
  "#pragma once" ++ nl
    ++ nl
    ++ "#include " ++ dq ++ "CoreMinimal.h" ++ dq ++ nl
    ++ "#include " ++ dq ++ "Kismet/BlueprintFunctionLibrary.h" ++ dq ++ nl
    ++ nl
    ++ "class " ++ identifier ++ "Library : public UBlueprintFunctionLibrary" ++ nl
    ++ "{" ++ nl
    ++ "    GENERATED_BODY()" ++ nl
    ++ nl
    ++ "public:" ++ nl
    ++ nodesRegion ++ nl
    ++ "};" ++ nl
    ++ nl
    ++ "// Editor Command Bindings" ++ nl
    ++ "void Register" ++ identifier
    ++ "Commands(const TSharedRef<FUICommandList>& CommandList)" ++ nl
    ++ "{" ++ nl
    ++ commandsRegion ++ nl
    ++ "}".

(** The block of a node before indentation: the module line and the
    snippet up to the end of the body comment, then the outputs and the
    inputs comment blocks. *)
Definition nodeAbove (md : AddonModule) (node : BlueprintNode) : string :=
  "// Module: " ++ mod_name md ++ nl
    ++ "UFUNCTION(BlueprintCallable, Category = " ++ dq ++ node_category node ++ dq ++ ")" ++ nl
    ++ "static void " ++ node_title node ++ "(" ++ nl
    ++ signatureText node ++ nl
    ++ ");" ++ nl ++ nl
    ++ "// Description: " ++ node_description node ++ nl
    ++ "// Body Example:" ++ nl
    ++ "/*" ++ nl
    ++ body node ++ nl
    ++ "*/".

Definition nodeBlock (md : AddonModule) (node : BlueprintNode) : string :=
  nodeAbove md node ++ nl
    ++ commentBlock "// Outputs:" (Js.orElse (outputsText node) "// void") ++ nl
    ++ commentBlock "// Inputs:" (Js.orElse (inputsText node) "// none").

(** The blocks of the nodes region, module by module. *)
Definition nodeBlocks (state : AddonState) : list string :=
  flat_map (fun md => map (nodeBlock md) (nodes md)) (modules state).

(** The argument of [FInputChord] by the hotkey rule: split on [+], trim
    each token, substitute, join with a comma and a space. *)
Definition chordText (hotkey : string) : string :=
  Js.join ", " (map substituteToken (map Js.trim (Js.split "+" hotkey))).

(** The block of a command before indentation: the lines above the input
    chord, the line of the chord, the lines below it. *)
Definition commandAbove (command : CommandBinding) : string :=
  "// Command: " ++ cmd_name command ++ nl
    ++ "FUICommandInfoDecl(" ++ nl
    ++ "    CommandList," ++ nl
    ++ "    " ++ dq ++ context command ++ dq ++ "," ++ nl
    ++ "    " ++ dq ++ cmd_name command ++ dq ++ "," ++ nl
    ++ "    LOCTEXT(" ++ dq ++ cmd_name command ++ dq ++ ", "
    ++ dq ++ cmd_description command ++ dq ++ "),".

Definition commandBelow (command : CommandBinding) : string :=
  "    FSlateIcon()" ++ nl
    ++ ").ExecuteAction(FExecuteAction::CreateLambda([]()" ++ nl
    ++ "{" ++ nl
    ++ "    " ++ script command ++ nl
    ++ "}));".

Definition commandBlock (command : CommandBinding) : string :=
  commandAbove command ++ nl
    ++ "    FInputChord(" ++ chordText (hotkey command) ++ ")," ++ nl
    ++ commandBelow command.

(** The blocks of the bindings region, in the order of the modules. *)
Definition commandBlocks (state : AddonState) : list string :=
  map commandBlock (flat_map commands (modules state)).

(** A run of entries of a table, one after another. *)
Inductive RunOf (table : list string) : string -> Prop :=
| run_empty : RunOf table ""
| run_more (w s : string) : In w table -> RunOf table s -> RunOf table (w ++ s).

(** Whether a string starts or ends with a white space character. *)
Definition startsBlank (s : string) : bool :=
  existsb (fun w => String.prefix w s) Js.whitespace.

Definition endsBlank (s : string) : bool :=
  existsb (fun w => String.prefix (Js.rev w) (Js.rev s)) Js.whitespace.

(** A model whose one module holds the node without parameters and the
    sample command. *)
Definition sampleState (uuid : nat -> string) : AddonState :=
  withModules (defaultState uuid)
    [ {| mod_id := "m"; mod_name := "Sample"; target := Editor;
         mod_description := ""; dependencies := [];
         nodes := [bareNode]; commands := [sampleCommand] |} ].

(** ** Facts about strings *)

Lemma append_assoc (a b c : string) : (a ++ b) ++ c = a ++ b ++ c.
Proof.
  induction a as [|x a IH]; simpl; [reflexivity|].
  now rewrite IH.
Qed.

Lemma append_empty_r (a : string) : a ++ "" = a.
Proof.
  induction a as [|x a IH]; simpl; [reflexivity|].
  now rewrite IH.
Qed.

(** Indenting behind every separator is indenting every item. *)
Lemma join_indent (indent sep : string) (items : list string) :
  items <> [] ->
  indent ++ Js.join (sep ++ indent) items
  = Js.join sep (map (fun item => indent ++ item) items).
Proof.
  unfold Js.join.
  induction items as [|x [|y rest] IH]; intros Hne.
  - now destruct Hne.
  - reflexivity.
  - change (concat (sep ++ indent) (x :: y :: rest))
      with (x ++ (sep ++ indent) ++ concat (sep ++ indent) (y :: rest)).
    change (concat sep (map (fun item => indent ++ item) (x :: y :: rest)))
      with ((indent ++ x) ++ sep
              ++ concat sep (map (fun item => indent ++ item) (y :: rest))).
    rewrite <- IH by discriminate.
    now rewrite !append_assoc.
Qed.

(** ** The descriptor *)

Lemma serialize_array (indent : string) (items : list JSON.value) :
  JSON.serialize "  " indent (JSON.Arr items)
  = arrayText indent (map (JSON.serialize "  " (indent ++ "  ")) items).
Proof.
  destruct items as [|v items]; [reflexivity|].
  set (rendered := map (JSON.serialize "  " (indent ++ "  ")) (v :: items)).
  assert (Hne : rendered <> []) by discriminate.
  change (JSON.serialize "  " indent (JSON.Arr (v :: items)))
    with ("[" ++ nl ++ (indent ++ "  ")
            ++ Js.join (("," ++ nl) ++ indent ++ "  ") rendered
            ++ nl ++ indent ++ "]").
  change (arrayText indent rendered)
    with ("[" ++ nl
            ++ Js.join ("," ++ nl) (map (fun item => indent ++ "  " ++ item) rendered)
            ++ nl ++ indent ++ "]").
  rewrite <- (append_assoc (indent ++ "  ")).
  rewrite (join_indent (indent ++ "  ") ("," ++ nl) rendered Hne).
  do 4 f_equal.
  apply map_ext; intros item; apply append_assoc.
Qed.

Lemma serialize_strings (indent : string) (l : list string) :
  JSON.serialize "  " indent (JSON.Arr (map JSON.Str l))
  = arrayText indent (map JSON.quote l).
Proof.
  rewrite serialize_array, map_map.
  reflexivity.
Qed.

Lemma serialize_object (indent : string) (p : string * JSON.value)
  (ps : list (string * JSON.value)) :
  JSON.serialize "  " indent (JSON.Obj (p :: ps))
  = "{" ++ nl ++ (indent ++ "  ")
      ++ Js.join ("," ++ nl ++ indent ++ "  ")
           (map (fun kv =>
                   JSON.quote (fst kv) ++ ": "
                     ++ JSON.serialize "  " (indent ++ "  ") (snd kv))
                (p :: ps))
      ++ nl ++ indent ++ "}".
Proof. reflexivity. Qed.

Lemma serialize_descriptorModule (md : AddonModule) :
  JSON.serialize "  " "    " (descriptorModule md) = descriptorModuleText md.
Proof.
  unfold descriptorModule, descriptorModuleText.
  assert (Htarget : JSON.quote (targetText (target md)) = quoted (targetText (target md)))
    by (destruct (target md); reflexivity).
  rewrite <- Htarget.
  rewrite <- (serialize_strings "      " (dependencies md)).
  rewrite serialize_object.
  cbn [map fst snd].
  change ("    " ++ "  ") with "      ".
  generalize (JSON.serialize "  " "      " (JSON.Arr (map JSON.Str (dependencies md)))).
  intros deps.
  unfold Js.join, JSON.quote, quoted; cbn [JSON.serialize concat].
  unfold JSON.quote.
  rewrite !append_assoc.
  reflexivity.
Qed.

(** C5. For every model the descriptor renderer returns the JSON text with
    two spaces of indentation per level and the fields FileVersion (3),
    Version (1), VersionName, FriendlyName, EngineVersion, Description,
    Category ("Editor"), CreatedBy, CreatedByURL (the fixed URL) and Modules,
    in this order, with one entry per module of Name, Type, LoadingPhase
    ("Default") and AdditionalDependencies. *)
Theorem createUPluginDescriptor_text (state : AddonState) :
  createUPluginDescriptor state = descriptorText state.
Proof.
  unfold createUPluginDescriptor, JSON.stringify2, descriptorObject, descriptorText.
  assert (Hmods :
            JSON.serialize "  " "  " (JSON.Arr (map descriptorModule (modules state)))
            = arrayText "  " (map descriptorModuleText (modules state))).
  { rewrite serialize_array, map_map.
    f_equal.
    apply map_ext; intros md; apply serialize_descriptorModule. }
  rewrite <- Hmods; clear Hmods.
  rewrite serialize_object.
  cbn [map fst snd].
  change ("" ++ "  ") with "  ".
  generalize (JSON.serialize "  " "  " (JSON.Arr (map descriptorModule (modules state)))).
  intros mods.
  unfold Js.join, JSON.quote, quoted; cbn [JSON.serialize concat].
  unfold JSON.quote.
  rewrite !append_assoc.
  reflexivity.
Qed.

(** ** The scaffold *)

Lemma join_cons_truthy (sep : string) (c : ascii) (x : string) (l : list string) :
  Js.truthy (Js.join sep (String c x :: l)) = true.
Proof. destruct l; reflexivity. Qed.

Lemma outputsText_nonempty (node : BlueprintNode) :
  outputs node <> [] ->
  Js.orElse (outputsText node) "// void" = outputsText node.
Proof.
  unfold outputsText, Js.orElse.
  destruct (outputs node) as [|param params]; [intros H; now destruct H|].
  intros _. cbn [map].
  change ("  " ++ kindText (kind param) ++ " " ++ param_name param
            ++ match isArray param with Some true => "[]" | _ => "" end ++ ";")
    with (String " " (" " ++ kindText (kind param) ++ " " ++ param_name param
            ++ match isArray param with Some true => "[]" | _ => "" end ++ ";")).
  now rewrite join_cons_truthy.
Qed.

Lemma inputsText_nonempty (node : BlueprintNode) :
  inputs node <> [] ->
  Js.orElse (inputsText node) "// none" = inputsText node.
Proof.
  unfold inputsText, Js.orElse.
  destruct (inputs node) as [|param params]; [intros H; now destruct H|].
  intros _. cbn [map].
  change ("  " ++ kindText (kind param) ++ " " ++ param_name param ++ ";")
    with (String " " (" " ++ kindText (kind param) ++ " " ++ param_name param ++ ";")).
  now rewrite join_cons_truthy.
Qed.

Lemma createBlueprintNodeSnippet_blocks (node : BlueprintNode) :
  createBlueprintNodeSnippet node
  = snippetThroughBody node
      ++ commentBlock "// Outputs:" (Js.orElse (outputsText node) "// void") ++ nl
      ++ commentBlock "// Inputs:" (Js.orElse (inputsText node) "// none").
Proof.
  unfold createBlueprintNodeSnippet, snippetThroughBody, commentBlock.
  rewrite !append_assoc.
  reflexivity.
Qed.

Lemma replace_absent (pat rep s : string) :
  Js.includes pat s = false -> Js.replace pat rep s = s.
Proof.
  induction s as [|c s IH]; intros Habsent.
  - cbn [Js.includes] in Habsent. cbn [Js.replace].
    apply orb_false_iff in Habsent as [Hprefix _].
    now rewrite Hprefix.
  - cbn [Js.includes] in Habsent. cbn [Js.replace].
    apply orb_false_iff in Habsent as [Hprefix Hrest].
    rewrite Hprefix. now rewrite IH.
Qed.

Lemma split_length (sep : ascii) (s : string) :
  List.length (Js.split sep s) = S (Js.count sep s).
Proof.
  induction s as [|c s IH]; [reflexivity|].
  cbn [Js.split Js.count].
  destruct (Ascii.eqb c sep).
  - cbn [List.length]. now rewrite IH.
  - destruct (Js.split sep s) as [|t ts]; [discriminate|].
    cbn [List.length] in *. now rewrite IH.
Qed.

Lemma createCommandSnippet_chord (command : CommandBinding) :
  createCommandSnippet command
  = bindingLead command
      ++ "FInputChord(" ++ inputChord (hotkey command) ++ ")" ++ bindingRest command.
Proof.
  unfold createCommandSnippet, bindingLead, bindingRest.
  rewrite !append_assoc.
  reflexivity.
Qed.

(** ** The store: lookups that find nothing *)

Lemma existsb_false_In {A : Type} (f : A -> bool) (l : list A) :
  existsb f l = false -> forall x, In x l -> f x = false.
Proof.
  induction l as [|y l IH]; intros Hnone x Hin; [now destruct Hin|].
  cbn [existsb] in Hnone. apply orb_false_iff in Hnone as [Hy Hl].
  destruct Hin as [<-|Hin]; [assumption|now apply IH].
Qed.

Lemma find_existsb_false {A : Type} (f : A -> bool) (l : list A) :
  existsb f l = false -> find f l = None.
Proof.
  induction l as [|y l IH]; intros Hnone; [reflexivity|].
  cbn [existsb] in Hnone. apply orb_false_iff in Hnone as [Hy Hl].
  cbn [find]. rewrite Hy. now apply IH.
Qed.

Lemma map_fixed {A : Type} (f : A -> bool) (g : A -> A) (l : list A) :
  (forall x, In x l -> f x = true -> g x = x) ->
  map (fun x => if f x then g x else x) l = l.
Proof.
  induction l as [|y l IH]; intros Hfixed; [reflexivity|].
  cbn [map]. rewrite IH by (intros x Hin; apply Hfixed; now right).
  destruct (f y) eqn:Hy; [|reflexivity].
  now rewrite (Hfixed y (or_introl eq_refl) Hy).
Qed.

Lemma mapM_fixed {A : Type} (f : A -> bool) (g : A -> Gen A) (l : list A) (n : nat) :
  (forall x, In x l -> f x = true -> forall k, g x k = (x, k)) ->
  mapM (fun x => if f x then g x else ret x) l n = (l, n).
Proof.
  induction l as [|y l IH]; intros Hfixed; [reflexivity|].
  cbn [mapM]. unfold bind at 1.
  assert (Hy : (if f y then g y else ret y) n = (y, n)).
  { destruct (f y) eqn:Hy; [|reflexivity].
    now apply Hfixed; [left|]. }
  rewrite Hy. unfold bind at 1.
  rewrite IH by (intros x Hin; apply Hfixed; now right).
  reflexivity.
Qed.

Lemma filter_all {A : Type} (f : A -> bool) (l : list A) :
  (forall x, In x l -> f x = true) -> filter f l = l.
Proof.
  induction l as [|y l IH]; intros Hall; [reflexivity|].
  cbn [filter]. rewrite (Hall y (or_introl eq_refl)).
  now rewrite IH by (intros x Hin; apply Hall; now right).
Qed.

Lemma withNodes_same (md : AddonModule) : withNodes md (nodes md) = md.
Proof. now destruct md. Qed.

Lemma withCommands_same (md : AddonModule) : withCommands md (commands md) = md.
Proof. now destruct md. Qed.

Lemma withPlaced_same (placement : Placement) (node : BlueprintNode) :
  withPlaced placement node (placed placement node) = node.
Proof. now destruct node, placement. Qed.

Lemma withModules_same (s : AddonState) : withModules s (modules s) = s.
Proof. now destruct s. Qed.

(** What a missing reference means for the entities that are there. *)
Lemma hasModule_false (moduleId : string) (s : AddonState) :
  hasModule moduleId s = false ->
  forall md, In md (modules s) -> (mod_id md =? moduleId) = false.
Proof. intros Hmissing md Hin. exact (existsb_false_In _ _ Hmissing md Hin). Qed.

Lemma hasNode_false (moduleId nodeId : string) (s : AddonState) :
  hasNode moduleId nodeId s = false ->
  forall md, In md (modules s) -> (mod_id md =? moduleId) = true ->
  forall node, In node (nodes md) -> (node_id node =? nodeId) = false.
Proof.
  intros Hmissing md Hin Hid node Hnode.
  pose proof (existsb_false_In _ _ Hmissing md Hin) as Hmd.
  cbn beta in Hmd. rewrite Hid in Hmd. cbn [andb] in Hmd.
  exact (existsb_false_In _ _ Hmd node Hnode).
Qed.

Lemma hasParameter_false (moduleId nodeId : string) (placement : Placement)
  (paramId : string) (s : AddonState) :
  hasParameter moduleId nodeId placement paramId s = false ->
  forall md, In md (modules s) -> (mod_id md =? moduleId) = true ->
  forall node, In node (nodes md) -> (node_id node =? nodeId) = true ->
  forall param, In param (placed placement node) ->
  (param_id param =? paramId) = false.
Proof.
  intros Hmissing md Hin Hid node Hnode Hnid param Hparam.
  pose proof (existsb_false_In _ _ Hmissing md Hin) as Hmd.
  cbn beta in Hmd. rewrite Hid in Hmd. cbn [andb] in Hmd.
  pose proof (existsb_false_In _ _ Hmd node Hnode) as Hn.
  cbn beta in Hn. rewrite Hnid in Hn. cbn [andb] in Hn.
  exact (existsb_false_In _ _ Hn param Hparam).
Qed.

Lemma hasCommand_false (moduleId commandId : string) (s : AddonState) :
  hasCommand moduleId commandId s = false ->
  forall md, In md (modules s) -> (mod_id md =? moduleId) = true ->
  forall command, In command (commands md) ->
  (cmd_id command =? commandId) = false.
Proof.
  intros Hmissing md Hin Hid command Hcommand.
  pose proof (existsb_false_In _ _ Hmissing md Hin) as Hmd.
  cbn beta in Hmd. rewrite Hid in Hmd. cbn [andb] in Hmd.
  exact (existsb_false_In _ _ Hmd command Hcommand).
Qed.

(** The list of modules an operation on a missing reference computes. *)
Lemma modules_map_missing (moduleId : string) (g : AddonModule -> AddonModule)
  (s : AddonState) :
  hasModule moduleId s = false ->
  map (fun md => if mod_id md =? moduleId then g md else md) (modules s) = modules s.
Proof.
  intros Hmissing. apply map_fixed. intros md Hin Hid.
  now rewrite (hasModule_false _ _ Hmissing md Hin) in Hid.
Qed.

Section MissingReference.

Variable uuid : nat -> string.

Lemma cloneModule_missing (id : string) (s : AddonState) (n : nat) :
  hasModule id s = false -> cloneModule uuid id s n = (s, n).
Proof.
  intros Hmissing. unfold cloneModule, findModule.
  now rewrite (find_existsb_false _ _ Hmissing).
Qed.

Lemma updateModule_missing (id : string) (patch : ModulePatch) (s : AddonState) :
  hasModule id s = false -> updateModule id patch s = s.
Proof.
  intros Hmissing. unfold updateModule.
  rewrite modules_map_missing by assumption. apply withModules_same.
Qed.

Lemma removeModule_missing (id : string) (s : AddonState) :
  hasModule id s = false -> modules (removeModule id s) = modules s.
Proof.
  intros Hmissing. unfold removeModule. cbn [modules withSelection].
  apply filter_all. intros md Hin.
  now rewrite (hasModule_false _ _ Hmissing md Hin).
Qed.

Lemma addNode_missing (moduleId : string) (s : AddonState) (n : nat) :
  hasModule moduleId s = false ->
  modules (fst (addNode uuid moduleId s n)) = modules s.
Proof.
  intros Hmissing. unfold addNode, bind.
  destruct (createNode uuid n) as [node n']. cbn [fst ret modules withSelection].
  now apply modules_map_missing.
Qed.

Lemma updateNode_missing (moduleId nodeId : string) (patch : NodePatch)
  (s : AddonState) :
  hasNode moduleId nodeId s = false -> updateNode moduleId nodeId patch s = s.
Proof.
  intros Hmissing. unfold updateNode.
  rewrite map_fixed; [apply withModules_same|].
  intros md Hin Hid.
  rewrite map_fixed; [apply withNodes_same|].
  intros node Hnode Hnid.
  now rewrite (hasNode_false _ _ _ Hmissing md Hin Hid node Hnode) in Hnid.
Qed.

Lemma removeNode_missing (moduleId nodeId : string) (s : AddonState) :
  hasNode moduleId nodeId s = false ->
  modules (removeNode moduleId nodeId s) = modules s.
Proof.
  intros Hmissing. unfold removeNode. cbn [modules withSelection].
  apply map_fixed. intros md Hin Hid.
  rewrite filter_all; [apply withNodes_same|].
  intros node Hnode.
  now rewrite (hasNode_false _ _ _ Hmissing md Hin Hid node Hnode).
Qed.

Lemma addParameter_missing (moduleId nodeId : string) (placement : Placement)
  (s : AddonState) (n : nat) :
  hasNode moduleId nodeId s = false ->
  addParameter uuid moduleId nodeId placement s n = (s, n).
Proof.
  intros Hmissing. unfold addParameter. unfold bind at 1.
  rewrite mapM_fixed.
  - cbn [ret]. now rewrite withModules_same.
  - intros md Hin Hid k. unfold bind at 1.
    rewrite mapM_fixed.
    + cbn [ret]. now rewrite withNodes_same.
    + intros node Hnode Hnid.
      now rewrite (hasNode_false _ _ _ Hmissing md Hin Hid node Hnode) in Hnid.
Qed.

Lemma updateParameter_missing (moduleId nodeId : string) (placement : Placement)
  (paramId : string) (patch : ParameterPatch) (s : AddonState) :
  hasParameter moduleId nodeId placement paramId s = false ->
  updateParameter moduleId nodeId placement paramId patch s = s.
Proof.
  intros Hmissing. unfold updateParameter.
  rewrite map_fixed; [apply withModules_same|].
  intros md Hin Hid.
  rewrite map_fixed; [apply withNodes_same|].
  intros node Hnode Hnid.
  rewrite map_fixed; [apply withPlaced_same|].
  intros param Hparam Hpid.
  now rewrite (hasParameter_false _ _ _ _ _ Hmissing md Hin Hid node Hnode Hnid
                 param Hparam) in Hpid.
Qed.

Lemma removeParameter_missing (moduleId nodeId : string) (placement : Placement)
  (paramId : string) (s : AddonState) :
  hasParameter moduleId nodeId placement paramId s = false ->
  removeParameter moduleId nodeId placement paramId s = s.
Proof.
  intros Hmissing. unfold removeParameter.
  rewrite map_fixed; [apply withModules_same|].
  intros md Hin Hid.
  rewrite map_fixed; [apply withNodes_same|].
  intros node Hnode Hnid.
  rewrite filter_all; [apply withPlaced_same|].
  intros param Hparam.
  now rewrite (hasParameter_false _ _ _ _ _ Hmissing md Hin Hid node Hnode Hnid
                 param Hparam).
Qed.

Lemma addCommand_missing (moduleId : string) (s : AddonState) (n : nat) :
  hasModule moduleId s = false -> addCommand uuid moduleId s n = (s, n).
Proof.
  intros Hmissing. unfold addCommand. unfold bind at 1.
  rewrite mapM_fixed.
  - cbn [ret]. now rewrite withModules_same.
  - intros md Hin Hid.
    now rewrite (hasModule_false _ _ Hmissing md Hin) in Hid.
Qed.

Lemma updateCommand_missing (moduleId commandId : string) (patch : CommandPatch)
  (s : AddonState) :
  hasCommand moduleId commandId s = false ->
  updateCommand moduleId commandId patch s = s.
Proof.
  intros Hmissing. unfold updateCommand.
  rewrite map_fixed; [apply withModules_same|].
  intros md Hin Hid.
  rewrite map_fixed; [apply withCommands_same|].
  intros command Hcommand Hcid.
  now rewrite (hasCommand_false _ _ _ Hmissing md Hin Hid command Hcommand) in Hcid.
Qed.

Lemma removeCommand_missing (moduleId commandId : string) (s : AddonState) :
  hasCommand moduleId commandId s = false ->
  removeCommand moduleId commandId s = s.
Proof.
  intros Hmissing. unfold removeCommand.
  rewrite map_fixed; [apply withModules_same|].
  intros md Hin Hid.
  rewrite filter_all; [apply withCommands_same|].
  intros command Hcommand.
  now rewrite (hasCommand_false _ _ _ Hmissing md Hin Hid command Hcommand).
Qed.

(** C1, as amended.  An operation whose id argument references nothing
    never fails and leaves the modules list and the meta data as they were;
    cloneModule, updateModule, updateNode, the parameter operations and the
    command operations return the whole model unchanged, selection
    included. *)
Theorem unknown_id_keeps_model (a : Action) (st : Store) :
  targetMissing a (model st) = true ->
  modules (model (dispatch uuid a st)) = modules (model st)
  /\ meta (model (dispatch uuid a st)) = meta (model st)
  /\ (leavesSelection a = true -> model (dispatch uuid a st) = model st).
Proof.
  destruct st as [s n]. cbn [model draws].
  destruct a as [u|[id|]|[id|]| |id|id patch|id|moduleId|moduleId nodeId patch
                |moduleId nodeId|moduleId nodeId placement
                |moduleId nodeId placement paramId patch
                |moduleId nodeId placement paramId|moduleId
                |moduleId commandId patch|moduleId commandId| ];
    cbn [targetMissing leavesSelection]; intros Hmissing;
    try discriminate Hmissing;
    apply negb_true_iff in Hmissing;
    unfold dispatch; cbn [perform model draws ret].
  - repeat split; discriminate.
  - repeat split; discriminate.
  - rewrite cloneModule_missing by assumption. now repeat split.
  - rewrite updateModule_missing by assumption. now repeat split.
  - cbn [model]. rewrite removeModule_missing by assumption.
    repeat split; discriminate.
  - pose proof (addNode_missing moduleId s n Hmissing) as Hmodules.
    unfold addNode, bind in *.
    destruct (createNode uuid n) as [node n']. cbn [fst ret model] in *.
    repeat split; [assumption|discriminate].
  - rewrite updateNode_missing by assumption. now repeat split.
  - cbn [model]. rewrite removeNode_missing by assumption.
    repeat split; discriminate.
  - rewrite addParameter_missing by assumption. now repeat split.
  - rewrite updateParameter_missing by assumption. now repeat split.
  - rewrite removeParameter_missing by assumption. now repeat split.
  - rewrite addCommand_missing by assumption. now repeat split.
  - rewrite updateCommand_missing by assumption. now repeat split.
  - rewrite removeCommand_missing by assumption. now repeat split.
Qed.

End MissingReference.

Lemma unknown_id_keeps_model_witness :
  targetMissing (UpdateNode "uuid-0" "ghost" (titlePatch "Renamed"))
    (model (initialStore demoUUID)) = true
  /\ model (dispatch demoUUID (UpdateNode "uuid-0" "ghost" (titlePatch "Renamed"))
              (initialStore demoUUID))
     = model (initialStore demoUUID).
Proof.
  split; [reflexivity|].
  apply (unknown_id_keeps_model demoUUID
           (UpdateNode "uuid-0" "ghost" (titlePatch "Renamed"))
           (initialStore demoUUID));
    reflexivity.
Defined.

(** C1, as stated, fails: [addNode] on a module id that is not in the model
    rewrites the selection. *)
Lemma addNode_unknown_id_changes_model :
  targetMissing (AddNode "missing") (model (initialStore demoUUID)) = true
  /\ model (dispatch demoUUID (AddNode "missing") (initialStore demoUUID))
     <> model (initialStore demoUUID).
Proof.
  split; [reflexivity|].
  intros Hsame. apply (f_equal selectedModuleId) in Hsame.
  vm_compute in Hsame. discriminate Hsame.
Qed.

(** C9. [selectModule] on a non-null id that matches no module still
    selects that id, clears the node selection and leaves the modules list
    and the meta data as they were. *)
Theorem selectModule_unknown_id (s : AddonState) (i : string) :
  hasModule i s = false ->
  selectedModuleId (selectModule (Some i) s) = Some i
  /\ selectedNodeId (selectModule (Some i) s) = None
  /\ modules (selectModule (Some i) s) = modules s
  /\ meta (selectModule (Some i) s) = meta s.
Proof.
  intros Hmissing. unfold selectModule, findModule.
  rewrite (find_existsb_false _ _ Hmissing).
  cbn [selectedModuleId selectedNodeId modules meta withSelection firstNodeId].
  now destruct (Js.truthy i).
Qed.

Lemma selectModule_unknown_id_witness :
  hasModule "missing" (defaultState demoUUID) = false
  /\ selectedModuleId (selectModule (Some "missing") (defaultState demoUUID))
     = Some "missing"
  /\ selectedNodeId (selectModule (Some "missing") (defaultState demoUUID)) = None.
Proof.
  split; [reflexivity|].
  destruct (selectModule_unknown_id (defaultState demoUUID) "missing" eq_refl)
    as (Hmodule & Hnode & _).
  exact (conj Hmodule Hnode).
Defined.

(** C10. The model at startup and the model after every [reset] is the one
    default state: its selection is null although it holds one module with
    one node, and its entity ids are the five drawn when the program was
    loaded; [reset] draws no identifier. *)
Theorem reset_restores_default (uuid : nat -> string) (st : Store) :
  model (initialStore uuid) = defaultState uuid
  /\ model (dispatch uuid Reset st) = defaultState uuid
  /\ draws (dispatch uuid Reset st) = draws st
  /\ selectedModuleId (defaultState uuid) = None
  /\ selectedNodeId (defaultState uuid) = None
  /\ (exists md node, modules (defaultState uuid) = [md] /\ nodes md = [node])
  /\ stateIds (defaultState uuid) = map uuid [0; 1; 2; 3; 4].
Proof.
  repeat split.
  eexists _, _. split; reflexivity.
Qed.

(** C8. Two calls of [reset] in a row give the same model both times: the
    same meta data, the one default module with one node and one command,
    the same selection; the models are equal even with their ids. *)
Theorem reset_idempotent (uuid : nat -> string) (st : Store) :
  let first := dispatch uuid Reset st in
  let second := dispatch uuid Reset first in
  anonState (model second) = anonState (model first)
  /\ model second = model first
  /\ meta (model second) = meta (model first)
  /\ selectedModuleId (model second) = selectedModuleId (model first)
  /\ selectedNodeId (model second) = selectedNodeId (model first)
  /\ exists md node command,
       modules (model first) = [md]
       /\ nodes md = [node] /\ commands md = [command].
Proof.
  repeat split.
  eexists _, _, _. repeat split; reflexivity.
Qed.

(** ** The selection invariant *)

Lemma existsb_node_ids (nodeId : string) (ns ns' : list BlueprintNode) :
  map node_id ns' = map node_id ns ->
  existsb (fun node => node_id node =? nodeId) ns'
  = existsb (fun node => node_id node =? nodeId) ns.
Proof.
  revert ns'. induction ns as [|x ns IH]; intros [|y ns'] Hids;
    try discriminate Hids; [reflexivity|].
  cbn [map] in Hids. injection Hids as Hy Hrest.
  cbn [existsb]. now rewrite Hy, (IH ns' Hrest).
Qed.

Lemma nodeIn_sameNodeIds (moduleId nodeId : string) (ms ms' : list AddonModule) :
  Forall2 sameNodeIds ms ms' ->
  nodeIn moduleId nodeId ms' = nodeIn moduleId nodeId ms.
Proof.
  induction 1 as [|md md' ms ms' [Hid Hnodes] _ IH]; [reflexivity|].
  unfold nodeIn in *. cbn [existsb].
  now rewrite Hid, (existsb_node_ids nodeId _ _ Hnodes), IH.
Qed.

Lemma Forall2_map_self {A : Type} (R : A -> A -> Prop) (g : A -> A) (l : list A) :
  (forall x, In x l -> R x (g x)) -> Forall2 R l (map g l).
Proof.
  induction l as [|x l IH]; intros Hstep; [constructor|].
  cbn [map]. constructor; [apply Hstep; now left|].
  apply IH. intros y Hin. apply Hstep. now right.
Qed.

Lemma mapM_Forall2 {A B : Type} (R : A -> B -> Prop) (f : A -> Gen B)
  (l : list A) (n : nat) :
  (forall x k, In x l -> R x (fst (f x k))) ->
  Forall2 R l (fst (mapM f l n)).
Proof.
  revert n. induction l as [|x l IH]; intros n Hstep; [constructor|].
  cbn [mapM]. unfold bind.
  pose proof (Hstep x n (or_introl eq_refl)) as Hx.
  destruct (f x n) as [y n1].
  assert (Hrest : forall z k, In z l -> R z (fst (f z k)))
    by (intros z k Hin; apply Hstep; now right).
  specialize (IH n1 Hrest).
  destruct (mapM f l n1) as [ys n2].
  now constructor.
Qed.

Lemma sameNodeIds_refl (md : AddonModule) : sameNodeIds md md.
Proof. now split. Qed.

(** A patch that sets neither the id nor the nodes of a module. *)
Lemma mergeModule_sameNodeIds (md : AddonModule) (patch : ModulePatch) :
  unset (mp_id patch) && unset (mp_nodes patch) = true ->
  sameNodeIds md (mergeModule md patch).
Proof.
  intros Hsafe. apply andb_true_iff in Hsafe as [Hid Hnodes].
  destruct patch as [[?|] ? ? ? ? [?|] ?]; try discriminate.
  now split.
Qed.

Lemma withCommands_sameNodeIds (md : AddonModule) (cs : list CommandBinding) :
  sameNodeIds md (withCommands md cs).
Proof. now split. Qed.

Lemma withNodes_sameNodeIds (md : AddonModule) (ns : list BlueprintNode) :
  map node_id ns = map node_id (nodes md) -> sameNodeIds md (withNodes md ns).
Proof. now split. Qed.

Lemma map_node_id_fixed (g : BlueprintNode -> BlueprintNode)
  (ns : list BlueprintNode) :
  (forall node, node_id (g node) = node_id node) ->
  map node_id (map g ns) = map node_id ns.
Proof.
  intros Hid. rewrite map_map. apply map_ext. exact Hid.
Qed.

Lemma Forall2_node_ids (ns ns' : list BlueprintNode) :
  Forall2 (fun node node' => node_id node' = node_id node) ns ns' ->
  map node_id ns' = map node_id ns.
Proof.
  induction 1 as [|x y ns ns' Hid _ IH]; [reflexivity|].
  cbn [map]. now rewrite Hid, IH.
Qed.

(** The first node of a module of the list is a node of that module. *)
Lemma firstNode_in (ms : list AddonModule) (md : AddonModule) (nodeId : string) :
  In md ms -> firstNodeId (Some md) = Some nodeId ->
  nodeIn (mod_id md) nodeId ms = true.
Proof.
  intros Hin Hfirst. unfold nodeIn. apply existsb_exists.
  exists md. split; [assumption|].
  rewrite String.eqb_refl. cbn [andb firstNodeId] in *.
  destruct (nodes md) as [|node ns]; [discriminate Hfirst|].
  injection Hfirst as <-. cbn [existsb]. now rewrite String.eqb_refl.
Qed.

Lemma select_member_consistent (s : AddonState) (ms : list AddonModule)
  (md : AddonModule) :
  In md ms ->
  selectionConsistent
    (withSelection s ms (Some (mod_id md)) (firstNodeId (Some md))) = true.
Proof.
  intros Hin. unfold selectionConsistent, hasNode.
  cbn [selectedNodeId selectedModuleId modules withSelection].
  destruct (firstNodeId (Some md)) as [nodeId|] eqn:Hfirst; [|reflexivity].
  now apply firstNode_in.
Qed.

Lemma select_found_consistent (s : AddonState) (ms : list AddonModule) (i : string) :
  selectionConsistent
    (withSelection s ms (Some i) (firstNodeId (findModule i ms))) = true.
Proof.
  unfold findModule.
  destruct (find (fun md => mod_id md =? i) ms) as [md|] eqn:Hfind; [|reflexivity].
  apply find_some in Hfind as [Hin Hid].
  apply String.eqb_eq in Hid. subst i.
  now apply select_member_consistent.
Qed.

Lemma selection_transfer (s : AddonState) (ms' : list AddonModule) :
  Forall2 sameNodeIds (modules s) ms' ->
  selectionConsistent (withModules s ms') = selectionConsistent s.
Proof.
  intros Hsame. unfold selectionConsistent, hasNode.
  cbn [selectedNodeId selectedModuleId modules withModules].
  destruct (selectedNodeId s) as [nodeId|]; [|reflexivity].
  destruct (selectedModuleId s) as [moduleId|]; [|reflexivity].
  now apply nodeIn_sameNodeIds.
Qed.

(** A map over the modules that rewrites only matching ones. *)
Lemma modules_map_sameNodeIds (moduleId : string) (g : AddonModule -> AddonModule)
  (ms : list AddonModule) :
  (forall md, sameNodeIds md (g md)) ->
  Forall2 sameNodeIds ms
    (map (fun md => if mod_id md =? moduleId then g md else md) ms).
Proof.
  intros Hg. apply Forall2_map_self. intros md _.
  destruct (mod_id md =? moduleId); [apply Hg|apply sameNodeIds_refl].
Qed.

Lemma nodes_map_ids (nodeId : string) (g : BlueprintNode -> BlueprintNode)
  (ns : list BlueprintNode) :
  (forall node, node_id (g node) = node_id node) ->
  map node_id (map (fun node => if node_id node =? nodeId then g node else node) ns)
  = map node_id ns.
Proof.
  intros Hg. apply map_node_id_fixed. intros node.
  now destruct (node_id node =? nodeId).
Qed.

Section Selection.

Variable uuid : nat -> string.

Lemma addNode_consistent (moduleId : string) (s : AddonState) (n : nat) :
  hasModule moduleId s = true ->
  selectionConsistent (fst (addNode uuid moduleId s n)) = true.
Proof.
  intros Hthere. unfold addNode, bind.
  destruct (createNode uuid n) as [node n']. cbn [fst ret].
  unfold selectionConsistent, hasNode, nodeIn.
  cbn [selectedNodeId selectedModuleId modules withSelection].
  apply existsb_exists in Hthere as (md & Hin & Hid).
  apply existsb_exists.
  exists (withNodes md (nodes md ++ [node])). split.
  - apply in_map_iff. exists md. now rewrite Hid.
  - cbn [mod_id nodes withNodes]. rewrite Hid. cbn [andb].
    rewrite existsb_app. cbn [existsb].
    rewrite String.eqb_refl. now rewrite orb_true_r.
Qed.

Lemma addParameter_sameNodeIds (moduleId nodeId : string) (placement : Placement)
  (s : AddonState) (n : nat) :
  Forall2 sameNodeIds (modules s)
    (modules (fst (addParameter uuid moduleId nodeId placement s n))).
Proof.
  unfold addParameter. unfold bind at 1.
  match goal with
  | |- context [mapM ?f (modules s) n] =>
      pose proof (mapM_Forall2 sameNodeIds f (modules s) n) as Hall;
      destruct (mapM f (modules s) n) as [ms n']
  end.
  cbn [fst ret modules withModules] in *. apply Hall.
  intros md k _.
  destruct (mod_id md =? moduleId); [|apply sameNodeIds_refl].
  unfold bind at 1.
  match goal with
  | |- context [mapM ?f (nodes md) k] =>
      pose proof (mapM_Forall2
                    (fun node node' => node_id node' = node_id node)
                    f (nodes md) k) as Hnodes;
      destruct (mapM f (nodes md) k) as [ns k']
  end.
  cbn [fst ret] in *. apply withNodes_sameNodeIds, Forall2_node_ids, Hnodes.
  intros node j _.
  destruct (node_id node =? nodeId); [|reflexivity].
  cbv [bind createParameter randomUUID ret]. now destruct placement.
Qed.

Lemma addCommand_sameNodeIds (moduleId : string) (s : AddonState) (n : nat) :
  Forall2 sameNodeIds (modules s) (modules (fst (addCommand uuid moduleId s n))).
Proof.
  unfold addCommand. unfold bind at 1.
  match goal with
  | |- context [mapM ?f (modules s) n] =>
      pose proof (mapM_Forall2 sameNodeIds f (modules s) n) as Hall;
      destruct (mapM f (modules s) n) as [ms n']
  end.
  cbn [fst ret modules withModules] in *. apply Hall.
  intros md k _.
  destruct (mod_id md =? moduleId); [|apply sameNodeIds_refl].
  apply withCommands_sameNodeIds.
Qed.

Lemma state_eta (s : AddonState) (g : Gen AddonState) (n : nat) :
  meta (fst (g n)) = meta s ->
  selectedModuleId (fst (g n)) = selectedModuleId s ->
  selectedNodeId (fst (g n)) = selectedNodeId s ->
  fst (g n) = withModules s (modules (fst (g n))).
Proof.
  destruct (fst (g n)) as [m ms sm sn]. cbn. now intros -> -> ->.
Qed.

(** Every allowed step keeps the selection invariant. *)
Lemma perform_consistent (a : Action) (s : AddonState) (n : nat) :
  selectionSafe a s = true ->
  selectionConsistent s = true ->
  selectionConsistent (fst (perform uuid a s n)) = true.
Proof.
  intros Hsafe Hinv.
  destruct a as [u|[id|]|[id|]| |id|id patch|id|moduleId|moduleId nodeId patch
                |moduleId nodeId|moduleId nodeId placement
                |moduleId nodeId placement paramId patch
                |moduleId nodeId placement paramId|moduleId
                |moduleId commandId patch|moduleId commandId| ];
    cbn [perform selectionSafe fst ret] in *.
  - (* updateMeta *) exact Hinv.
  - (* selectModule id *)
    unfold selectModule.
    destruct (Js.truthy id); [apply select_found_consistent|reflexivity].
  - reflexivity.
  - (* selectNode id *)
    unfold selectNode, selectionConsistent.
    cbn [selectedNodeId selectedModuleId modules withSelection].
    destruct (selectedModuleId s); [exact Hsafe|discriminate Hsafe].
  - reflexivity.
  - (* addModule *)
    unfold addModule, bind.
    destruct (createModule uuid n) as [newModule n']. cbn [fst ret].
    apply select_member_consistent, in_or_app. right. now left.
  - (* cloneModule *)
    unfold cloneModule.
    destruct (findModule id (modules s)) as [existing|]; [|exact Hinv].
    unfold bind.
    destruct (cloneOf uuid existing n) as [cloned n']. cbn [fst ret].
    apply select_member_consistent, in_or_app. right. now left.
  - (* updateModule *)
    unfold updateModule. rewrite selection_transfer; [exact Hinv|].
    apply modules_map_sameNodeIds. intros md.
    now apply mergeModule_sameNodeIds.
  - (* removeModule *)
    unfold removeModule.
    set (ms := filter (fun md => negb (mod_id md =? id)) (modules s)).
    destruct (atLast ms) as [md|]; cbn [option_map]; [|reflexivity].
    destruct (Js.truthy (mod_id md) && negb (Nat.eqb (List.length ms) 0));
      [apply select_found_consistent|reflexivity].
  - (* addNode *) now apply addNode_consistent.
  - (* updateNode *)
    unfold updateNode. rewrite selection_transfer; [exact Hinv|].
    apply modules_map_sameNodeIds. intros md.
    apply withNodes_sameNodeIds, nodes_map_ids. intros node.
    destruct patch as [[?|] ? ? ? ? ? ?]; [discriminate Hsafe|reflexivity].
  - (* removeNode *)
    unfold removeNode. apply select_found_consistent.
  - (* addParameter *)
    rewrite (state_eta s (addParameter uuid moduleId nodeId placement s) n).
    + rewrite selection_transfer; [exact Hinv|apply addParameter_sameNodeIds].
    + unfold addParameter, bind. now destruct (mapM _ _ _).
    + unfold addParameter, bind. now destruct (mapM _ _ _).
    + unfold addParameter, bind. now destruct (mapM _ _ _).
  - (* updateParameter *)
    unfold updateParameter. rewrite selection_transfer; [exact Hinv|].
    apply modules_map_sameNodeIds. intros md.
    apply withNodes_sameNodeIds, nodes_map_ids. intros node.
    now destruct placement.
  - (* removeParameter *)
    unfold removeParameter. rewrite selection_transfer; [exact Hinv|].
    apply modules_map_sameNodeIds. intros md.
    apply withNodes_sameNodeIds, nodes_map_ids. intros node.
    now destruct placement.
  - (* addCommand *)
    rewrite (state_eta s (addCommand uuid moduleId s) n).
    + rewrite selection_transfer; [exact Hinv|apply addCommand_sameNodeIds].
    + unfold addCommand, bind. now destruct (mapM _ _ _).
    + unfold addCommand, bind. now destruct (mapM _ _ _).
    + unfold addCommand, bind. now destruct (mapM _ _ _).
  - (* updateCommand *)
    unfold updateCommand. rewrite selection_transfer; [exact Hinv|].
    apply modules_map_sameNodeIds. intros md. apply withCommands_sameNodeIds.
  - (* removeCommand *)
    unfold removeCommand. rewrite selection_transfer; [exact Hinv|].
    apply modules_map_sameNodeIds. intros md. apply withCommands_sameNodeIds.
  - (* reset *) reflexivity.
Qed.

Lemma model_dispatch (a : Action) (st : Store) :
  model (dispatch uuid a st) = fst (perform uuid a (model st) (draws st)).
Proof. unfold dispatch. now destruct (perform uuid a (model st) (draws st)). Qed.

Lemma draws_dispatch (a : Action) (st : Store) :
  draws (dispatch uuid a st) = snd (perform uuid a (model st) (draws st)).
Proof. unfold dispatch. now destruct (perform uuid a (model st) (draws st)). Qed.

(** C2, as amended.  In every model reached from the default model by
    operations in which [selectNode] is given null or a node of a module
    with the selected id, [addNode] is given the id of a module of the
    model, [updateModule] patches set neither id nor nodes and [updateNode]
    patches do not set the id, the selected node is null or a node of a
    module whose id is the selected module id. *)
Theorem selection_invariant (st : Store) :
  reachableBy uuid (fun a s => selectionSafe a s = true) st ->
  selectionConsistent (model st) = true.
Proof.
  induction 1 as [|a st Hreach IH Hsafe]; [reflexivity|].
  rewrite model_dispatch. now apply perform_consistent.
Qed.

End Selection.

Lemma selection_invariant_witness :
  reachableBy demoUUID (fun a s => selectionSafe a s = true)
    (dispatch demoUUID (AddNode "uuid-0")
       (dispatch demoUUID AddModule (initialStore demoUUID)))
  /\ selectionConsistent
       (model (dispatch demoUUID (AddNode "uuid-0")
                 (dispatch demoUUID AddModule (initialStore demoUUID)))) = true.
Proof.
  assert (Hreach :
            reachableBy demoUUID (fun a s => selectionSafe a s = true)
              (dispatch demoUUID (AddNode "uuid-0")
                 (dispatch demoUUID AddModule (initialStore demoUUID)))).
  { apply reach_dispatch; [|reflexivity].
    apply reach_dispatch; [|reflexivity].
    apply reach_initial. }
  split; [exact Hreach|].
  exact (selection_invariant demoUUID _ Hreach).
Defined.

(** C2, as stated, fails: [selectNode] stores any id it is given. *)
Lemma selectNode_breaks_selection :
  reachable demoUUID
    (dispatch demoUUID (SelectNode (Some "ghost")) (initialStore demoUUID))
  /\ selectionConsistent
       (model (dispatch demoUUID (SelectNode (Some "ghost")) (initialStore demoUUID)))
     = false.
Proof.
  split; [|reflexivity].
  apply reach_dispatch; [apply reach_initial|exact I].
Qed.

(** ** Cloning *)

Lemma mapM_cons {A B : Type} (f : A -> Gen B) (x : A) (l : list A) (n : nat) :
  mapM f (x :: l) n
  = let (y, n1) := f x n in let (ys, n2) := mapM f l n1 in (y :: ys, n2).
Proof. reflexivity. Qed.

Section Clone.

Variable uuid : nat -> string.

Lemma mapM_cloneParameter (ps : list BlueprintParameter) (n : nat) :
  snd (mapM (cloneParameter uuid) ps n) = n + List.length ps
  /\ map param_id (fst (mapM (cloneParameter uuid) ps n))
     = map uuid (seq n (List.length ps))
  /\ map anonParameter (fst (mapM (cloneParameter uuid) ps n))
     = map anonParameter ps.
Proof.
  revert n. induction ps as [|p ps IH]; intros n.
  - cbn. repeat split. lia.
  - rewrite mapM_cons.
    change (cloneParameter uuid p n) with (fst (cloneParameter uuid p n), S n).
    destruct (IH (S n)) as (Hsnd & Hids & Hanon).
    destruct (mapM (cloneParameter uuid) ps (S n)) as [ps' n'].
    cbn [fst snd ret List.length] in *.
    repeat split.
    + lia.
    + cbn [map seq param_id]. now rewrite Hids.
    + cbn [map]. now rewrite Hanon.
Qed.

Lemma cloneNode_spec (node : BlueprintNode) (n : nat) :
  snd (cloneNode uuid node n) = n + nodeSize node
  /\ nodeIds (fst (cloneNode uuid node n)) = map uuid (seq n (nodeSize node))
  /\ anonNode (fst (cloneNode uuid node n)) = anonNode node.
Proof.
  unfold cloneNode, bind, randomUUID.
  destruct (mapM_cloneParameter (inputs node) (S n)) as (Hsnd1 & Hids1 & Hanon1).
  destruct (mapM (cloneParameter uuid) (inputs node) (S n)) as [ins n1].
  destruct (mapM_cloneParameter (outputs node) n1) as (Hsnd2 & Hids2 & Hanon2).
  destruct (mapM (cloneParameter uuid) (outputs node) n1) as [outs n2].
  cbn [fst snd ret] in *. subst n1 n2.
  unfold nodeIds, nodeSize, anonNode.
  cbn [node_id inputs outputs node_title node_category node_description body].
  repeat split.
  - lia.
  - cbn [seq map]. rewrite seq_app, map_app, Hids1, Hids2.
    do 3 f_equal.
  - now rewrite Hanon1, Hanon2.
Qed.

Lemma mapM_cloneNode (ns : list BlueprintNode) (n : nat) :
  snd (mapM (cloneNode uuid) ns n) = n + list_sum (map nodeSize ns)
  /\ flat_map nodeIds (fst (mapM (cloneNode uuid) ns n))
     = map uuid (seq n (list_sum (map nodeSize ns)))
  /\ map anonNode (fst (mapM (cloneNode uuid) ns n)) = map anonNode ns.
Proof.
  revert n. induction ns as [|node ns IH]; intros n.
  - cbn. repeat split. lia.
  - rewrite mapM_cons.
    destruct (cloneNode_spec node n) as (Hsnd & Hids & Hanon).
    destruct (cloneNode uuid node n) as [node' n1].
    destruct (IH n1) as (Hsnd' & Hids' & Hanon').
    destruct (mapM (cloneNode uuid) ns n1) as [ns' n2].
    cbn [fst snd ret map flat_map] in *. subst n1.
    change (list_sum (nodeSize node :: map nodeSize ns))
      with (nodeSize node + list_sum (map nodeSize ns)).
    repeat split.
    + lia.
    + now rewrite seq_app, map_app, Hids, Hids'.
    + now rewrite Hanon, Hanon'.
Qed.

Lemma mapM_cloneCommand (cs : list CommandBinding) (n : nat) :
  snd (mapM (cloneCommand uuid) cs n) = n + List.length cs
  /\ map cmd_id (fst (mapM (cloneCommand uuid) cs n))
     = map uuid (seq n (List.length cs))
  /\ map anonCommand (fst (mapM (cloneCommand uuid) cs n)) = map anonCommand cs.
Proof.
  revert n. induction cs as [|c cs IH]; intros n.
  - cbn. repeat split. lia.
  - rewrite mapM_cons.
    change (cloneCommand uuid c n) with (fst (cloneCommand uuid c n), S n).
    destruct (IH (S n)) as (Hsnd & Hids & Hanon).
    destruct (mapM (cloneCommand uuid) cs (S n)) as [cs' n'].
    cbn [fst snd ret List.length] in *.
    repeat split.
    + lia.
    + cbn [map seq cmd_id]. now rewrite Hids.
    + cbn [map]. now rewrite Hanon.
Qed.

(** The clone takes its ids from consecutive draws and keeps the rest. *)
Lemma cloneOf_spec (existing : AddonModule) (n : nat) :
  snd (cloneOf uuid existing n) = n + moduleSize existing
  /\ moduleIds (fst (cloneOf uuid existing n))
     = map uuid (seq n (moduleSize existing))
  /\ mod_name (fst (cloneOf uuid existing n)) = mod_name existing ++ "Copy"
  /\ target (fst (cloneOf uuid existing n)) = target existing
  /\ mod_description (fst (cloneOf uuid existing n)) = mod_description existing
  /\ dependencies (fst (cloneOf uuid existing n)) = dependencies existing
  /\ map anonNode (nodes (fst (cloneOf uuid existing n)))
     = map anonNode (nodes existing)
  /\ map anonCommand (commands (fst (cloneOf uuid existing n)))
     = map anonCommand (commands existing).
Proof.
  unfold cloneOf, bind, randomUUID.
  destruct (mapM_cloneNode (nodes existing) (S n)) as (Hsnd1 & Hids1 & Hanon1).
  destruct (mapM (cloneNode uuid) (nodes existing) (S n)) as [ns n1].
  destruct (mapM_cloneCommand (commands existing) n1) as (Hsnd2 & Hids2 & Hanon2).
  destruct (mapM (cloneCommand uuid) (commands existing) n1) as [cs n2].
  cbn [fst snd ret] in *. subst n1 n2.
  unfold moduleIds, moduleSize.
  cbn [mod_id mod_name target mod_description dependencies nodes commands].
  repeat split; try assumption.
  - lia.
  - cbn [seq map]. rewrite seq_app, map_app, Hids1, Hids2.
    do 3 f_equal.
Qed.



(** With distinct module ids, a module of the model is the one its id
    resolves to. *)
Lemma findModule_member (ms : list AddonModule) (m : AddonModule) :
  NoDup (map mod_id ms) -> In m ms -> findModule (mod_id m) ms = Some m.
Proof.
  unfold findModule.
  induction ms as [|md ms IH]; intros Hdistinct Hin; [now destruct Hin|].
  cbn [map] in Hdistinct. apply NoDup_cons_iff in Hdistinct as [Hfresh Hdistinct].
  cbn [find]. destruct Hin as [->|Hin].
  - now rewrite String.eqb_refl.
  - destruct (String.eqb_spec (mod_id md) (mod_id m)) as [Hsame|_].
    + exfalso. apply Hfresh. rewrite Hsame. now apply in_map.
    + now apply IH.
Qed.


End Clone.


(** ** Uniqueness of ids *)

Lemma NoDup_snoc {A : Type} (l : list A) (x : A) :
  NoDup l -> ~ In x l -> NoDup (l ++ [x]).
Proof.
  intros Hl Hx. apply NoDup_app; [assumption|repeat constructor; intros []|].
  intros a Ha [<-|[]]. now apply Hx.
Qed.

(** Removing entities keeps their keys distinct. *)
Lemma NoDup_map_filter {V K : Type} (key : V -> K) (keep : V -> bool)
  (items : list V) :
  NoDup (map key items) -> NoDup (map key (filter keep items)).
Proof.
  induction items as [|item items IH]; intros Hdistinct; [constructor|].
  cbn [map] in Hdistinct. apply NoDup_cons_iff in Hdistinct as [Hitem Hdistinct].
  cbn [filter]. destruct (keep item); [|now apply IH].
  cbn [map]. constructor; [|now apply IH].
  intros Hin. apply Hitem.
  apply in_map_iff in Hin as (other & Hkey & Hin).
  apply filter_In in Hin as [Hin _].
  apply in_map_iff. now exists other.
Qed.

Lemma Forall_filter {A : Type} (P : A -> Prop) (p : A -> bool) (l : list A) :
  Forall P l -> Forall P (filter p l).
Proof.
  intros Hl. apply Forall_forall. intros x Hin.
  apply filter_In in Hin as [Hin _].
  now apply (proj1 (Forall_forall P l) Hl).
Qed.

Lemma Forall_map_filter {A B : Type} (P : B -> Prop) (f : A -> B) (p : A -> bool)
  (l : list A) :
  Forall P (map f l) -> Forall P (map f (filter p l)).
Proof.
  rewrite !Forall_map. apply Forall_filter.
Qed.

Lemma Forall2_map_eq {A B : Type} (f : A -> B) (l l' : list A) :
  Forall2 (fun x y => f y = f x) l l' -> map f l' = map f l.
Proof.
  induction 1 as [|x y l l' Hxy _ IH]; [reflexivity|].
  cbn [map]. now rewrite Hxy, IH.
Qed.

(** A step of [mapM] that keeps a property which grows with the counter. *)
Lemma mapM_invariant {A : Type} (Good : nat -> A -> Prop) (f : A -> Gen A)
  (l : list A) (n : nat) :
  (forall k k' x, k <= k' -> Good k x -> Good k' x) ->
  (forall x k, In x l -> Good k x ->
               k <= snd (f x k) /\ Good (snd (f x k)) (fst (f x k))) ->
  Forall (Good n) l ->
  n <= snd (mapM f l n)
  /\ Forall (Good (snd (mapM f l n))) (fst (mapM f l n)).
Proof.
  intros Hmono. revert n.
  induction l as [|x l IH]; intros n Hstep Hl; [now split|].
  apply Forall_cons_iff in Hl as [Hx Hl].
  rewrite mapM_cons.
  destruct (Hstep x n (or_introl eq_refl) Hx) as [Hle Hy].
  destruct (f x n) as [y n1]. cbn [fst snd] in *.
  assert (Hl1 : Forall (Good n1) l)
    by (revert Hl; apply Forall_impl; intros z; now apply Hmono).
  destruct (IH n1 (fun z k Hin => Hstep z k (or_intror Hin)) Hl1) as [Hle' Hys].
  destruct (mapM f l n1) as [ys n2]. cbn [fst snd] in *.
  split; [lia|].
  constructor; [now apply (Hmono n1)|assumption].
Qed.

Section Unique.

Variable uuid : nat -> string.
Hypothesis uuid_never_repeats : NeverRepeats uuid.

Lemma drawn_mono (k k' : nat) (x : string) :
  k <= k' -> drawn uuid k x -> drawn uuid k' x.
Proof. intros Hle (j & Hj & ->). exists j. split; [lia|reflexivity]. Qed.

Lemma drawn_uuid (k n : nat) : k < n -> drawn uuid n (uuid k).
Proof. intros Hk. now exists k. Qed.

Lemma Forall_drawn_mono (k k' : nat) (l : list string) :
  k <= k' -> Forall (drawn uuid k) l -> Forall (drawn uuid k') l.
Proof. intros Hle. apply Forall_impl. intros x. now apply drawn_mono. Qed.

(** A later draw is none of the earlier ones. *)
Lemma drawn_fresh (n k : nat) (l : list string) :
  Forall (drawn uuid n) l -> n <= k -> ~ In (uuid k) l.
Proof.
  intros Hl Hle Hin.
  destruct (proj1 (Forall_forall _ _) Hl _ Hin) as (j & Hj & Heq).
  apply uuid_never_repeats in Heq. lia.
Qed.

Lemma NoDup_draws (from count : nat) : NoDup (map uuid (seq from count)).
Proof.
  apply NoDup_map_NoDup_ForallPairs; [|apply seq_NoDup].
  intros a b _ _. apply uuid_never_repeats.
Qed.

Lemma Forall_drawn_draws (from count n : nat) :
  from + count <= n -> Forall (drawn uuid n) (map uuid (seq from count)).
Proof.
  intros Hle. apply Forall_map, Forall_forall. intros k Hk.
  apply in_seq in Hk. apply drawn_uuid. lia.
Qed.

Lemma NodeGood_mono (k k' : nat) (node : BlueprintNode) :
  k <= k' -> NodeGood uuid k node -> NodeGood uuid k' node.
Proof.
  intros Hle [Hdrawn Hunique]. split; [|assumption].
  now apply (Forall_drawn_mono k).
Qed.

Lemma ModuleGood_mono (k k' : nat) (md : AddonModule) :
  k <= k' -> ModuleGood uuid k md -> ModuleGood uuid k' md.
Proof.
  intros Hle (Hid & Hnodes & Hcommands & Hnd & Hcd).
  repeat split; try assumption.
  - now apply (drawn_mono k).
  - revert Hnodes. apply Forall_impl. intros node. now apply NodeGood_mono.
  - now apply (Forall_drawn_mono k).
Qed.

Lemma ModulesGood_mono (k k' : nat) (ms : list AddonModule) :
  k <= k' -> ModulesGood uuid k ms -> ModulesGood uuid k' ms.
Proof.
  intros Hle [Hall Hnd]. split; [|assumption].
  revert Hall. apply Forall_impl. intros md. now apply ModuleGood_mono.
Qed.

(** The ids of the nodes and of the modules are draws as well. *)
Lemma node_ids_drawn (n : nat) (ns : list BlueprintNode) :
  Forall (NodeGood uuid n) ns -> Forall (drawn uuid n) (map node_id ns).
Proof.
  intros Hns. apply Forall_map. revert Hns. apply Forall_impl.
  intros node [Hdrawn _]. unfold nodeIds in Hdrawn.
  now apply Forall_cons_iff in Hdrawn as [Hid _].
Qed.

Lemma module_ids_drawn (n : nat) (ms : list AddonModule) :
  Forall (ModuleGood uuid n) ms -> Forall (drawn uuid n) (map mod_id ms).
Proof.
  intros Hms. apply Forall_map. revert Hms. apply Forall_impl.
  now intros md (Hid & _).
Qed.

Lemma placed_ids_drawn (n : nat) (placement : Placement) (node : BlueprintNode) :
  NodeGood uuid n node ->
  Forall (drawn uuid n) (map param_id (placed placement node)).
Proof.
  intros [Hdrawn _]. unfold nodeIds in Hdrawn.
  apply Forall_cons_iff in Hdrawn as [_ Hparams].
  apply Forall_app in Hparams as [Hin Hout].
  now destruct placement.
Qed.

(** *** Ids that come from distinct draws *)

Lemma flat_nodeIds_unique (ns : list BlueprintNode) :
  NoDup (flat_map nodeIds ns) ->
  NoDup (map node_id ns) /\ Forall NodeUnique ns.
Proof.
  induction ns as [|node ns IH]; intros Hnd; [split; constructor|].
  cbn [flat_map] in Hnd.
  pose proof (NoDup_app_remove_l _ _ Hnd) as Hrest.
  pose proof (NoDup_app_remove_r _ _ Hnd) as Hnode.
  destruct (IH Hrest) as [Hids Hunique].
  split.
  - cbn [map]. constructor; [|assumption].
    intros Hin. unfold nodeIds in Hnd. cbn [app] in Hnd.
    apply NoDup_cons_iff in Hnd as [Hfresh _]. apply Hfresh.
    apply in_or_app. right.
    apply in_map_iff in Hin as (other & Hid & Hin).
    apply in_flat_map. exists other. split; [assumption|].
    unfold nodeIds. left. exact Hid.
  - constructor; [|assumption].
    unfold nodeIds in Hnode. apply NoDup_cons_iff in Hnode as [_ Hparams].
    split; [exact (NoDup_app_remove_r _ _ Hparams)
           |exact (NoDup_app_remove_l _ _ Hparams)].
Qed.

Lemma moduleIds_good (n : nat) (md : AddonModule) :
  Forall (drawn uuid n) (moduleIds md) -> NoDup (moduleIds md) ->
  ModuleGood uuid n md.
Proof.
  unfold moduleIds. intros Hdrawn Hnd.
  apply Forall_cons_iff in Hdrawn as [Hid Hrest].
  apply Forall_app in Hrest as [Hnodes Hcommands].
  apply NoDup_cons_iff in Hnd as [_ Hnd].
  destruct (flat_nodeIds_unique _ (NoDup_app_remove_r _ _ Hnd)) as [Hids Hunique].
  repeat split; try assumption.
  - rewrite Forall_flat_map in Hnodes.
    apply Forall_forall. intros node Hin. split.
    + exact (proj1 (Forall_forall _ _) Hnodes node Hin).
    + exact (proj1 (Forall_forall _ _) Hunique node Hin).
  - exact (NoDup_app_remove_l _ _ Hnd).
Qed.

Lemma createModule_spec (n : nat) :
  snd (createModule uuid n) = n + 5
  /\ moduleIds (fst (createModule uuid n)) = map uuid (seq n 5).
Proof.
  split; [cbn; lia|].
  cbn. now replace (n + 0) with n by lia.
Qed.

(** *** Rewriting one collection *)

Lemma map_if_same {A B : Type} (f : A -> B) (p : A -> bool) (g : A -> A)
  (l : list A) :
  (forall x, f (g x) = f x) ->
  map f (map (fun x => if p x then g x else x) l) = map f l.
Proof.
  intros Hsame. rewrite map_map. apply map_ext. intros x.
  now destruct (p x).
Qed.

Lemma Forall_map_if {A : Type} (P Q : A -> Prop) (p : A -> bool) (g : A -> A)
  (l : list A) :
  (forall x, P x -> Q x) -> (forall x, P x -> Q (g x)) ->
  Forall P l -> Forall Q (map (fun x => if p x then g x else x) l).
Proof.
  intros Hkeep Hg Hl. apply Forall_map. revert Hl. apply Forall_impl.
  intros x Hx. destruct (p x); [now apply Hg|now apply Hkeep].
Qed.

Lemma ModuleGood_withNodes (n n' : nat) (md : AddonModule)
  (ns : list BlueprintNode) :
  n <= n' -> ModuleGood uuid n md ->
  Forall (NodeGood uuid n') ns -> NoDup (map node_id ns) ->
  ModuleGood uuid n' (withNodes md ns).
Proof.
  intros Hle (Hid & _ & Hcommands & _ & Hcd) Hns Hnd.
  repeat split; cbn [mod_id nodes commands withNodes]; try assumption.
  - now apply (drawn_mono n).
  - now apply (Forall_drawn_mono n).
Qed.

Lemma ModuleGood_withCommands (n n' : nat) (md : AddonModule)
  (cs : list CommandBinding) :
  n <= n' -> ModuleGood uuid n md ->
  Forall (drawn uuid n') (map cmd_id cs) -> NoDup (map cmd_id cs) ->
  ModuleGood uuid n' (withCommands md cs).
Proof.
  intros Hle (Hid & Hnodes & _ & Hnd & _) Hcs Hcd.
  repeat split; cbn [mod_id nodes commands withCommands]; try assumption.
  - now apply (drawn_mono n).
  - revert Hnodes. apply Forall_impl. intros node. now apply NodeGood_mono.
Qed.

Lemma NodeGood_withPlaced (n n' : nat) (placement : Placement)
  (node : BlueprintNode) (ps : list BlueprintParameter) :
  n <= n' -> NodeGood uuid n node ->
  Forall (drawn uuid n') (map param_id ps) -> NoDup (map param_id ps) ->
  NodeGood uuid n' (withPlaced placement node ps).
Proof.
  intros Hle [Hdrawn [Hin Hout]] Hps Hnd.
  apply (Forall_drawn_mono n n' _ Hle) in Hdrawn.
  unfold nodeIds in Hdrawn.
  apply Forall_cons_iff in Hdrawn as [Hid Hparams].
  apply Forall_app in Hparams as [Hdin Hdout].
  destruct placement; (split; [|split]);
    unfold nodeIds; cbn [node_id inputs outputs withPlaced];
    try assumption;
    (constructor; [assumption|]); apply Forall_app; now split.
Qed.

Lemma ModulesGood_map_if (n n' : nat) (moduleId : string)
  (g : AddonModule -> AddonModule) (ms : list AddonModule) :
  n <= n' ->
  (forall md, mod_id (g md) = mod_id md) ->
  (forall md, ModuleGood uuid n md -> ModuleGood uuid n' (g md)) ->
  ModulesGood uuid n ms ->
  ModulesGood uuid n'
    (map (fun md => if mod_id md =? moduleId then g md else md) ms).
Proof.
  intros Hle Hid Hg [Hall Hnd]. split.
  - revert Hall. apply Forall_map_if; [|assumption].
    intros md. now apply ModuleGood_mono.
  - now rewrite map_if_same.
Qed.

Lemma ModulesGood_snoc (n n' : nat) (ms : list AddonModule) (md : AddonModule) :
  n <= n' -> ModulesGood uuid n ms ->
  moduleIds md = map uuid (seq n (n' - n)) ->
  ModulesGood uuid n' (ms ++ [md]).
Proof.
  intros Hle [Hall Hnd] Hids. split.
  - apply Forall_app. split.
    + revert Hall. apply Forall_impl. intros x. now apply ModuleGood_mono.
    + constructor; [|constructor].
      apply moduleIds_good; rewrite Hids.
      * apply Forall_drawn_draws. lia.
      * apply NoDup_draws.
  - rewrite map_app. apply NoDup_snoc; [assumption|].
    assert (Hfirst : In (mod_id md) (map uuid (seq n (n' - n))))
      by (rewrite <- Hids; now left).
    apply in_map_iff in Hfirst as (k & <- & Hk). apply in_seq in Hk.
    apply (drawn_fresh n); [now apply module_ids_drawn|lia].
Qed.

(** *** The operations *)

Lemma mergeModule_good (n : nat) (md : AddonModule) (patch : ModulePatch) :
  unset (mp_id patch) && unset (mp_nodes patch) && unset (mp_commands patch) = true ->
  ModuleGood uuid n md -> ModuleGood uuid n (mergeModule md patch).
Proof.
  destruct patch as [[?|] ? ? ? ? [?|] [?|]]; try discriminate.
  now intros _.
Qed.

Lemma mergeNode_good (n : nat) (node : BlueprintNode) (patch : NodePatch) :
  unset (np_id patch) && unset (np_inputs patch) && unset (np_outputs patch) = true ->
  NodeGood uuid n node -> NodeGood uuid n (mergeNode node patch).
Proof.
  destruct patch as [[?|] ? ? ? [?|] [?|] ?]; try discriminate.
  now intros _.
Qed.

Lemma createNode_spec (n : nat) :
  snd (createNode uuid n) = n + 3
  /\ nodeIds (fst (createNode uuid n)) = map uuid (seq n 3).
Proof. split; [cbn; lia|reflexivity]. Qed.

Lemma node_of_draws_good (n n' : nat) (node : BlueprintNode) :
  n <= n' -> nodeIds node = map uuid (seq n (n' - n)) -> NodeGood uuid n' node.
Proof.
  intros Hle Hids. split.
  - rewrite Hids. apply Forall_drawn_draws. lia.
  - pose proof (NoDup_draws n (n' - n)) as Hnd. rewrite <- Hids in Hnd.
    unfold nodeIds in Hnd. apply NoDup_cons_iff in Hnd as [_ Hparams].
    split; [exact (NoDup_app_remove_r _ _ Hparams)
           |exact (NoDup_app_remove_l _ _ Hparams)].
Qed.

Lemma addNode_good (moduleId : string) (s : AddonState) (n : nat) :
  ModulesGood uuid n (modules s) ->
  n <= snd (addNode uuid moduleId s n)
  /\ ModulesGood uuid (snd (addNode uuid moduleId s n))
       (modules (fst (addNode uuid moduleId s n))).
Proof.
  intros Hgood. unfold addNode, bind.
  destruct (createNode_spec n) as [Hsnd Hids].
  destruct (createNode uuid n) as [node n']. cbn [fst snd ret modules withSelection] in *.
  subst n'. split; [lia|].
  apply (ModulesGood_map_if n); [lia|reflexivity| |assumption].
  intros md Hmd.
  pose proof Hmd as (_ & Hnodes & _ & Hnd & _).
  apply (ModuleGood_withNodes n); [lia|assumption| |].
  - apply Forall_app. split.
    + revert Hnodes. apply Forall_impl. intros x. apply NodeGood_mono. lia.
    + constructor; [|constructor].
      apply (node_of_draws_good n); [lia|].
      now replace (n + 3 - n) with 3 by lia.
  - rewrite map_app. apply NoDup_snoc; [assumption|].
    assert (Hid : node_id node = uuid n)
      by (unfold nodeIds in Hids; now injection Hids).
    cbn [map]. rewrite Hid.
    apply (drawn_fresh n); [now apply node_ids_drawn|lia].
Qed.

Lemma updateNode_good (moduleId nodeId : string) (patch : NodePatch)
  (s : AddonState) (n : nat) :
  unset (np_id patch) && unset (np_inputs patch) && unset (np_outputs patch) = true ->
  ModulesGood uuid n (modules s) ->
  ModulesGood uuid n (modules (updateNode moduleId nodeId patch s)).
Proof.
  intros Hpatch Hgood. unfold updateNode. cbn [modules withModules].
  apply (ModulesGood_map_if n); [lia|reflexivity| |assumption].
  intros md Hmd.
  pose proof Hmd as (_ & Hnodes & _ & Hnd & _).
  apply (ModuleGood_withNodes n); [lia|assumption| |].
  - revert Hnodes. apply Forall_map_if; [trivial|].
    intros node. now apply mergeNode_good.
  - rewrite map_if_same; [assumption|].
    intros node. destruct patch as [[?|] ? ? ? ? ? ?]; [discriminate|reflexivity].
Qed.

Lemma removeNode_good (moduleId nodeId : string) (s : AddonState) (n : nat) :
  ModulesGood uuid n (modules s) ->
  ModulesGood uuid n (modules (removeNode moduleId nodeId s)).
Proof.
  intros Hgood. unfold removeNode. cbn [modules withSelection].
  apply (ModulesGood_map_if n); [lia|reflexivity| |assumption].
  intros md Hmd.
  pose proof Hmd as (_ & Hnodes & _ & Hnd & _).
  apply (ModuleGood_withNodes n); [lia|assumption| |].
  - now apply Forall_filter.
  - now apply NoDup_map_filter.
Qed.

Lemma removeModule_good (id : string) (s : AddonState) (n : nat) :
  ModulesGood uuid n (modules s) ->
  ModulesGood uuid n (modules (removeModule id s)).
Proof.
  intros [Hall Hnd]. unfold removeModule. cbn [modules withSelection].
  split; [now apply Forall_filter|now apply NoDup_map_filter].
Qed.

Lemma updateParameter_good (moduleId nodeId : string) (placement : Placement)
  (paramId : string) (patch : ParameterPatch) (s : AddonState) (n : nat) :
  unset (pp_id patch) = true ->
  ModulesGood uuid n (modules s) ->
  ModulesGood uuid n
    (modules (updateParameter moduleId nodeId placement paramId patch s)).
Proof.
  intros Hpatch Hgood. unfold updateParameter. cbn [modules withModules].
  apply (ModulesGood_map_if n); [lia|reflexivity| |assumption].
  intros md Hmd.
  pose proof Hmd as (_ & Hnodes & _ & Hnd & _).
  apply (ModuleGood_withNodes n); [lia|assumption| |].
  - revert Hnodes. apply Forall_map_if; [trivial|].
    intros node Hnode.
    assert (Hids : map param_id
                     (map (fun param =>
                             if param_id param =? paramId
                             then mergeParameter param patch else param)
                          (placed placement node))
                   = map param_id (placed placement node)).
    { apply map_if_same. intros param.
      destruct patch as [[?|] ? ? ? ? ?]; [discriminate|reflexivity]. }
    apply (NodeGood_withPlaced n); [lia|assumption| |]; rewrite Hids.
    + now apply placed_ids_drawn.
    + destruct Hnode as [_ [Hin Hout]]. now destruct placement.
  - rewrite map_if_same; [assumption|]. intros node. now destruct placement.
Qed.

Lemma removeParameter_good (moduleId nodeId : string) (placement : Placement)
  (paramId : string) (s : AddonState) (n : nat) :
  ModulesGood uuid n (modules s) ->
  ModulesGood uuid n
    (modules (removeParameter moduleId nodeId placement paramId s)).
Proof.
  intros Hgood. unfold removeParameter. cbn [modules withModules].
  apply (ModulesGood_map_if n); [lia|reflexivity| |assumption].
  intros md Hmd.
  pose proof Hmd as (_ & Hnodes & _ & Hnd & _).
  apply (ModuleGood_withNodes n); [lia|assumption| |].
  - revert Hnodes. apply Forall_map_if; [trivial|].
    intros node Hnode.
    apply (NodeGood_withPlaced n); [lia|assumption| |].
    + now apply Forall_map_filter, placed_ids_drawn.
    + apply NoDup_map_filter.
      destruct Hnode as [_ [Hin Hout]]. now destruct placement.
  - rewrite map_if_same; [assumption|]. intros node. now destruct placement.
Qed.

Lemma updateCommand_good (moduleId commandId : string) (patch : CommandPatch)
  (s : AddonState) (n : nat) :
  unset (cp_id patch) = true ->
  ModulesGood uuid n (modules s) ->
  ModulesGood uuid n (modules (updateCommand moduleId commandId patch s)).
Proof.
  intros Hpatch Hgood. unfold updateCommand. cbn [modules withModules].
  apply (ModulesGood_map_if n); [lia|reflexivity| |assumption].
  intros md Hmd.
  pose proof Hmd as (_ & _ & Hcommands & _ & Hcd).
  assert (Hids : map cmd_id
                   (map (fun command =>
                           if cmd_id command =? commandId
                           then mergeCommand command patch else command)
                        (commands md))
                 = map cmd_id (commands md)).
  { apply map_if_same. intros command.
    destruct patch as [[?|] ? ? ? ? ?]; [discriminate|reflexivity]. }
  apply (ModuleGood_withCommands n); [lia|assumption| |]; now rewrite Hids.
Qed.

Lemma removeCommand_good (moduleId commandId : string) (s : AddonState) (n : nat) :
  ModulesGood uuid n (modules s) ->
  ModulesGood uuid n (modules (removeCommand moduleId commandId s)).
Proof.
  intros Hgood. unfold removeCommand. cbn [modules withModules].
  apply (ModulesGood_map_if n); [lia|reflexivity| |assumption].
  intros md Hmd.
  pose proof Hmd as (_ & _ & Hcommands & _ & Hcd).
  apply (ModuleGood_withCommands n); [lia|assumption| |].
  - now apply Forall_map_filter.
  - now apply NoDup_map_filter.
Qed.

Lemma addModule_good (s : AddonState) (n : nat) :
  ModulesGood uuid n (modules s) ->
  n <= snd (addModule uuid s n)
  /\ ModulesGood uuid (snd (addModule uuid s n)) (modules (fst (addModule uuid s n))).
Proof.
  intros Hgood. unfold addModule, bind.
  destruct (createModule_spec n) as [Hsnd Hids].
  destruct (createModule uuid n) as [newModule n'].
  cbn [fst snd ret modules withSelection] in *. subst n'.
  split; [lia|].
  apply (ModulesGood_snoc n); [lia|assumption|].
  now replace (n + 5 - n) with 5 by lia.
Qed.

Lemma cloneModule_good (id : string) (s : AddonState) (n : nat) :
  ModulesGood uuid n (modules s) ->
  n <= snd (cloneModule uuid id s n)
  /\ ModulesGood uuid (snd (cloneModule uuid id s n))
       (modules (fst (cloneModule uuid id s n))).
Proof.
  intros Hgood. unfold cloneModule.
  destruct (findModule id (modules s)) as [existing|]; [|now split].
  unfold bind.
  destruct (cloneOf_spec uuid existing n) as (Hsnd & Hids & _).
  destruct (cloneOf uuid existing n) as [cloned n'].
  cbn [fst snd ret modules withSelection] in *. subst n'.
  split; [lia|].
  apply (ModulesGood_snoc n); [lia|assumption|].
  now replace (n + moduleSize existing - n) with (moduleSize existing) by lia.
Qed.

Lemma addParameter_good (moduleId nodeId : string) (placement : Placement)
  (s : AddonState) (n : nat) :
  ModulesGood uuid n (modules s) ->
  n <= snd (addParameter uuid moduleId nodeId placement s n)
  /\ ModulesGood uuid (snd (addParameter uuid moduleId nodeId placement s n))
       (modules (fst (addParameter uuid moduleId nodeId placement s n))).
Proof.
  intros [Hall Hnd]. unfold addParameter, bind.
  match goal with
  | |- context [mapM ?f (modules s) n] => set (onModule := f)
  end.
  assert (Hnode : forall node k,
             NodeGood uuid k node ->
             let r := (if node_id node =? nodeId
                       then p <- createParameter uuid
                                   match placement with
                                   | Inputs => "InputParam"
                                   | Outputs => "OutputParam"
                                   end ;;
                            ret (withPlaced placement node
                                   (placed placement node ++ [p]))
                       else ret node) k in
             k <= snd r /\ NodeGood uuid (snd r) (fst r)
             /\ node_id (fst r) = node_id node).
  { intros node k Hgood. cbv zeta.
    destruct (node_id node =? nodeId);
      [|cbn [fst snd ret]; split; [lia|now split]].
    cbv [bind createParameter randomUUID ret]. cbn [fst snd].
    split; [lia|]. split; [|now destruct placement].
    apply (NodeGood_withPlaced k); [lia|assumption| |];
      rewrite map_app; cbn [map param_id].
    - apply Forall_app. split.
      + apply (Forall_drawn_mono k); [lia|now apply placed_ids_drawn].
      + constructor; [apply drawn_uuid; lia|constructor].
    - apply NoDup_snoc.
      + destruct Hgood as [_ [Hin Hout]]. now destruct placement.
      + apply (drawn_fresh k); [now apply placed_ids_drawn|lia]. }
  assert (Hmodule : forall md k,
             ModuleGood uuid k md ->
             k <= snd (onModule md k)
             /\ ModuleGood uuid (snd (onModule md k)) (fst (onModule md k))
             /\ mod_id (fst (onModule md k)) = mod_id md).
  { intros md k Hgood. subst onModule. cbn beta.
    destruct (mod_id md =? moduleId);
      [|cbn [fst snd ret]; split; [lia|now split]].
    unfold bind.
    match goal with
    | |- context [mapM ?f (nodes md) k] => set (onNode := f)
    end.
    pose proof Hgood as (_ & Hnodes & _ & Hnodup & _).
    destruct (mapM_invariant (NodeGood uuid) onNode (nodes md) k NodeGood_mono)
      as [Hle Hns]; [|assumption|].
    { intros node j _ Hj. destruct (Hnode node j Hj) as (Hle & Hg & _).
      now split. }
    pose proof (mapM_Forall2 (fun a b => node_id b = node_id a) onNode (nodes md) k)
      as Hids.
    destruct (mapM onNode (nodes md) k) as [ns k']. cbn [fst snd ret] in *.
    split; [assumption|]. split; [|reflexivity].
    apply (ModuleGood_withNodes k); [assumption|assumption|assumption|].
    rewrite (Forall2_map_eq node_id (nodes md) ns); [assumption|].
    apply Hids. intros node j _.
    (* the id of a node is kept whatever the node looks like *)
    subst onNode. cbn beta.
    destruct (node_id node =? nodeId); [|reflexivity].
    cbv [bind createParameter randomUUID ret]. now destruct placement. }
  destruct (mapM_invariant (ModuleGood uuid) onModule (modules s) n ModuleGood_mono)
    as [Hle Hms]; [|assumption|].
  { intros md k _ Hk. destruct (Hmodule md k Hk) as (Hle & Hg & _). now split. }
  assert (Hkeep : forall md k, mod_id (fst (onModule md k)) = mod_id md).
  { intros md k. subst onModule. cbn beta.
    destruct (mod_id md =? moduleId); [|reflexivity].
    now destruct (mapM _ (nodes md) k). }
  pose proof (mapM_Forall2 (fun a b => mod_id b = mod_id a)
                onModule (modules s) n (fun md k _ => Hkeep md k)) as Hids.
  destruct (mapM onModule (modules s) n) as [ms n']. cbn [fst snd ret modules withModules] in *.
  split; [assumption|]. split; [assumption|].
  now rewrite (Forall2_map_eq mod_id (modules s) ms).
Qed.

Lemma addCommand_good (moduleId : string) (s : AddonState) (n : nat) :
  ModulesGood uuid n (modules s) ->
  n <= snd (addCommand uuid moduleId s n)
  /\ ModulesGood uuid (snd (addCommand uuid moduleId s n))
       (modules (fst (addCommand uuid moduleId s n))).
Proof.
  intros [Hall Hnd]. unfold addCommand, bind.
  match goal with
  | |- context [mapM ?f (modules s) n] => set (onModule := f)
  end.
  assert (Hkeep : forall md k, mod_id (fst (onModule md k)) = mod_id md).
  { intros md k. subst onModule. cbn beta.
    now destruct (mod_id md =? moduleId). }
  destruct (mapM_invariant (ModuleGood uuid) onModule (modules s) n ModuleGood_mono)
    as [Hle Hms]; [|assumption|].
  { intros md k _ Hgood. subst onModule. cbn beta.
    destruct (mod_id md =? moduleId); [|cbn [fst snd ret]; split; [lia|assumption]].
    unfold bind, randomUUID. cbn [fst snd ret].
    split; [lia|].
    pose proof Hgood as (_ & _ & Hcommands & _ & Hcd).
    apply (ModuleGood_withCommands k); [lia|assumption| |];
      rewrite map_app; cbn [map cmd_id].
    - apply Forall_app. split.
      + now apply (Forall_drawn_mono k); [lia|].
      + constructor; [apply drawn_uuid; lia|constructor].
    - apply NoDup_snoc; [assumption|].
      now apply (drawn_fresh k). }
  pose proof (mapM_Forall2 (fun a b => mod_id b = mod_id a)
                onModule (modules s) n (fun md k _ => Hkeep md k)) as Hids.
  destruct (mapM onModule (modules s) n) as [ms n']. cbn [fst snd ret modules withModules] in *.
  split; [assumption|]. split; [assumption|].
  now rewrite (Forall2_map_eq mod_id (modules s) ms).
Qed.

Lemma default_good (n : nat) :
  5 <= n -> ModulesGood uuid n (modules (defaultState uuid)).
Proof.
  intros Hle. apply (ModulesGood_mono 5); [assumption|].
  apply (ModulesGood_snoc 0 5 [] (fst (createModule uuid 0))); [lia| |reflexivity].
  split; constructor.
Qed.

(** Every step with id-keeping patches keeps the ids good. *)
Lemma perform_good (a : Action) (s : AddonState) (n : nat) :
  keepsIds a = true -> 5 <= n ->
  ModulesGood uuid n (modules s) ->
  n <= snd (perform uuid a s n)
  /\ ModulesGood uuid (snd (perform uuid a s n)) (modules (fst (perform uuid a s n))).
Proof.
  intros Hkeeps Hfive Hgood.
  destruct a; cbn [perform keepsIds fst snd ret] in *;
    try (split; [lia|]).
  - exact Hgood.
  - exact Hgood.
  - exact Hgood.
  - now apply addModule_good.
  - now apply cloneModule_good.
  - unfold updateModule. cbn [modules withModules].
    apply (ModulesGood_map_if n); [lia| | |assumption].
    + intros md. destruct patch as [[?|] ? ? ? ? ? ?]; [discriminate|reflexivity].
    + intros md. now apply mergeModule_good.
  - now apply removeModule_good.
  - now apply addNode_good.
  - now apply updateNode_good.
  - now apply removeNode_good.
  - now apply addParameter_good.
  - now apply updateParameter_good.
  - now apply removeParameter_good.
  - now apply addCommand_good.
  - now apply updateCommand_good.
  - now apply removeCommand_good.
  - now apply default_good.
Qed.

Lemma ModulesGood_unique (n : nat) (s : AddonState) :
  ModulesGood uuid n (modules s) -> UniqueIds s.
Proof.
  intros [Hall Hnd]. split; [assumption|].
  revert Hall. apply Forall_impl.
  intros md (_ & Hnodes & _ & Hnodup & Hcd).
  repeat split; try assumption.
  revert Hnodes. apply Forall_impl. now intros node [_ Hunique].
Qed.

Lemma reachable_good (st : Store) :
  reachableBy uuid (fun a _ => keepsIds a = true) st ->
  5 <= draws st /\ ModulesGood uuid (draws st) (modules (model st)).
Proof.
  induction 1 as [|a st Hreach [Hfive Hgood] Hkeeps].
  - split; [cbn; lia|]. apply default_good. cbn. lia.
  - destruct (perform_good a (model st) (draws st) Hkeeps Hfive Hgood) as [Hle Hnext].
    unfold dispatch.
    destruct (perform uuid a (model st) (draws st)) as [s n].
    cbn [fst snd model draws] in *. split; [lia|assumption].
Qed.

(** C4, as amended.  With a generator that never returns an identifier
    twice, in every model reached from the default model by operations
    whose patches set neither an id nor a list of nested entities, module
    ids are pairwise distinct in the model, node ids and command ids are
    pairwise distinct in their module, and parameter ids are pairwise
    distinct in the inputs and in the outputs of their node. *)
Theorem ids_unique (st : Store) :
  reachableBy uuid (fun a _ => keepsIds a = true) st ->
  UniqueIds (model st).
Proof.
  intros Hreach. destruct (reachable_good st Hreach) as [_ Hgood].
  exact (ModulesGood_unique _ _ Hgood).
Qed.

End Unique.

Lemma demoUUID_never_repeats : NeverRepeats demoUUID.
Proof.
  intros a b Heq. unfold demoUUID in Heq.
  assert (Hdigits : NilEmpty.string_of_uint (Nat.to_uint a)
                    = NilEmpty.string_of_uint (Nat.to_uint b))
    by (cbn in Heq; now injection Heq).
  apply (f_equal NilEmpty.uint_of_string) in Hdigits.
  rewrite !NilEmpty.usu in Hdigits. injection Hdigits as Hdigits.
  apply (f_equal Nat.of_uint) in Hdigits.
  now rewrite !Unsigned.of_to in Hdigits.
Qed.

Lemma ids_unique_witness :
  reachableBy demoUUID (fun a _ => keepsIds a = true)
    (dispatch demoUUID (CloneModule "uuid-0")
       (dispatch demoUUID (AddParameter "uuid-0" "uuid-1" Inputs)
          (initialStore demoUUID)))
  /\ UniqueIds
       (model (dispatch demoUUID (CloneModule "uuid-0")
                 (dispatch demoUUID (AddParameter "uuid-0" "uuid-1" Inputs)
                    (initialStore demoUUID)))).
Proof.
  assert (Hreach :
            reachableBy demoUUID (fun a _ => keepsIds a = true)
              (dispatch demoUUID (CloneModule "uuid-0")
                 (dispatch demoUUID (AddParameter "uuid-0" "uuid-1" Inputs)
                    (initialStore demoUUID)))).
  { apply reach_dispatch; [|reflexivity].
    apply reach_dispatch; [|reflexivity].
    apply reach_initial. }
  split; [exact Hreach|].
  exact (ids_unique demoUUID demoUUID_never_repeats _ Hreach).
Defined.

(** C4, as stated, fails: a patch may set the id of a module to the id of
    another one. *)
Lemma patched_id_breaks_uniqueness :
  reachable demoUUID
    (dispatch demoUUID (UpdateModule "uuid-5" (idPatch "uuid-0"))
       (dispatch demoUUID AddModule (initialStore demoUUID)))
  /\ ~ UniqueIds
         (model (dispatch demoUUID (UpdateModule "uuid-5" (idPatch "uuid-0"))
                   (dispatch demoUUID AddModule (initialStore demoUUID)))).
Proof.
  split.
  - apply reach_dispatch; [|exact I].
    apply reach_dispatch; [|exact I].
    apply reach_initial.
  - intros [Hnd _]. vm_compute in Hnd.
    apply NoDup_cons_iff in Hnd as [Hfresh _].
    apply Hfresh. now left.
Qed.

(** ** Further properties of the store *)

Lemma map_idempotent {A : Type} (f : A -> A) (l : list A) :
  (forall x, In x l -> f (f x) = f x) -> map f (map f l) = map f l.
Proof.
  intros Hf. rewrite map_map. apply map_ext_in. exact Hf.
Qed.

Lemma filter_idempotent {A : Type} (keep : A -> bool) (l : list A) :
  filter keep (filter keep l) = filter keep l.
Proof.
  apply filter_all. intros x Hin. now apply filter_In in Hin.
Qed.

Lemma merged_twice {A : Type} (patch : option A) (old : A) :
  merged patch (merged patch old) = merged patch old.
Proof. now destruct patch. Qed.

Lemma mergedOpt_twice {A : Type} (patch old : option A) :
  mergedOpt patch (mergedOpt patch old) = mergedOpt patch old.
Proof. now destruct patch. Qed.

Lemma mergeModule_twice (md : AddonModule) (patch : ModulePatch) :
  mergeModule (mergeModule md patch) patch = mergeModule md patch.
Proof. unfold mergeModule. cbn. now rewrite !merged_twice. Qed.

Lemma mergeNode_twice (node : BlueprintNode) (patch : NodePatch) :
  mergeNode (mergeNode node patch) patch = mergeNode node patch.
Proof. unfold mergeNode. cbn. now rewrite !merged_twice. Qed.

Lemma mergeParameter_twice (param : BlueprintParameter) (patch : ParameterPatch) :
  mergeParameter (mergeParameter param patch) patch = mergeParameter param patch.
Proof.
  unfold mergeParameter. cbn. now rewrite !merged_twice, !mergedOpt_twice.
Qed.

Lemma mergeCommand_twice (command : CommandBinding) (patch : CommandPatch) :
  mergeCommand (mergeCommand command patch) patch = mergeCommand command patch.
Proof. unfold mergeCommand. cbn. now rewrite !merged_twice. Qed.

Lemma mergeMeta_twice (m : AddonMeta) (u : MetaUpdate) :
  mergeMeta (mergeMeta m u) u = mergeMeta m u.
Proof. now destruct u. Qed.

(** Rewriting the matching elements twice, when the rewrite is idempotent
    and tells by itself whether its result still matches. *)
Lemma map_if_twice {A : Type} (p : A -> bool) (g : A -> A) (l : list A) :
  (forall x, In x l -> p x = true -> p (g x) = true -> g (g x) = g x) ->
  map (fun x => if p x then g x else x)
      (map (fun x => if p x then g x else x) l)
  = map (fun x => if p x then g x else x) l.
Proof.
  intros Hg. apply map_idempotent. intros x Hin.
  destruct (p x) eqn:Hx; [|now rewrite Hx].
  destruct (p (g x)) eqn:Hgx; [|reflexivity].
  now apply Hg.
Qed.

Lemma updateModule_twice (id : string) (patch : ModulePatch) (s : AddonState) :
  updateModule id patch (updateModule id patch s) = updateModule id patch s.
Proof.
  unfold updateModule, withModules. cbn [modules meta selectedModuleId selectedNodeId].
  f_equal. apply map_if_twice. intros md _ _ _. apply mergeModule_twice.
Qed.

Lemma updateNode_twice (moduleId nodeId : string) (patch : NodePatch)
  (s : AddonState) :
  updateNode moduleId nodeId patch (updateNode moduleId nodeId patch s)
  = updateNode moduleId nodeId patch s.
Proof.
  unfold updateNode, withModules. cbn [modules meta selectedModuleId selectedNodeId].
  f_equal. apply map_if_twice. intros md _ _ _.
  unfold withNodes. cbn [mod_id mod_name target mod_description dependencies
                           nodes commands].
  f_equal. apply map_if_twice. intros node _ _ _. apply mergeNode_twice.
Qed.

Lemma withPlaced_twice (placement : Placement) (node : BlueprintNode)
  (ps ps' : list BlueprintParameter) :
  withPlaced placement (withPlaced placement node ps) ps'
  = withPlaced placement node ps'.
Proof. now destruct placement. Qed.

Lemma placed_withPlaced (placement : Placement) (node : BlueprintNode)
  (ps : list BlueprintParameter) :
  placed placement (withPlaced placement node ps) = ps.
Proof. now destruct placement. Qed.

Lemma updateParameter_twice (moduleId nodeId : string) (placement : Placement)
  (paramId : string) (patch : ParameterPatch) (s : AddonState) :
  updateParameter moduleId nodeId placement paramId patch
    (updateParameter moduleId nodeId placement paramId patch s)
  = updateParameter moduleId nodeId placement paramId patch s.
Proof.
  unfold updateParameter, withModules.
  cbn [modules meta selectedModuleId selectedNodeId].
  f_equal. apply map_if_twice. intros md _ _ _.
  unfold withNodes. cbn [mod_id mod_name target mod_description dependencies
                           nodes commands].
  f_equal. apply map_if_twice. intros node _ _ _.
  rewrite placed_withPlaced, withPlaced_twice. f_equal.
  apply map_if_twice. intros param _ _ _. apply mergeParameter_twice.
Qed.

Lemma updateCommand_twice (moduleId commandId : string) (patch : CommandPatch)
  (s : AddonState) :
  updateCommand moduleId commandId patch (updateCommand moduleId commandId patch s)
  = updateCommand moduleId commandId patch s.
Proof.
  unfold updateCommand, withModules. cbn [modules meta selectedModuleId selectedNodeId].
  f_equal. apply map_if_twice. intros md _ _ _.
  unfold withCommands. cbn [mod_id mod_name target mod_description dependencies
                              nodes commands].
  f_equal. apply map_if_twice. intros command _ _ _. apply mergeCommand_twice.
Qed.

Lemma removeModule_twice (id : string) (s : AddonState) :
  removeModule id (removeModule id s) = removeModule id s.
Proof.
  unfold removeModule. cbn [modules meta withSelection].
  now rewrite filter_idempotent.
Qed.

Lemma removeNode_twice (moduleId nodeId : string) (s : AddonState) :
  removeNode moduleId nodeId (removeNode moduleId nodeId s)
  = removeNode moduleId nodeId s.
Proof.
  unfold removeNode. cbn [modules meta withSelection].
  rewrite map_if_twice; [reflexivity|].
  intros md _ _ _. unfold withNodes. cbn [nodes]. now rewrite filter_idempotent.
Qed.

Lemma removeParameter_twice (moduleId nodeId : string) (placement : Placement)
  (paramId : string) (s : AddonState) :
  removeParameter moduleId nodeId placement paramId
    (removeParameter moduleId nodeId placement paramId s)
  = removeParameter moduleId nodeId placement paramId s.
Proof.
  unfold removeParameter, withModules.
  cbn [modules meta selectedModuleId selectedNodeId].
  f_equal. apply map_if_twice. intros md _ _ _.
  unfold withNodes. cbn [mod_id mod_name target mod_description dependencies
                           nodes commands].
  f_equal. apply map_if_twice. intros node _ _ _.
  now rewrite placed_withPlaced, withPlaced_twice, filter_idempotent.
Qed.

Lemma removeCommand_twice (moduleId commandId : string) (s : AddonState) :
  removeCommand moduleId commandId (removeCommand moduleId commandId s)
  = removeCommand moduleId commandId s.
Proof.
  unfold removeCommand, withModules. cbn [modules meta selectedModuleId selectedNodeId].
  f_equal. apply map_if_twice. intros md _ _ _.
  unfold withCommands. cbn [commands]. now rewrite filter_idempotent.
Qed.

Lemma updateMeta_twice (u : MetaUpdate) (s : AddonState) :
  updateMeta u (updateMeta u s) = updateMeta u s.
Proof. unfold updateMeta. cbn. now rewrite mergeMeta_twice. Qed.

(** X1. Every operation that creates no entity is idempotent: doing an
    update, a removal, a selection or a reset twice in a row leaves the store
    as doing it once, whatever the patch and whatever the ids reference. *)
Theorem dispatch_twice (uuid : nat -> string) (a : Action) (st : Store) :
  creates a = false ->
  dispatch uuid a (dispatch uuid a st) = dispatch uuid a st.
Proof.
  destruct st as [s n].
  destruct a; cbn [creates]; intros Hcreates; try discriminate Hcreates;
    unfold dispatch; cbn [perform ret model draws]; f_equal;
    auto using updateMeta_twice, updateModule_twice, removeModule_twice,
      updateNode_twice, removeNode_twice, updateParameter_twice,
      removeParameter_twice, updateCommand_twice, removeCommand_twice.
Qed.

Lemma dispatch_twice_witness :
  dispatch demoUUID (UpdateModule "uuid-0" (idPatch "renamed"))
    (dispatch demoUUID (UpdateModule "uuid-0" (idPatch "renamed"))
       (initialStore demoUUID))
  = dispatch demoUUID (UpdateModule "uuid-0" (idPatch "renamed"))
      (initialStore demoUUID).
Proof.
  apply (dispatch_twice demoUUID (UpdateModule "uuid-0" (idPatch "renamed"))).
  reflexivity.
Defined.

Lemma perform_meta (uuid : nat -> string) (a : Action) (s : AddonState) (n : nat) :
  writesMeta a = false -> meta (fst (perform uuid a s n)) = meta s.
Proof.
  destruct a; cbn [writesMeta perform fst ret]; intros Hwrites;
    try discriminate Hwrites; try reflexivity.
  - unfold cloneModule, bind.
    destruct (findModule id (modules s)) as [existing|]; [|reflexivity].
    now destruct (cloneOf uuid existing n).
  - unfold addParameter, bind. now destruct (mapM _ (modules s) n).
  - unfold addCommand, bind. now destruct (mapM _ (modules s) n).
Qed.

(** X2. The meta data are written by [updateMeta] and [reset] only: every
    other operation leaves them as they were. *)
Theorem meta_kept (uuid : nat -> string) (a : Action) (st : Store) :
  writesMeta a = false ->
  meta (model (dispatch uuid a st)) = meta (model st).
Proof.
  intros Hwrites. rewrite model_dispatch. now apply perform_meta.
Qed.

Lemma meta_kept_witness :
  meta (model (dispatch demoUUID (CloneModule "uuid-0") (initialStore demoUUID)))
  = meta (model (initialStore demoUUID)).
Proof.
  apply (meta_kept demoUUID (CloneModule "uuid-0") (initialStore demoUUID)).
  reflexivity.
Defined.

(** X3. [selectModule], [addModule], [removeModule], [removeNode] and
    [reset], and [cloneModule] and [addNode] on the id of a module of the
    model, derive the selection anew: after them the selected node is null or
    a node of a module with the selected id, even when it was not before. *)
Theorem selection_rederived (uuid : nat -> string) (a : Action) (st : Store) :
  rederives a (model st) = true ->
  selectionConsistent (model (dispatch uuid a st)) = true.
Proof.
  destruct st as [s n]. rewrite model_dispatch. cbn [model draws].
  destruct a as [u|[id|]|[id|]| |id|id patch|id|moduleId|moduleId nodeId patch
                |moduleId nodeId|moduleId nodeId placement
                |moduleId nodeId placement paramId patch
                |moduleId nodeId placement paramId|moduleId
                |moduleId commandId patch|moduleId commandId| ];
    cbn [rederives perform fst ret]; intros Hderives;
    try discriminate Hderives; try reflexivity.
  - unfold selectModule.
    destruct (Js.truthy id); [apply select_found_consistent|reflexivity].
  - unfold addModule, bind.
    destruct (createModule uuid n) as [newModule n']. cbn [fst ret].
    apply select_member_consistent, in_or_app. right. now left.
  - unfold cloneModule.
    destruct (findModule id (modules s)) as [existing|] eqn:Hfind.
    + unfold bind. destruct (cloneOf uuid existing n) as [cloned n']. cbn [fst ret].
      apply select_member_consistent, in_or_app. right. now left.
    + unfold hasModule, findModule in *.
      destruct (existsb _ (modules s)) eqn:Hthere; [|discriminate Hderives].
      apply existsb_exists in Hthere as (md & Hin & Hid).
      now rewrite (find_none _ _ Hfind md Hin) in Hid.
  - unfold removeModule.
    set (ms := filter (fun md => negb (mod_id md =? id)) (modules s)).
    destruct (atLast ms) as [md|]; cbn [option_map]; [|reflexivity].
    destruct (Js.truthy (mod_id md) && negb (Nat.eqb (List.length ms) 0));
      [apply select_found_consistent|reflexivity].
  - now apply addNode_consistent.
  - unfold removeNode. apply select_found_consistent.
Qed.

Lemma selection_rederived_witness :
  selectionConsistent (strayState demoUUID) = false
  /\ selectionConsistent
       (model (dispatch demoUUID (SelectModule (Some "uuid-0"))
                 {| model := strayState demoUUID; draws := 5 |})) = true.
Proof.
  split; [reflexivity|].
  apply (selection_rederived demoUUID (SelectModule (Some "uuid-0"))
           {| model := strayState demoUUID; draws := 5 |}).
  reflexivity.
Defined.

(** X4. [addModule] keeps every module and appends one: the default
    module, whose ids are the next five draws; it selects that module and
    its one node. *)
Theorem addModule_appends (uuid : nat -> string) (st : Store) :
  exists md node,
    modules (model (dispatch uuid AddModule st)) = (modules (model st) ++ [md])%list
    /\ nodes md = [node]
    /\ selectedModuleId (model (dispatch uuid AddModule st)) = Some (mod_id md)
    /\ selectedNodeId (model (dispatch uuid AddModule st)) = Some (node_id node)
    /\ moduleIds md = map uuid (seq (draws st) 5)
    /\ anonModule md = anonModule (fst (createModule uuid 0))
    /\ draws (dispatch uuid AddModule st) = draws st + 5.
Proof.
  destruct st as [s n].
  eexists _, _. cbn [model draws]. unfold dispatch. cbn.
  repeat split. lia.
Qed.

Lemma atLast_In {A : Type} (l : list A) (x : A) : atLast l = Some x -> In x l.
Proof.
  induction l as [|y [|z l] IH]; intros Hlast; [discriminate Hlast| |].
  - injection Hlast as <-. now left.
  - right. now apply IH.
Qed.

Lemma atLast_None {A : Type} (l : list A) : atLast l = None -> l = [].
Proof.
  induction l as [|y [|z l] IH]; intros Hlast;
    [reflexivity|discriminate Hlast|].
  specialize (IH Hlast). discriminate IH.
Qed.

(** X5. After [removeModule id] no module has the id, the modules with
    another id are all kept, the meta data too, and the selection is the last
    module that is left, or null when none is. *)
Theorem removeModule_removes (id : string) (s : AddonState) :
  hasModule id (removeModule id s) = false
  /\ (forall md, In md (modules (removeModule id s))
                 <-> In md (modules s) /\ mod_id md <> id)
  /\ meta (removeModule id s) = meta s
  /\ selectedModuleId (removeModule id s)
     = option_map mod_id (atLast (modules (removeModule id s)))
  /\ (modules (removeModule id s) = [] <->
      selectedModuleId (removeModule id s) = None)
  /\ (selectedModuleId (removeModule id s) = None ->
      selectedNodeId (removeModule id s) = None).
Proof.
  unfold removeModule, hasModule.
  set (ms := filter (fun md => negb (mod_id md =? id)) (modules s)).
  cbn [modules meta selectedModuleId selectedNodeId withSelection].
  split; [|split; [|split; [|split; [|split]]]].
  - destruct (existsb (fun md => mod_id md =? id) ms) eqn:Hthere; [|reflexivity].
    apply existsb_exists in Hthere as (md & Hin & Hid).
    apply filter_In in Hin as [_ Hkept]. now rewrite Hid in Hkept.
  - intros md. subst ms. rewrite filter_In, negb_true_iff.
    split; intros [Hin Hid]; (split; [assumption|]).
    + intros Heq. rewrite Heq, String.eqb_refl in Hid. discriminate Hid.
    + now apply String.eqb_neq.
  - reflexivity.
  - reflexivity.
  - split.
    + now intros ->.
    + destruct (atLast ms) eqn:Hlast; [discriminate|].
      intros _. now apply atLast_None.
  - destruct (atLast ms); [discriminate|reflexivity].
Qed.

(** X6. With distinct module ids, [removeModule] selects the first node of
    the last module that is left, when that module has a non-empty id. *)
Theorem removeModule_selects_last (id : string) (s : AddonState) (md : AddonModule) :
  NoDup (map mod_id (modules s)) ->
  atLast (modules (removeModule id s)) = Some md ->
  mod_id md <> "" ->
  selectedModuleId (removeModule id s) = Some (mod_id md)
  /\ selectedNodeId (removeModule id s) = firstNodeId (Some md).
Proof.
  unfold removeModule.
  set (ms := filter (fun m => negb (mod_id m =? id)) (modules s)).
  cbn [modules selectedModuleId selectedNodeId withSelection].
  intros Hdistinct Hlast Hid. rewrite Hlast. cbn [option_map].
  split; [reflexivity|].
  assert (Htruthy : Js.truthy (mod_id md) = true).
  { unfold Js.truthy. apply negb_true_iff. now apply String.eqb_neq. }
  assert (Hin : In md ms) by now apply atLast_In.
  rewrite Htruthy.
  destruct ms as [|m0 ms0] eqn:Hms; [now destruct Hin|]. cbn [List.length Nat.eqb negb andb].
  rewrite <- Hms in *. rewrite findModule_member; [reflexivity| |assumption].
  subst ms. now apply NoDup_map_filter.
Qed.

Lemma removeModule_selects_last_witness :
  NoDup (map mod_id (modules (defaultState demoUUID)))
  /\ selectedNodeId (removeModule "other" (defaultState demoUUID)) = Some "uuid-1".
Proof.
  assert (Hdistinct : NoDup (map mod_id (modules (defaultState demoUUID))))
    by (repeat constructor; intros []).
  split; [exact Hdistinct|].
  apply (removeModule_selects_last "other" (defaultState demoUUID)
           (fst (createModule demoUUID 0)) Hdistinct eq_refl).
  discriminate.
Defined.

(** *** Looking an entity up after an operation *)

Section Lookup.

Context {A : Type} (key : A -> string) (k : string).

Lemma find_map_same (g : A -> A) (l : list A) :
  (forall x, key (g x) = key x) ->
  find (fun x => key x =? k) (map (fun x => if key x =? k then g x else x) l)
  = option_map g (find (fun x => key x =? k) l).
Proof.
  intros Hkey. induction l as [|x l IH]; [reflexivity|].
  cbn [map find]. destruct (key x =? k) eqn:Hx.
  - now rewrite Hkey, Hx.
  - now rewrite Hx.
Qed.

Lemma find_map_other (j : string) (g : A -> A) (l : list A) :
  j <> k -> (forall x, key (g x) = key x) ->
  find (fun x => key x =? j) (map (fun x => if key x =? k then g x else x) l)
  = find (fun x => key x =? j) l.
Proof.
  intros Hj Hkey. induction l as [|x l IH]; [reflexivity|].
  cbn [map find]. destruct (key x =? k) eqn:Hx; [|now rewrite IH].
  rewrite Hkey. apply String.eqb_eq in Hx.
  assert (Hother : (key x =? j) = false) by (apply String.eqb_neq; congruence).
  now rewrite Hother.
Qed.

Lemma find_mapM_same (h : A -> Gen A) (l : list A) (n : nat) :
  (forall x m, key (fst (h x m)) = key x) ->
  find (fun x => key x =? k)
       (fst (mapM (fun x => if key x =? k then h x else ret x) l n))
  = option_map (fun x => fst (h x n)) (find (fun x => key x =? k) l).
Proof.
  intros Hkey. revert n. induction l as [|x l IH]; intros n; [reflexivity|].
  rewrite mapM_cons. cbn [find]. destruct (key x =? k) eqn:Hx.
  - pose proof (Hkey x n) as Hkept. cbn [option_map].
    destruct (h x n) as [y n1].
    destruct (mapM _ l n1) as [ys n2]. cbn [fst find] in *.
    now rewrite Hkept, Hx.
  - cbn [ret]. specialize (IH n).
    destruct (mapM _ l n) as [ys n2]. cbn [fst find] in *.
    now rewrite Hx.
Qed.

Lemma find_mapM_other (j : string) (h : A -> Gen A) (l : list A) (n : nat) :
  j <> k -> (forall x m, key (fst (h x m)) = key x) ->
  find (fun x => key x =? j)
       (fst (mapM (fun x => if key x =? k then h x else ret x) l n))
  = find (fun x => key x =? j) l.
Proof.
  intros Hj Hkey. revert n. induction l as [|x l IH]; intros n; [reflexivity|].
  rewrite mapM_cons. cbn [find]. destruct (key x =? k) eqn:Hx.
  - pose proof (Hkey x n) as Hkept.
    destruct (h x n) as [y n1]. specialize (IH n1).
    destruct (mapM _ l n1) as [ys n2]. cbn [fst find] in *.
    apply String.eqb_eq in Hx.
    assert (Hother : (key x =? j) = false) by (apply String.eqb_neq; congruence).
    now rewrite Hkept, Hother.
  - cbn [ret]. specialize (IH n).
    destruct (mapM _ l n) as [ys n2]. cbn [fst find] in *.
    now rewrite IH.
Qed.

End Lookup.

(** X7. After [addNode moduleId] the module the id resolves to is the one
    it resolved to before with one node more at the end, the default node
    under the next three draws; every other id resolves as before, and the
    selection is that module id and the new node. *)
Theorem addNode_lookup (uuid : nat -> string) (moduleId : string) (st : Store) :
  let node := fst (createNode uuid (draws st)) in
  let st' := dispatch uuid (AddNode moduleId) st in
  findModule moduleId (modules (model st'))
  = option_map (fun md => withNodes md (nodes md ++ [node]))
      (findModule moduleId (modules (model st)))
  /\ (forall j, j <> moduleId ->
                findModule j (modules (model st')) = findModule j (modules (model st)))
  /\ selectedModuleId (model st') = Some moduleId
  /\ selectedNodeId (model st') = Some (node_id node)
  /\ nodeIds node = map uuid (seq (draws st) 3)
  /\ anonNode node = anonNode (fst (createNode uuid 0))
  /\ draws st' = draws st + 3.
Proof.
  destruct st as [s n]. cbn zeta. cbn [model draws].
  unfold dispatch. cbn [perform model draws]. unfold addNode, bind.
  destruct (createNode_spec uuid n) as [Hsnd Hids].
  assert (Hanon : anonNode (fst (createNode uuid n)) = anonNode (fst (createNode uuid 0)))
    by reflexivity.
  destruct (createNode uuid n) as [node n']. cbn [fst snd ret model draws] in *.
  cbn [modules selectedModuleId selectedNodeId withSelection].
  unfold findModule.
  split; [|split; [|repeat split; assumption]].
  - now apply find_map_same.
  - intros j Hj. now apply find_map_other.
Qed.

(** X8. After [removeNode moduleId nodeId] the module the id resolves to is
    the one it resolved to before without its nodes of that id, every other
    id resolves as before, the model has no such node under that module id,
    and the selection is that module id and the first node left in the
    module, or null. *)
Theorem removeNode_lookup (moduleId nodeId : string) (s : AddonState) :
  let s' := removeNode moduleId nodeId s in
  let without md :=
    withNodes md (filter (fun node => negb (node_id node =? nodeId)) (nodes md)) in
  findModule moduleId (modules s')
  = option_map without (findModule moduleId (modules s))
  /\ (forall j, j <> moduleId -> findModule j (modules s') = findModule j (modules s))
  /\ hasNode moduleId nodeId s' = false
  /\ selectedModuleId s' = Some moduleId
  /\ selectedNodeId s'
     = firstNodeId (option_map without (findModule moduleId (modules s))).
Proof.
  cbn zeta. unfold removeNode.
  cbn [modules selectedModuleId selectedNodeId withSelection].
  unfold findModule.
  rewrite find_map_same by reflexivity.
  split; [reflexivity|]. split; [|split; [|split; reflexivity]].
  - intros j Hj. now apply find_map_other.
  - unfold hasNode, nodeIn. cbn [modules withSelection].
    match goal with |- ?b = false => destruct b eqn:Hthere; [|reflexivity] end.
    apply existsb_exists in Hthere as (md' & Hin & Hboth).
    apply andb_true_iff in Hboth as [Hid Hnode].
    apply in_map_iff in Hin as (md & <- & Hin).
    destruct (mod_id md =? moduleId) eqn:Hmd; [|now rewrite Hmd in Hid].
    cbn [nodes withNodes] in Hnode.
    apply existsb_exists in Hnode as (node & Hnin & Hnid).
    apply filter_In in Hnin as [_ Hkept]. now rewrite Hnid in Hkept.
Qed.

Section Appending.

Variable uuid : nat -> string.

Lemma addCommand_modules (moduleId : string) (s : AddonState) (n : nat) :
  addCommand uuid moduleId s n
  = (withModules s
       (fst (mapM (fun md => if mod_id md =? moduleId then (commandStep uuid) md else ret md)
               (modules s) n)),
     snd (mapM (fun md => if mod_id md =? moduleId then (commandStep uuid) md else ret md)
            (modules s) n)).
Proof.
  unfold addCommand. unfold bind at 1.
  change (fun md : AddonModule =>
            if mod_id md =? moduleId
            then i <- randomUUID uuid ;;
                 ret (withCommands md
                        (commands md ++
                         [ {| cmd_id := i;
                              cmd_name := "NewCommand";
                              context := "LevelEditor";
                              hotkey := "Ctrl+Shift+N";
                              cmd_description := "Executes a custom command.";
                              script := "// Script body" |} ]))
            else ret md)
    with (fun md => if mod_id md =? moduleId then (commandStep uuid) md else ret md).
  now destruct (mapM _ (modules s) n).
Qed.

Lemma addParameter_modules (moduleId nodeId : string) (placement : Placement)
  (s : AddonState) (n : nat) :
  addParameter uuid moduleId nodeId placement s n
  = (withModules s
       (fst (mapM (fun md =>
                     if mod_id md =? moduleId
                     then (nodesStep uuid) nodeId placement md
                     else ret md)
               (modules s) n)),
     snd (mapM (fun md =>
                  if mod_id md =? moduleId
                  then (nodesStep uuid) nodeId placement md
                  else ret md)
            (modules s) n)).
Proof.
  unfold addParameter. unfold bind at 1.
  match goal with
  | |- (let (a, n') := mapM ?f _ _ in _) = _ =>
      change f with (fun md => if mod_id md =? moduleId
                               then (nodesStep uuid) nodeId placement md
                               else ret md)
  end.
  now destruct (mapM _ (modules s) n).
Qed.

Lemma nodesStep_fst (nodeId : string) (placement : Placement) (md : AddonModule)
  (m : nat) :
  fst ((nodesStep uuid) nodeId placement md m)
  = withNodes md
      (fst (mapM (fun node =>
                    if node_id node =? nodeId
                    then (parameterStep uuid) placement node
                    else ret node)
              (nodes md) m)).
Proof. unfold nodesStep, bind. now destruct (mapM _ (nodes md) m). Qed.

Lemma nodesStep_snd (nodeId : string) (placement : Placement) (md : AddonModule)
  (m : nat) :
  snd ((nodesStep uuid) nodeId placement md m)
  = snd (mapM (fun node =>
                 if node_id node =? nodeId
                 then (parameterStep uuid) placement node
                 else ret node)
           (nodes md) m).
Proof. unfold nodesStep, bind. now destruct (mapM _ (nodes md) m). Qed.

(** X9. After [addCommand moduleId] the module the id resolves to is the
    one it resolved to before with the command NewCommand appended under the
    next draw; every other id resolves as before, and the selection and the
    meta data are kept. *)
Theorem addCommand_lookup (moduleId : string) (st : Store) :
  let st' := dispatch uuid (AddCommand moduleId) st in
  findModule moduleId (modules (model st'))
  = option_map
      (fun md => withCommands md (commands md ++ [newCommand (uuid (draws st))]))
      (findModule moduleId (modules (model st)))
  /\ (forall j, j <> moduleId ->
                findModule j (modules (model st')) = findModule j (modules (model st)))
  /\ selectedModuleId (model st') = selectedModuleId (model st)
  /\ selectedNodeId (model st') = selectedNodeId (model st)
  /\ meta (model st') = meta (model st).
Proof.
  destruct st as [s n]. cbn zeta. unfold dispatch. cbn [perform model draws].
  rewrite addCommand_modules. cbn [model modules withModules
                                     selectedModuleId selectedNodeId meta].
  unfold findModule.
  split; [|split; [|now repeat split]].
  - now rewrite (find_mapM_same mod_id moduleId (commandStep uuid)).
  - intros j Hj. now apply (find_mapM_other mod_id moduleId j (commandStep uuid)).
Qed.

(** X10. After [addParameter moduleId nodeId placement], in the module the
    module id resolves to, the node the node id resolves to has one
    parameter more at the end of that placement, named InputParam or
    OutputParam, of kind string, under the next draw; the other fields of
    the module, every other node id in it and every other module id resolve
    as before, and the selection is kept. *)
Theorem addParameter_lookup (moduleId nodeId : string) (placement : Placement)
  (st : Store) (md : AddonModule) :
  findModule moduleId (modules (model st)) = Some md ->
  let st' := dispatch uuid (AddParameter moduleId nodeId placement) st in
  exists md',
    findModule moduleId (modules (model st')) = Some md'
    /\ md' = withNodes md (nodes md')
    /\ findNode nodeId md'
       = option_map
           (fun node =>
              withPlaced placement node
                (placed placement node
                   ++ [newParameter placement (uuid (draws st))]))
           (findNode nodeId md)
    /\ (forall j, j <> nodeId -> findNode j md' = findNode j md)
    /\ (forall j, j <> moduleId ->
                  findModule j (modules (model st')) = findModule j (modules (model st)))
    /\ selectedModuleId (model st') = selectedModuleId (model st)
    /\ selectedNodeId (model st') = selectedNodeId (model st).
Proof.
  destruct st as [s n]. cbn [model draws]. intros Hfind. cbn zeta.
  unfold dispatch. cbn [perform model draws].
  rewrite addParameter_modules.
  cbn [model modules withModules selectedModuleId selectedNodeId].
  assert (Hkey : forall x m, mod_id (fst ((nodesStep uuid) nodeId placement x m)) = mod_id x)
    by (intros x m; now rewrite nodesStep_fst).
  assert (Hnkey : forall x m,
             node_id (fst ((parameterStep uuid) placement x m)) = node_id x)
    by (intros x m; now destruct placement).
  unfold findModule in *.
  rewrite (find_mapM_same mod_id moduleId ((nodesStep uuid) nodeId placement) _ _ Hkey).
  rewrite Hfind. cbn [option_map].
  eexists. split; [reflexivity|].
  rewrite nodesStep_fst. unfold findNode. cbn [nodes withNodes].
  split; [reflexivity|]. split; [|split; [|split; [|now split]]].
  - now rewrite (find_mapM_same node_id nodeId ((parameterStep uuid) placement) _ _ Hnkey).
  - intros j Hj.
    now apply (find_mapM_other node_id nodeId j ((parameterStep uuid) placement)).
  - intros j Hj.
    now apply (find_mapM_other mod_id moduleId j ((nodesStep uuid) nodeId placement)).
Qed.

End Appending.

Lemma addParameter_lookup_witness :
  findModule "uuid-0" (modules (model (initialStore demoUUID)))
  = Some (fst (createModule demoUUID 0))
  /\ exists md',
       findModule "uuid-0"
         (modules (model (dispatch demoUUID (AddParameter "uuid-0" "uuid-1" Outputs)
                            (initialStore demoUUID)))) = Some md'
       /\ findNode "uuid-1" md'
          = option_map
              (fun node =>
                 withPlaced Outputs node
                   (placed Outputs node ++ [newParameter Outputs "uuid-5"]))
              (findNode "uuid-1" (fst (createModule demoUUID 0))).
Proof.
  split; [reflexivity|].
  destruct (addParameter_lookup demoUUID "uuid-0" "uuid-1" Outputs
              (initialStore demoUUID) (fst (createModule demoUUID 0)) eq_refl)
    as (md' & Hfind & _ & Hnode & _).
  exists md'. split; [exact Hfind|exact Hnode].
Defined.

(** *** Adding an entity and removing it again *)

Lemma map_map_back {A : Type} (f g : A -> A) (l : list A) :
  (forall x, In x l -> g (f x) = x) -> map g (map f l) = l.
Proof.
  intros Hback. rewrite map_map. rewrite <- (map_id l) at 2.
  apply map_ext_in. exact Hback.
Qed.

Lemma filter_snoc_out {A : Type} (keep : A -> bool) (l : list A) (x : A) :
  (forall y, In y l -> keep y = true) -> keep x = false ->
  filter keep (l ++ [x]) = l.
Proof.
  intros Hl Hx. rewrite filter_app, (filter_all keep l Hl). cbn [filter].
  rewrite Hx. apply app_nil_r.
Qed.

(** With distinct keys at most one element matches, and it takes the draw
    at which the traversal starts. *)
Lemma mapM_unique_key {A : Type} (key : A -> string) (k : string)
  (h : A -> Gen A) (l : list A) (n : nat) :
  NoDup (map key l) ->
  fst (mapM (fun x => if key x =? k then h x else ret x) l n)
  = map (fun x => if key x =? k then fst (h x n) else x) l.
Proof.
  revert n. induction l as [|x l IH]; intros n Hdistinct; [reflexivity|].
  cbn [map] in Hdistinct. apply NoDup_cons_iff in Hdistinct as [Hfresh Hdistinct].
  rewrite mapM_cons. cbn [map]. destruct (key x =? k) eqn:Hx.
  - assert (Hrest : forall y, In y l -> (key y =? k) = false).
    { intros y Hin. apply String.eqb_neq. intros Hy. apply Hfresh.
      apply String.eqb_eq in Hx. rewrite Hx, <- Hy. now apply in_map. }
    destruct (h x n) as [y n1]. cbn [fst].
    rewrite mapM_fixed
      by (intros z Hin Hz; now rewrite (Hrest z Hin) in Hz).
    cbn [fst]. f_equal. symmetry. apply map_fixed.
    intros z Hin Hz. now rewrite (Hrest z Hin) in Hz.
  - cbn [ret]. specialize (IH n Hdistinct).
    destruct (mapM _ l n) as [ys n2]. cbn [fst] in *. now rewrite IH.
Qed.

Lemma anyNode_false (nodeId : string) (s : AddonState) :
  anyNode nodeId s = false ->
  forall md, In md (modules s) ->
  forall node, In node (nodes md) -> (node_id node =? nodeId) = false.
Proof.
  intros Hnone md Hin node Hnode.
  pose proof (existsb_false_In _ _ Hnone md Hin) as Hmd. cbn beta in Hmd.
  exact (existsb_false_In _ _ Hmd node Hnode).
Qed.

Section RoundTrips.

Variable uuid : nat -> string.

(** X11. Removing the module that [addModule] or [cloneModule] has just
    appended gives the modules list back, when no module had the drawn id
    before. *)
Theorem append_removeModule (a : Action) (st : Store) :
  appendsModule a = true ->
  hasModule (uuid (draws st)) (model st) = false ->
  modules (model (dispatch uuid (RemoveModule (uuid (draws st))) (dispatch uuid a st)))
  = modules (model st).
Proof.
  destruct st as [s n]. cbn [model draws]. intros Happends Hfresh.
  assert (Hkeep : forall md, In md (modules s) ->
                             negb (mod_id md =? uuid n) = true).
  { intros md Hin. now rewrite (hasModule_false _ _ Hfresh md Hin). }
  assert (Hsnoc : forall (s0 : AddonState) md m sel1 sel2,
             mod_id md = uuid n ->
             modules (model (dispatch uuid (RemoveModule (uuid n))
                               {| model := withSelection s0 (modules s ++ [md]) sel1 sel2;
                                  draws := m |}))
             = modules s).
  { intros s0 md m sel1 sel2 Hid. unfold dispatch.
    cbn [perform model draws ret]. unfold removeModule.
    cbn [modules withSelection]. apply filter_snoc_out; [exact Hkeep|].
    now rewrite Hid, String.eqb_refl. }
  destruct a; try discriminate Happends.
  - unfold dispatch at 2. cbn [perform model draws]. unfold addModule, bind.
    destruct (createModule_spec uuid n) as [_ Hids].
    destruct (createModule uuid n) as [md n']. cbn [fst ret] in *.
    apply Hsnoc. unfold moduleIds in Hids. now injection Hids.
  - unfold dispatch at 2. cbn [perform model draws]. unfold cloneModule.
    destruct (findModule id (modules s)) as [existing|].
    + unfold bind.
      destruct (cloneOf_spec uuid existing n) as (_ & Hids & _).
      destruct (cloneOf uuid existing n) as [md n']. cbn [fst ret] in *.
      apply Hsnoc. unfold moduleIds, moduleSize in Hids. now injection Hids.
    + cbn [ret]. unfold dispatch. cbn [perform model draws ret].
      unfold removeModule. cbn [modules withSelection].
      now apply filter_all.
Qed.

(** X12. [removeNode] of the node that [addNode] has just appended gives
    the modules list back, when no node had the drawn id before. *)
Theorem addNode_removeNode (moduleId : string) (st : Store) :
  anyNode (uuid (draws st)) (model st) = false ->
  modules (model (dispatch uuid (RemoveNode moduleId (uuid (draws st)))
                    (dispatch uuid (AddNode moduleId) st)))
  = modules (model st).
Proof.
  destruct st as [s n]. cbn [model draws]. intros Hfresh.
  unfold dispatch at 2. cbn [perform model draws]. unfold addNode, bind.
  destruct (createNode_spec uuid n) as [_ Hids].
  destruct (createNode uuid n) as [node n']. cbn [fst ret] in *.
  assert (Hid : node_id node = uuid n)
    by (unfold nodeIds in Hids; now injection Hids).
  unfold dispatch. cbn [perform model draws ret]. unfold removeNode.
  cbn [modules withSelection].
  apply map_map_back. intros md Hin.
  destruct (mod_id md =? moduleId) eqn:Hmd; [|now rewrite Hmd].
  cbn [mod_id withNodes]. rewrite Hmd. unfold withNodes at 1.
  cbn [mod_id mod_name target mod_description dependencies nodes commands withNodes].
  rewrite filter_snoc_out.
  - now destruct md.
  - intros other Hother. now rewrite (anyNode_false _ _ Hfresh md Hin other Hother).
  - now rewrite Hid, String.eqb_refl.
Qed.

(** X13. With distinct module ids, [removeCommand] of the command that
    [addCommand] has just appended gives the model back, when the module had
    no command of the drawn id before. *)
Theorem addCommand_removeCommand (moduleId : string) (st : Store) :
  NoDup (map mod_id (modules (model st))) ->
  hasCommand moduleId (uuid (draws st)) (model st) = false ->
  model (dispatch uuid (RemoveCommand moduleId (uuid (draws st)))
           (dispatch uuid (AddCommand moduleId) st))
  = model st.
Proof.
  destruct st as [s n]. cbn [model draws]. intros Hdistinct Hfresh.
  unfold dispatch at 2. cbn [perform model draws].
  rewrite addCommand_modules.
  rewrite (mapM_unique_key mod_id moduleId (commandStep uuid) _ _ Hdistinct).
  unfold dispatch. cbn [perform model draws ret]. unfold removeCommand.
  cbn [modules withModules meta selectedModuleId selectedNodeId].
  rewrite map_map_back; [now destruct s|].
  intros md Hin.
  destruct (mod_id md =? moduleId) eqn:Hmd; [|now rewrite Hmd].
  cbn [fst commandStep mod_id withCommands]. rewrite Hmd.
  unfold withCommands at 1.
  cbn [mod_id mod_name target mod_description dependencies nodes commands
         withCommands].
  rewrite filter_snoc_out.
  - now destruct md.
  - intros other Hother.
    now rewrite (hasCommand_false _ _ _ Hfresh md Hin Hmd other Hother).
  - cbn [cmd_id newCommand]. now rewrite String.eqb_refl.
Qed.

(** X14. With ids unique in their collections, [removeParameter] of the
    parameter that [addParameter] has just appended gives the model back,
    when the node had no parameter of the drawn id in that placement. *)
Theorem addParameter_removeParameter (moduleId nodeId : string)
  (placement : Placement) (st : Store) :
  UniqueIds (model st) ->
  hasParameter moduleId nodeId placement (uuid (draws st)) (model st) = false ->
  model (dispatch uuid (RemoveParameter moduleId nodeId placement (uuid (draws st)))
           (dispatch uuid (AddParameter moduleId nodeId placement) st))
  = model st.
Proof.
  destruct st as [s n]. cbn [model draws]. intros [Hdistinct Hunique] Hfresh.
  unfold dispatch at 2. cbn [perform model draws].
  rewrite addParameter_modules.
  rewrite (mapM_unique_key mod_id moduleId (nodesStep uuid nodeId placement)
             _ _ Hdistinct).
  unfold dispatch. cbn [perform model draws ret]. unfold removeParameter.
  cbn [modules withModules meta selectedModuleId selectedNodeId].
  rewrite map_map_back; [now destruct s|].
  intros md Hin.
  destruct (mod_id md =? moduleId) eqn:Hmd; [|now rewrite Hmd].
  rewrite nodesStep_fst. cbn [mod_id withNodes]. rewrite Hmd.
  unfold withNodes at 1.
  cbn [mod_id mod_name target mod_description dependencies nodes commands withNodes].
  destruct (proj1 (Forall_forall _ _) Hunique md Hin) as (Hnodes & _ & _).
  rewrite (mapM_unique_key node_id nodeId (parameterStep uuid placement)
             _ _ Hnodes).
  rewrite map_map_back; [now destruct md|].
  intros node Hnode.
  destruct (node_id node =? nodeId) eqn:Hnid; [|now rewrite Hnid].
  assert (Hkept : node_id (fst (parameterStep uuid placement node n)) = node_id node)
    by now destruct placement.
  rewrite Hkept, Hnid.
  unfold parameterStep. cbn [fst].
  rewrite placed_withPlaced, withPlaced_twice, filter_snoc_out.
  - apply withPlaced_same.
  - intros other Hother.
    now rewrite (hasParameter_false _ _ _ _ _ Hfresh md Hin Hmd node Hnode Hnid
                   other Hother).
  - now rewrite String.eqb_refl.
Qed.

End RoundTrips.

Lemma append_removeModule_witness :
  hasModule (demoUUID 5) (model (initialStore demoUUID)) = false
  /\ modules (model (dispatch demoUUID (RemoveModule (demoUUID 5))
                       (dispatch demoUUID (CloneModule "uuid-0")
                          (initialStore demoUUID))))
     = modules (model (initialStore demoUUID)).
Proof.
  split; [reflexivity|].
  apply (append_removeModule demoUUID (CloneModule "uuid-0") (initialStore demoUUID));
    reflexivity.
Defined.

Lemma addNode_removeNode_witness :
  anyNode (demoUUID 5) (model (initialStore demoUUID)) = false
  /\ modules (model (dispatch demoUUID (RemoveNode "uuid-0" (demoUUID 5))
                       (dispatch demoUUID (AddNode "uuid-0") (initialStore demoUUID))))
     = modules (model (initialStore demoUUID)).
Proof.
  split; [reflexivity|].
  apply (addNode_removeNode demoUUID "uuid-0" (initialStore demoUUID)).
  reflexivity.
Defined.

Lemma default_unique : UniqueIds (model (initialStore demoUUID)).
Proof.
  split; [repeat constructor; intros []|].
  repeat constructor; intros [].
Qed.

Lemma addCommand_removeCommand_witness :
  NoDup (map mod_id (modules (model (initialStore demoUUID))))
  /\ hasCommand "uuid-0" (demoUUID 5) (model (initialStore demoUUID)) = false
  /\ model (dispatch demoUUID (RemoveCommand "uuid-0" (demoUUID 5))
              (dispatch demoUUID (AddCommand "uuid-0") (initialStore demoUUID)))
     = model (initialStore demoUUID).
Proof.
  split; [exact (proj1 default_unique)|]. split; [reflexivity|].
  apply (addCommand_removeCommand demoUUID "uuid-0" (initialStore demoUUID)
           (proj1 default_unique)).
  reflexivity.
Defined.

Lemma addParameter_removeParameter_witness :
  UniqueIds (model (initialStore demoUUID))
  /\ hasParameter "uuid-0" "uuid-1" Inputs (demoUUID 5)
       (model (initialStore demoUUID)) = false
  /\ model (dispatch demoUUID (RemoveParameter "uuid-0" "uuid-1" Inputs (demoUUID 5))
              (dispatch demoUUID (AddParameter "uuid-0" "uuid-1" Inputs)
                 (initialStore demoUUID)))
     = model (initialStore demoUUID).
Proof.
  split; [exact default_unique|]. split; [reflexivity|].
  apply (addParameter_removeParameter demoUUID "uuid-0" "uuid-1" Inputs
           (initialStore demoUUID) default_unique).
  reflexivity.
Defined.

(** *** The ids of a model across an operation *)

Lemma NoDup_app_disjoint {A : Type} (l1 l2 : list A) (x : A) :
  NoDup (l1 ++ l2) -> In x l1 -> ~ In x l2.
Proof.
  induction l1 as [|y l1 IH]; intros Hnd Hin Hin2; [now destruct Hin|].
  cbn [app] in Hnd. apply NoDup_cons_iff in Hnd as [Hfresh Hnd].
  destruct Hin as [->|Hin].
  - apply Hfresh, in_or_app. now right.
  - now apply (IH Hnd Hin).
Qed.

Lemma flat_map_filter_incl {A B : Type} (f : A -> list B) (keep : A -> bool)
  (l : list A) (x : B) :
  In x (flat_map f (filter keep l)) -> In x (flat_map f l).
Proof.
  rewrite !in_flat_map. intros (a & Ha & Hx).
  apply filter_In in Ha as [Ha _]. now exists a.
Qed.

Lemma flat_map_filter_gone {A B : Type} (f : A -> list B) (keep : A -> bool)
  (l : list A) (a : A) (x : B) :
  NoDup (flat_map f l) -> In a l -> keep a = false -> In x (f a) ->
  ~ In x (flat_map f (filter keep l)).
Proof.
  induction l as [|b l IH]; intros Hnd Ha Hdropped Hx; [now destruct Ha|].
  cbn [flat_map] in Hnd. cbn [filter].
  destruct Ha as [->|Ha].
  - rewrite Hdropped. intros Hin.
    apply (NoDup_app_disjoint _ _ x Hnd Hx).
    now apply (flat_map_filter_incl f keep).
  - pose proof (IH (NoDup_app_remove_l _ _ Hnd) Ha Hdropped Hx) as Hrest.
    destruct (keep b); [|assumption].
    cbn [flat_map]. intros Hin. apply in_app_or in Hin as [Hin|Hin].
    + apply (NoDup_app_disjoint _ _ x Hnd Hin).
      apply in_flat_map. now exists a.
    + now apply Hrest.
Qed.

(** X15. When no id occurs twice in the model, [removeModule] takes the
    nodes, parameters and commands of the removed module along: none of its
    ids is left in the model. *)
Theorem removeModule_cascade (id : string) (s : AddonState) (md : AddonModule)
  (x : string) :
  NoDup (stateIds s) ->
  In md (modules s) -> mod_id md = id -> In x (moduleIds md) ->
  ~ In x (stateIds (removeModule id s)).
Proof.
  intros Hnd Hin Hid Hx. unfold stateIds, removeModule.
  cbn [modules withSelection].
  apply (flat_map_filter_gone moduleIds _ (modules s) md x Hnd Hin); [|assumption].
  now rewrite Hid, String.eqb_refl.
Qed.

Lemma removeModule_cascade_witness :
  NoDup (stateIds (defaultState demoUUID))
  /\ ~ In "uuid-3" (stateIds (removeModule "uuid-0" (defaultState demoUUID))).
Proof.
  assert (Hnd : NoDup (stateIds (defaultState demoUUID))).
  { pose proof (NoDup_draws demoUUID demoUUID_never_repeats 0 5) as Hdraws.
    exact Hdraws. }
  split; [exact Hnd|].
  apply (removeModule_cascade "uuid-0" (defaultState demoUUID)
           (fst (createModule demoUUID 0)) "uuid-3" Hnd).
  - now left.
  - reflexivity.
  - cbn. tauto.
Defined.

Lemma flat_map_map_if {A B : Type} (f : A -> list B) (p : A -> bool) (g : A -> A)
  (l : list A) :
  (forall x, f (g x) = f x) ->
  flat_map f (map (fun x => if p x then g x else x) l) = flat_map f l.
Proof.
  intros Hsame. induction l as [|x l IH]; [reflexivity|].
  cbn [map flat_map]. rewrite IH. now destruct (p x); [rewrite Hsame|].
Qed.

(** An operation that edits in place draws nothing and keeps the ids. *)
Lemma perform_edits_ids (uuid : nat -> string) (a : Action) (s : AddonState)
  (n : nat) :
  editsInPlace a = true ->
  stateIds (fst (perform uuid a s n)) = stateIds s
  /\ snd (perform uuid a s n) = n.
Proof.
  destruct a; cbn [editsInPlace keepsIds perform fst snd ret]; intros Hedits;
    try discriminate Hedits; (split; [|reflexivity]); try reflexivity;
    unfold stateIds.
  - unfold updateModule. cbn [modules withModules].
    apply flat_map_map_if. intros md.
    destruct patch as [[?|] ? ? ? ? [?|] [?|]]; try discriminate Hedits.
    reflexivity.
  - unfold updateNode. cbn [modules withModules].
    apply flat_map_map_if. intros md. unfold moduleIds.
    cbn [mod_id nodes commands withNodes]. do 2 f_equal.
    apply flat_map_map_if. intros node.
    destruct patch as [[?|] ? ? ? [?|] [?|] ?]; try discriminate Hedits.
    reflexivity.
  - unfold updateParameter. cbn [modules withModules].
    apply flat_map_map_if. intros md. unfold moduleIds.
    cbn [mod_id nodes commands withNodes]. do 2 f_equal.
    apply flat_map_map_if. intros node.
    assert (Hsame : map param_id
                      (map (fun param =>
                              if param_id param =? paramId
                              then mergeParameter param patch else param)
                           (placed placement node))
                    = map param_id (placed placement node)).
    { apply map_if_same. intros param.
      destruct patch as [[?|] ? ? ? ? ?]; [discriminate Hedits|reflexivity]. }
    unfold nodeIds. destruct placement; cbn [node_id inputs outputs withPlaced placed] in *;
      now rewrite Hsame.
  - unfold updateCommand. cbn [modules withModules].
    apply flat_map_map_if. intros md. unfold moduleIds.
    cbn [mod_id nodes commands withCommands]. do 2 f_equal.
    apply map_if_same. intros command.
    destruct patch as [[?|] ? ? ? ? ?]; [discriminate Hedits|reflexivity].
Qed.

(** X16. Selections, [updateMeta] and updates whose patch sets neither an
    id nor a list of nested entities create and delete nothing: the ids of
    the model, in their order, are the same after the operation. *)
Theorem edits_keep_ids (uuid : nat -> string) (a : Action) (st : Store) :
  editsInPlace a = true ->
  stateIds (model (dispatch uuid a st)) = stateIds (model st).
Proof.
  intros Hedits. rewrite model_dispatch.
  exact (proj1 (perform_edits_ids uuid a (model st) (draws st) Hedits)).
Qed.

Lemma edits_keep_ids_witness :
  stateIds (model (dispatch demoUUID (UpdateNode "uuid-0" "uuid-1" (titlePatch "Run"))
                     (initialStore demoUUID)))
  = stateIds (model (initialStore demoUUID)).
Proof.
  apply (edits_keep_ids demoUUID (UpdateNode "uuid-0" "uuid-1" (titlePatch "Run"))
           (initialStore demoUUID)).
  reflexivity.
Defined.

(** ** Identifiers are never shared across the model *)

Section GlobalIds.

Variable uuid : nat -> string.

Lemma IdEdit_refl (n : nat) (l : list string) : IdEdit uuid n l n l.
Proof. induction l as [|x l IH]; now constructor. Qed.

Lemma IdEdit_app (n m n' : nat) (l1 l1' l2 l2' : list string) :
  IdEdit uuid n l1 m l1' -> IdEdit uuid m l2 n' l2' ->
  IdEdit uuid n (l1 ++ l2)%list n' (l1' ++ l2')%list.
Proof.
  intros Hfirst Hsecond.
  induction Hfirst as [k|k k' x l l' _ IH|k k' x l l' _ IH|k k' l l' _ IH
                      |k k' l l' _ IH]; cbn [app].
  - exact Hsecond.
  - apply edit_keep. now apply IH.
  - apply edit_drop. now apply IH.
  - apply edit_draw. now apply IH.
  - apply edit_skip. now apply IH.
Qed.

Lemma IdEdit_drop_all (n : nat) (l : list string) : IdEdit uuid n l n [].
Proof. induction l as [|x l IH]; now constructor. Qed.

Lemma IdEdit_unused (n k : nat) (l : list string) : IdEdit uuid n l (n + k) l.
Proof.
  revert n. induction k as [|k IH]; intros n.
  - rewrite Nat.add_0_r. apply IdEdit_refl.
  - apply edit_skip. replace (n + S k) with (S n + k) by lia. apply IH.
Qed.

Lemma IdEdit_draws (n k : nat) :
  IdEdit uuid n [] (n + k) (map uuid (seq n k)).
Proof.
  revert n. induction k as [|k IH]; intros n.
  - rewrite Nat.add_0_r. apply edit_done.
  - cbn [seq map]. apply edit_draw.
    replace (n + S k) with (S n + k) by lia. apply IH.
Qed.

(** Draws appended at the end of a list. *)
Lemma IdEdit_snoc (n k : nat) (l : list string) :
  IdEdit uuid n l (n + k) (l ++ map uuid (seq n k))%list.
Proof.
  rewrite <- (app_nil_r l) at 1.
  apply (IdEdit_app n n); [apply IdEdit_refl|apply IdEdit_draws].
Qed.

Lemma IdEdit_snoc_one (n : nat) (l : list string) :
  IdEdit uuid n l (S n) (l ++ [uuid n])%list.
Proof.
  pose proof (IdEdit_snoc n 1 l) as Hone.
  now rewrite Nat.add_1_r in Hone.
Qed.

Lemma IdEdit_map_filter {V : Type} (key : V -> string) (keep : V -> bool)
  (n : nat) (items : list V) :
  IdEdit uuid n (map key items) n (map key (filter keep items)).
Proof.
  induction items as [|v items IH]; [apply edit_done|].
  cbn [map filter]. destruct (keep v); cbn [map]; now constructor.
Qed.

Lemma IdEdit_flat_map_filter {V : Type} (ids : V -> list string)
  (keep : V -> bool) (n : nat) (items : list V) :
  IdEdit uuid n (flat_map ids items) n (flat_map ids (filter keep items)).
Proof.
  induction items as [|v items IH]; [apply edit_done|].
  cbn [flat_map filter]. destruct (keep v); cbn [flat_map].
  - apply (IdEdit_app n n); [apply IdEdit_refl|exact IH].
  - rewrite <- (app_nil_l (flat_map ids (filter keep items))).
    apply (IdEdit_app n n); [apply IdEdit_drop_all|exact IH].
Qed.

(** An edit of every element, without draws, is an edit of the whole. *)
Lemma IdEdit_map {V : Type} (ids : V -> list string) (g : V -> V) (n : nat)
  (items : list V) :
  (forall v, IdEdit uuid n (ids v) n (ids (g v))) ->
  IdEdit uuid n (flat_map ids items) n (flat_map ids (map g items)).
Proof.
  intros Hone. induction items as [|v items IH]; [apply edit_done|].
  cbn [map flat_map]. apply (IdEdit_app n n); [apply Hone|exact IH].
Qed.

(** The same for a traversal that threads the counter of draws. *)
Lemma IdEdit_mapM {V : Type} (ids : V -> list string) (h : V -> Gen V)
  (items : list V) (n : nat) :
  (forall v m, IdEdit uuid m (ids v) (snd (h v m)) (ids (fst (h v m)))) ->
  IdEdit uuid n (flat_map ids items) (snd (mapM h items n))
    (flat_map ids (fst (mapM h items n))).
Proof.
  intros Hone. revert n. induction items as [|v items IH]; intros n.
  - apply edit_done.
  - rewrite mapM_cons. specialize (Hone v n).
    destruct (h v n) as [w n1]. cbn [fst snd] in Hone.
    specialize (IH n1). destruct (mapM h items n1) as [ws n2].
    cbn [fst snd flat_map] in *.
    now apply (IdEdit_app n n1).
Qed.

(** With a generator that never repeats, an edit of a list of distinct
    draws gives a list of distinct draws. *)
Lemma IdEdit_sound (n n' : nat) (l l' : list string) :
  NeverRepeats uuid ->
  IdEdit uuid n l n' l' ->
  n <= n'
  /\ (forall x, In x l' -> In x l \/ exists k, n <= k < n' /\ x = uuid k)
  /\ (Forall (drawn uuid n) l -> NoDup l -> NoDup l').
Proof.
  intros Hgen Hedit.
  induction Hedit as [k|k k' x l l' _ (Hle & Hfrom & Hdistinct)
                      |k k' x l l' _ (Hle & Hfrom & Hdistinct)
                      |k k' l l' _ (Hle & Hfrom & Hdistinct)
                      |k k' l l' _ (Hle & Hfrom & Hdistinct)].
  - split; [lia|]. split; [intros x []|]. intros _ _. constructor.
  - split; [assumption|]. split.
    + intros y [->|Hin]; [left; now left|].
      destruct (Hfrom y Hin) as [Hold|Hnew]; [left; now right|now right].
    + intros Hdrawn Hnd. apply Forall_cons_iff in Hdrawn as [Hx Hdrawn].
      apply NoDup_cons_iff in Hnd as [Hfresh Hnd].
      constructor; [|now apply Hdistinct].
      intros Hin. destruct (Hfrom x Hin) as [Hold|(j & Hj & Heq)];
        [now apply Hfresh|].
      destruct Hx as (i & Hi & Hxi). rewrite Hxi in Heq.
      apply Hgen in Heq. lia.
  - split; [assumption|]. split.
    + intros y Hin.
      destruct (Hfrom y Hin) as [Hold|Hnew]; [left; now right|now right].
    + intros Hdrawn Hnd. apply Forall_cons_iff in Hdrawn as [_ Hdrawn].
      apply NoDup_cons_iff in Hnd as [_ Hnd]. now apply Hdistinct.
  - split; [lia|]. split.
    + intros y [<-|Hin]; [right; exists k; split; [lia|reflexivity]|].
      destruct (Hfrom y Hin) as [Hold|(j & Hj & Heq)]; [now left|].
      right. exists j. split; [lia|assumption].
    + intros Hdrawn Hnd. constructor.
      * intros Hin. destruct (Hfrom _ Hin) as [Hold|(j & Hj & Heq)].
        -- destruct (proj1 (Forall_forall _ _) Hdrawn _ Hold) as (i & Hi & Hxi).
           apply Hgen in Hxi. lia.
        -- apply Hgen in Heq. lia.
      * apply Hdistinct; [|assumption].
        revert Hdrawn. apply Forall_impl. intros y (i & Hi & Hyi).
        exists i. split; [lia|assumption].
  - split; [lia|]. split.
    + intros y Hin.
      destruct (Hfrom y Hin) as [Hold|(j & Hj & Heq)]; [now left|].
      right. exists j. split; [lia|assumption].
    + intros Hdrawn Hnd. apply Hdistinct; [|assumption].
      revert Hdrawn. apply Forall_impl. intros y (i & Hi & Hyi).
      exists i. split; [lia|assumption].
Qed.

(** Distinct ids in the model make the module ids distinct. *)
Lemma stateIds_module_ids (ms : list AddonModule) :
  NoDup (flat_map moduleIds ms) -> NoDup (map mod_id ms).
Proof.
  induction ms as [|md ms IH]; intros Hnd; [constructor|].
  cbn [flat_map map] in *. constructor.
  - intros Hin. apply in_map_iff in Hin as (other & Hsame & Hother).
    apply (NoDup_app_disjoint _ _ (mod_id md) Hnd); [now left|].
    apply in_flat_map. exists other. split; [assumption|].
    left. exact Hsame.
  - apply IH. exact (NoDup_app_remove_l _ _ Hnd).
Qed.

(** *** The edit of each operation *)

Lemma removeModule_edit (id : string) (s : AddonState) (n : nat) :
  IdEdit uuid n (stateIds s) n (stateIds (removeModule id s)).
Proof.
  unfold stateIds, removeModule. cbn [modules withSelection].
  apply IdEdit_flat_map_filter.
Qed.

Lemma removeNode_edit (moduleId nodeId : string) (s : AddonState) (n : nat) :
  IdEdit uuid n (stateIds s) n (stateIds (removeNode moduleId nodeId s)).
Proof.
  unfold stateIds, removeNode. cbn [modules withSelection].
  apply (IdEdit_map moduleIds). intros md.
  destruct (mod_id md =? moduleId); [|apply IdEdit_refl].
  unfold moduleIds. cbn [mod_id nodes commands withNodes].
  apply edit_keep. apply (IdEdit_app n n); [|apply IdEdit_refl].
  apply IdEdit_flat_map_filter.
Qed.

Lemma removeCommand_edit (moduleId commandId : string) (s : AddonState) (n : nat) :
  IdEdit uuid n (stateIds s) n (stateIds (removeCommand moduleId commandId s)).
Proof.
  unfold stateIds, removeCommand. cbn [modules withModules].
  apply (IdEdit_map moduleIds). intros md.
  destruct (mod_id md =? moduleId); [|apply IdEdit_refl].
  unfold moduleIds. cbn [mod_id nodes commands withCommands].
  apply edit_keep. apply (IdEdit_app n n); [apply IdEdit_refl|].
  apply IdEdit_map_filter.
Qed.

Lemma removeParameter_edit (moduleId nodeId : string) (placement : Placement)
  (paramId : string) (s : AddonState) (n : nat) :
  IdEdit uuid n (stateIds s) n
    (stateIds (removeParameter moduleId nodeId placement paramId s)).
Proof.
  unfold stateIds, removeParameter. cbn [modules withModules].
  apply (IdEdit_map moduleIds). intros md.
  destruct (mod_id md =? moduleId); [|apply IdEdit_refl].
  unfold moduleIds. cbn [mod_id nodes commands withNodes].
  apply edit_keep. apply (IdEdit_app n n); [|apply IdEdit_refl].
  apply (IdEdit_map nodeIds). intros node.
  destruct (node_id node =? nodeId); [|apply IdEdit_refl].
  unfold nodeIds.
  destruct placement; cbn [node_id inputs outputs placed withPlaced];
    apply edit_keep; apply (IdEdit_app n n);
    first [apply IdEdit_map_filter|apply IdEdit_refl].
Qed.

Lemma addModule_edit (s : AddonState) (n : nat) :
  IdEdit uuid n (stateIds s) (snd (addModule uuid s n))
    (stateIds (fst (addModule uuid s n))).
Proof.
  destruct (createModule_spec uuid n) as [Hdraws Hids].
  unfold addModule, bind.
  destruct (createModule uuid n) as [md n1]. cbn [fst snd ret] in *.
  unfold stateIds. cbn [modules withSelection].
  rewrite flat_map_app. cbn [flat_map]. rewrite app_nil_r, Hids, Hdraws.
  apply IdEdit_snoc.
Qed.

Lemma cloneModule_edit (id : string) (s : AddonState) (n : nat) :
  IdEdit uuid n (stateIds s) (snd (cloneModule uuid id s n))
    (stateIds (fst (cloneModule uuid id s n))).
Proof.
  unfold cloneModule.
  destruct (findModule id (modules s)) as [existing|]; [|apply IdEdit_refl].
  destruct (cloneOf_spec uuid existing n) as (Hdraws & Hids & _).
  unfold bind. destruct (cloneOf uuid existing n) as [cloned n1].
  cbn [fst snd ret] in *.
  unfold stateIds. cbn [modules withSelection].
  rewrite flat_map_app. cbn [flat_map]. rewrite app_nil_r, Hids, Hdraws.
  apply IdEdit_snoc.
Qed.

(** [addNode] appends its one node to every module of the id: the ids stay
    distinct because no two modules have the same id. *)
Lemma addNode_edit_modules (moduleId : string) (node : BlueprintNode)
  (ms : list AddonModule) (n : nat) :
  NoDup (map mod_id ms) ->
  nodeIds node = map uuid (seq n 3) ->
  IdEdit uuid n (flat_map moduleIds ms) (n + 3)
    (flat_map moduleIds
       (map (fun md =>
               if mod_id md =? moduleId
               then withNodes md (nodes md ++ [node])
               else md)
            ms)).
Proof.
  intros Hdistinct Hids. induction ms as [|md ms IH]; [apply IdEdit_unused|].
  cbn [map] in Hdistinct. apply NoDup_cons_iff in Hdistinct as [Hfresh Hdistinct].
  cbn [map flat_map]. destruct (mod_id md =? moduleId) eqn:Hmd.
  - rewrite map_fixed.
    + apply (IdEdit_app n (n + 3)); [|apply IdEdit_refl].
      unfold moduleIds. cbn [mod_id nodes commands withNodes].
      apply edit_keep. apply (IdEdit_app n (n + 3)); [|apply IdEdit_refl].
      rewrite flat_map_app. cbn [flat_map]. rewrite app_nil_r, Hids.
      apply IdEdit_snoc.
    + intros other Hin Hother. exfalso. apply Hfresh.
      apply String.eqb_eq in Hmd, Hother. rewrite Hmd, <- Hother.
      now apply in_map.
  - apply (IdEdit_app n n); [apply IdEdit_refl|now apply IH].
Qed.

Lemma addNode_edit (moduleId : string) (s : AddonState) (n : nat) :
  NoDup (map mod_id (modules s)) ->
  IdEdit uuid n (stateIds s) (snd (addNode uuid moduleId s n))
    (stateIds (fst (addNode uuid moduleId s n))).
Proof.
  intros Hdistinct. destruct (createNode_spec uuid n) as [Hdraws Hids].
  unfold addNode, bind.
  destruct (createNode uuid n) as [node n1]. cbn [fst snd ret] in *.
  unfold stateIds. cbn [modules withSelection]. rewrite Hdraws.
  now apply addNode_edit_modules.
Qed.

Lemma addCommand_edit (moduleId : string) (s : AddonState) (n : nat) :
  IdEdit uuid n (stateIds s) (snd (addCommand uuid moduleId s n))
    (stateIds (fst (addCommand uuid moduleId s n))).
Proof.
  rewrite addCommand_modules. cbn [fst snd]. unfold stateIds.
  cbn [modules withModules].
  apply (IdEdit_mapM moduleIds). intros md m.
  destruct (mod_id md =? moduleId); [|apply IdEdit_refl].
  unfold commandStep, moduleIds. cbn [fst snd mod_id nodes commands withCommands].
  apply edit_keep. apply (IdEdit_app m m); [apply IdEdit_refl|].
  rewrite map_app. cbn [map cmd_id newCommand]. apply IdEdit_snoc_one.
Qed.

Lemma parameterStep_edit (placement : Placement) (node : BlueprintNode) (m : nat) :
  IdEdit uuid m (nodeIds node) (snd (parameterStep uuid placement node m))
    (nodeIds (fst (parameterStep uuid placement node m))).
Proof.
  unfold parameterStep, nodeIds. cbn [fst snd].
  destruct placement; cbn [node_id inputs outputs placed withPlaced];
    apply edit_keep; rewrite map_app; cbn [map param_id newParameter].
  - apply (IdEdit_app m (S m)); [apply IdEdit_snoc_one|apply IdEdit_refl].
  - apply (IdEdit_app m m); [apply IdEdit_refl|apply IdEdit_snoc_one].
Qed.

Lemma addParameter_edit (moduleId nodeId : string) (placement : Placement)
  (s : AddonState) (n : nat) :
  IdEdit uuid n (stateIds s) (snd (addParameter uuid moduleId nodeId placement s n))
    (stateIds (fst (addParameter uuid moduleId nodeId placement s n))).
Proof.
  rewrite addParameter_modules. cbn [fst snd]. unfold stateIds.
  cbn [modules withModules].
  apply (IdEdit_mapM moduleIds). intros md m.
  destruct (mod_id md =? moduleId); [|apply IdEdit_refl].
  rewrite nodesStep_fst, nodesStep_snd.
  unfold moduleIds. cbn [mod_id nodes commands withNodes].
  apply edit_keep.
  match goal with
  | |- IdEdit _ _ _ (snd ?run) _ =>
      apply (IdEdit_app m (snd run)); [|apply IdEdit_refl]
  end.
  apply (IdEdit_mapM nodeIds). intros node k.
  destruct (node_id node =? nodeId); [|apply IdEdit_refl].
  apply parameterStep_edit.
Qed.

(** Every operation but [reset] edits the list of ids, when its patch sets
    neither an id nor a list of nested entities and module ids are
    distinct. *)
Lemma perform_edit (a : Action) (s : AddonState) (n : nat) :
  editsIds a = true ->
  NoDup (map mod_id (modules s)) ->
  IdEdit uuid n (stateIds s) (snd (perform uuid a s n))
    (stateIds (fst (perform uuid a s n))).
Proof.
  intros Hedits Hdistinct.
  destruct (editsInPlace a) eqn:Hplace.
  - destruct (perform_edits_ids uuid a s n Hplace) as [-> ->].
    apply IdEdit_refl.
  - destruct a; cbn [editsIds keepsIds editsInPlace] in Hedits, Hplace;
      try discriminate Hedits; try discriminate Hplace;
      try (rewrite Hedits in Hplace; discriminate Hplace);
      cbn [perform fst snd ret].
    + apply addModule_edit.
    + apply cloneModule_edit.
    + apply removeModule_edit.
    + now apply addNode_edit.
    + apply removeNode_edit.
    + apply addParameter_edit.
    + apply removeParameter_edit.
    + apply addCommand_edit.
    + apply removeCommand_edit.
Qed.

Hypothesis uuid_never_repeats : NeverRepeats uuid.

Lemma default_ids (n : nat) :
  5 <= n ->
  Forall (drawn uuid n) (stateIds (defaultState uuid))
  /\ NoDup (stateIds (defaultState uuid)).
Proof.
  intros Hfive. destruct (createModule_spec uuid 0) as [_ Hids].
  unfold stateIds, defaultState. cbn [modules flat_map].
  rewrite app_nil_r, Hids. split.
  - apply Forall_drawn_draws. lia.
  - now apply NoDup_draws.
Qed.

Lemma reachable_ids (st : Store) :
  reachableBy uuid (fun a _ => keepsIds a = true) st ->
  5 <= draws st
  /\ Forall (drawn uuid (draws st)) (stateIds (model st))
  /\ NoDup (stateIds (model st)).
Proof.
  induction 1 as [|a st Hreach (Hfive & Hdrawn & Hnd) Hkeeps].
  - split; [cbn; lia|]. apply default_ids. cbn. lia.
  - rewrite model_dispatch, draws_dispatch.
    destruct (editsIds a) eqn:Hedits.
    + pose proof (perform_edit a (model st) (draws st) Hedits
                    (stateIds_module_ids _ Hnd)) as Hedit.
      destruct (IdEdit_sound _ _ _ _ uuid_never_repeats Hedit)
        as (Hle & Hfrom & Hdistinct).
      split; [lia|]. split; [|now apply Hdistinct].
      apply Forall_forall. intros x Hin.
      destruct (Hfrom x Hin) as [Hold|(k & Hk & ->)].
      * destruct (proj1 (Forall_forall _ _) Hdrawn x Hold) as (i & Hi & Hxi).
        exists i. split; [lia|assumption].
      * exists k. split; [lia|reflexivity].
    + destruct a; cbn [editsIds] in Hedits;
        try (rewrite Hkeeps in Hedits; discriminate Hedits).
      cbn [perform fst snd ret]. split; [assumption|].
      unfold reset.
      change (stateIds _) with (stateIds (defaultState uuid)).
      now apply default_ids.
Qed.

(** X30. With a generator that never returns an identifier twice, in
    every model reached from the default model by operations whose patches
    set neither an id nor a list of nested entities, no id occurs twice in
    the whole model, whatever kinds of entity carry it, and every id is one
    of the draws made so far. *)
Theorem ids_never_shared (st : Store) :
  reachableBy uuid (fun a _ => keepsIds a = true) st ->
  NoDup (stateIds (model st))
  /\ Forall (drawn uuid (draws st)) (stateIds (model st)).
Proof.
  intros Hreach. destruct (reachable_ids st Hreach) as (_ & Hdrawn & Hnd).
  now split.
Qed.

End GlobalIds.

Lemma ids_never_shared_witness :
  reachableBy demoUUID (fun a _ => keepsIds a = true)
    (dispatch demoUUID (AddNode "uuid-5")
       (dispatch demoUUID (CloneModule "uuid-0") (initialStore demoUUID)))
  /\ NoDup
       (stateIds
          (model (dispatch demoUUID (AddNode "uuid-5")
                    (dispatch demoUUID (CloneModule "uuid-0")
                       (initialStore demoUUID))))).
Proof.
  assert (Hreach :
            reachableBy demoUUID (fun a _ => keepsIds a = true)
              (dispatch demoUUID (AddNode "uuid-5")
                 (dispatch demoUUID (CloneModule "uuid-0")
                    (initialStore demoUUID)))).
  { apply reach_dispatch; [|reflexivity].
    apply reach_dispatch; [|reflexivity].
    apply reach_initial. }
  split; [exact Hreach|].
  exact (proj1 (ids_never_shared demoUUID demoUUID_never_repeats _ Hreach)).
Defined.

(** ** Further properties of the exporters *)

Lemma descriptor_ext (s s' : AddonState) :
  meta s = meta s' ->
  map descriptorModule (modules s) = map descriptorModule (modules s') ->
  createUPluginDescriptor s = createUPluginDescriptor s'.
Proof.
  intros Hmeta Hmodules. unfold createUPluginDescriptor, descriptorObject.
  cbn zeta. now rewrite Hmeta, Hmodules.
Qed.

Lemma scaffold_ext (s s' : AddonState) :
  meta s = meta s' -> modules s = modules s' ->
  createCppScaffold s = createCppScaffold s'.
Proof.
  intros Hmeta Hmodules. unfold createCppScaffold. now rewrite Hmeta, Hmodules.
Qed.

Section Descriptor.

Variable uuid : nat -> string.

Lemma descriptorModules_below (a : Action) (s : AddonState) (n : nat) :
  belowModules a = true ->
  Forall2 (fun md md' => descriptorModule md' = descriptorModule md)
    (modules s) (modules (fst (perform uuid a s n))).
Proof.
  assert (Hrefl : forall ms : list AddonModule,
             Forall2 (fun md md' => descriptorModule md' = descriptorModule md) ms ms).
  { induction ms; now constructor. }
  assert (Hmap : forall (p : AddonModule -> bool) (g : AddonModule -> AddonModule) ms,
             (forall md, descriptorModule (g md) = descriptorModule md) ->
             Forall2 (fun md md' => descriptorModule md' = descriptorModule md) ms
               (map (fun md => if p md then g md else md) ms)).
  { intros p g ms Hg. apply Forall2_map_self. intros md _.
    now destruct (p md). }
  destruct a; cbn [belowModules perform fst ret]; intros Hbelow;
    try discriminate Hbelow; try apply Hrefl.
  - unfold addNode, bind. destruct (createNode uuid n) as [node n'].
    cbn [fst ret modules withSelection]. now apply Hmap.
  - unfold updateNode. cbn [modules withModules]. now apply Hmap.
  - unfold removeNode. cbn [modules withSelection]. now apply Hmap.
  - rewrite addParameter_modules. cbn [fst modules withModules].
    apply mapM_Forall2. intros md k _.
    destruct (mod_id md =? moduleId); [|reflexivity].
    now rewrite nodesStep_fst.
  - unfold updateParameter. cbn [modules withModules]. now apply Hmap.
  - unfold removeParameter. cbn [modules withModules]. now apply Hmap.
  - rewrite addCommand_modules. cbn [fst modules withModules].
    apply mapM_Forall2. intros md k _.
    now destruct (mod_id md =? moduleId).
  - unfold updateCommand. cbn [modules withModules]. now apply Hmap.
  - unfold removeCommand. cbn [modules withModules]. now apply Hmap.
Qed.

(** X17. Operations on nodes, parameters, commands and the selection never
    change the plugin descriptor. *)
Theorem descriptor_unchanged (a : Action) (st : Store) :
  belowModules a = true ->
  createUPluginDescriptor (model (dispatch uuid a st))
  = createUPluginDescriptor (model st).
Proof.
  intros Hbelow. apply descriptor_ext.
  - rewrite model_dispatch. apply perform_meta. now destruct a.
  - rewrite model_dispatch.
    apply (Forall2_map_eq descriptorModule).
    now apply descriptorModules_below.
Qed.

End Descriptor.

Lemma descriptor_unchanged_witness :
  createUPluginDescriptor
    (model (dispatch demoUUID (AddNode "uuid-0") (initialStore demoUUID)))
  = createUPluginDescriptor (model (initialStore demoUUID)).
Proof.
  apply (descriptor_unchanged demoUUID (AddNode "uuid-0") (initialStore demoUUID)).
  reflexivity.
Defined.

(** *** Exports and ids *)

Lemma snippet_anonNode (node : BlueprintNode) :
  createBlueprintNodeSnippet (anonNode node) = createBlueprintNodeSnippet node.
Proof.
  unfold createBlueprintNodeSnippet, inputsText, outputsText, signatureText.
  cbn [anonNode inputs outputs node_title node_category node_description body].
  now rewrite !map_map.
Qed.

Lemma commands_anonModule (ms : list AddonModule) :
  flat_map commands (map anonModule ms) = map anonCommand (flat_map commands ms).
Proof.
  induction ms as [|md ms IH]; [reflexivity|].
  cbn [map flat_map]. now rewrite IH, map_app.
Qed.

Lemma header_anonModule (md : AddonModule) :
  Js.join (nl ++ nl)
    (map (fun snippet => "// Module: " ++ mod_name (anonModule md) ++ nl ++ snippet)
       (map createBlueprintNodeSnippet (nodes (anonModule md))))
  = Js.join (nl ++ nl)
      (map (fun snippet => "// Module: " ++ mod_name md ++ nl ++ snippet)
         (map createBlueprintNodeSnippet (nodes md))).
Proof.
  cbn [nodes mod_name anonModule]. rewrite !map_map.
  f_equal. apply map_ext. intros node. now rewrite snippet_anonNode.
Qed.

Lemma binding_anonCommand (command : CommandBinding) :
  "// Command: " ++ cmd_name (anonCommand command) ++ nl
    ++ createCommandSnippet (anonCommand command)
  = "// Command: " ++ cmd_name command ++ nl ++ createCommandSnippet command.
Proof. reflexivity. Qed.

Lemma scaffold_anonState (s : AddonState) :
  createCppScaffold (anonState s) = createCppScaffold s.
Proof.
  unfold createCppScaffold. cbn [anonState modules meta withModules].
  rewrite commands_anonModule, !map_map.
  rewrite (map_ext _ _ header_anonModule).
  now rewrite (map_ext _ _ binding_anonCommand).
Qed.

Lemma descriptor_anonState (s : AddonState) :
  createUPluginDescriptor (anonState s) = createUPluginDescriptor s.
Proof.
  apply descriptor_ext; [reflexivity|].
  cbn [anonState modules withModules]. now rewrite map_map.
Qed.

(** X18. The plugin descriptor and the C++ scaffold hold no id and do not
    look at the selection: two models with the same meta data and the same
    modules apart from ids give the same descriptor and the same scaffold. *)
Theorem exports_ignore_ids (s s' : AddonState) :
  meta s = meta s' ->
  map anonModule (modules s) = map anonModule (modules s') ->
  createUPluginDescriptor s = createUPluginDescriptor s'
  /\ createCppScaffold s = createCppScaffold s'.
Proof.
  intros Hmeta Hmodules. split.
  - rewrite <- (descriptor_anonState s), <- (descriptor_anonState s').
    apply descriptor_ext; [exact Hmeta|].
    cbn [anonState modules withModules]. now rewrite Hmodules.
  - rewrite <- (scaffold_anonState s), <- (scaffold_anonState s').
    apply scaffold_ext; [exact Hmeta|].
    cbn [anonState modules withModules]. exact Hmodules.
Qed.

Lemma exports_ignore_ids_witness :
  createCppScaffold (defaultState demoUUID)
  = createCppScaffold (defaultState (fun n => demoUUID (n + 7))).
Proof.
  apply (exports_ignore_ids (defaultState demoUUID)
           (defaultState (fun n => demoUUID (n + 7))));
    reflexivity.
Defined.

(** *** The scaffold of a model without nodes and commands *)

Lemma headers_empty (ms : list AddonModule) :
  Forall (fun md => nodes md = []) ms ->
  filter Js.truthy
    (map (fun module =>
            Js.join (nl ++ nl)
              (map (fun snippet => "// Module: " ++ mod_name module ++ nl ++ snippet)
                 (map createBlueprintNodeSnippet (nodes module))))
       ms)
  = [].
Proof.
  induction 1 as [|md ms Hmd _ IH]; [reflexivity|].
  cbn [map filter]. now rewrite Hmd, IH.
Qed.

Lemma commands_empty (ms : list AddonModule) :
  Forall (fun md => commands md = []) ms -> flat_map commands ms = [].
Proof.
  induction 1 as [|md ms Hmd _ IH]; [reflexivity|].
  cbn [flat_map]. now rewrite Hmd, IH.
Qed.

(** X19. For a model in which no module has a node or a command, in
    particular one without modules, the scaffold is the fixed frame around
    two lines of four spaces: the library class and the registration
    function named after the identifier. *)
Theorem scaffold_without_content (s : AddonState) :
  Forall (fun md => nodes md = [] /\ commands md = []) (modules s) ->
  createCppScaffold s = emptyScaffold (identifier (meta s)).
Proof.
  intros Hempty. unfold createCppScaffold.
  rewrite headers_empty
    by (revert Hempty; apply Forall_impl; now intros md [Hn _]).
  rewrite commands_empty
    by (revert Hempty; apply Forall_impl; now intros md [_ Hc]).
  unfold emptyScaffold. cbn [map Js.join concat].
  change (indentLines "") with "    ".
  reflexivity.
Qed.

Lemma scaffold_without_content_witness :
  createCppScaffold (withModules (defaultState demoUUID) [])
  = emptyScaffold "AddonArchitect".
Proof.
  apply (scaffold_without_content (withModules (defaultState demoUUID) [])).
  constructor.
Defined.

(** *** Lines *)

Lemma split_cons_other (sep c : ascii) (s : string) :
  Ascii.eqb c sep = false ->
  Js.split sep (String c s)
  = match Js.split sep s with
    | [] => [String c ""]
    | t :: ts => String c t :: ts
    end.
Proof. intros Hc. cbn [Js.split]. now rewrite Hc. Qed.

Lemma split_nonempty (sep : ascii) (s : string) : Js.split sep s <> [].
Proof.
  destruct s as [|c s]; [discriminate|].
  cbn [Js.split]. destruct (Ascii.eqb c sep); [discriminate|].
  now destruct (Js.split sep s).
Qed.

(** A token without the separator, in front of a separator. *)
Lemma split_token (sep : ascii) (t rest : string) :
  Js.count sep t = 0 ->
  Js.split sep (t ++ String sep rest) = t :: Js.split sep rest.
Proof.
  induction t as [|c t IH]; intros Hcount.
  - cbn [append Js.split]. now rewrite Ascii.eqb_refl.
  - cbn [Js.count] in Hcount. cbn [append].
    destruct (Ascii.eqb c sep) eqn:Hc; [discriminate Hcount|].
    rewrite split_cons_other by assumption.
    now rewrite IH by exact Hcount.
Qed.

Lemma split_single (sep : ascii) (t : string) :
  Js.count sep t = 0 -> Js.split sep t = [t].
Proof.
  induction t as [|c t IH]; intros Hcount; [reflexivity|].
  cbn [Js.count] in Hcount.
  destruct (Ascii.eqb c sep) eqn:Hc; [discriminate Hcount|].
  rewrite split_cons_other by assumption.
  now rewrite IH by exact Hcount.
Qed.

Lemma split_tokens (sep : ascii) (s : string) :
  Forall (fun t => Js.count sep t = 0) (Js.split sep s).
Proof.
  induction s as [|c s IH]; [now repeat constructor|].
  cbn [Js.split]. destruct (Ascii.eqb c sep) eqn:Hc.
  - now constructor.
  - destruct (Js.split sep s) as [|t ts]; [repeat constructor; cbn; now rewrite Hc|].
    apply Forall_cons_iff in IH as [Ht Hts].
    constructor; [|assumption]. cbn [Js.count]. now rewrite Hc.
Qed.

Lemma split_join (sep : ascii) (l : list string) :
  l <> [] -> Forall (fun t => Js.count sep t = 0) l ->
  Js.split sep (Js.join (String sep "") l) = l.
Proof.
  unfold Js.join.
  induction l as [|x [|y l] IH]; intros Hne Hl; [now destruct Hne| |].
  - apply split_single. now apply Forall_cons_iff in Hl.
  - apply Forall_cons_iff in Hl as [Hx Hl].
    change (concat (String sep "") (x :: y :: l))
      with (x ++ String sep (concat (String sep "") (y :: l))).
    rewrite split_token by assumption.
    now rewrite IH.
Qed.

Lemma join_split (sep : ascii) (s : string) :
  Js.join (String sep "") (Js.split sep s) = s.
Proof.
  unfold Js.join.
  induction s as [|c s IH]; [reflexivity|].
  cbn [Js.split]. destruct (Ascii.eqb_spec c sep) as [->|Hc].
  - pose proof (split_nonempty sep s) as Hne.
    destruct (Js.split sep s) as [|t ts]; [now destruct Hne|].
    change (concat (String sep "") ("" :: t :: ts))
      with (String sep (concat (String sep "") (t :: ts))).
    now rewrite IH.
  - destruct (Js.split sep s) as [|t [|u ts]].
    + cbn in IH. now rewrite <- IH.
    + cbn in *. now rewrite IH.
    + change (concat (String sep "") (String c t :: u :: ts))
        with (String c (concat (String sep "") (t :: u :: ts))).
      now rewrite IH.
Qed.

(** X20. The indentation of the scaffold regions puts four spaces in front
    of every line, the empty ones too, keeps the number of lines, and loses
    nothing: dropping four characters from every line gives the text back. *)
Theorem indentLines_lines (text : string) :
  Js.split newline (indentLines text)
  = map (fun line => "    " ++ line) (Js.split newline text)
  /\ Js.join nl (map (Js.drop 4) (Js.split newline (indentLines text))) = text.
Proof.
  assert (Hlines : Js.split newline (indentLines text)
                   = map (fun line => "    " ++ line) (Js.split newline text)).
  { unfold indentLines. apply split_join.
    - pose proof (split_nonempty newline text) as Hne.
      now destruct (Js.split newline text).
    - apply Forall_map. pose proof (split_tokens newline text) as Htokens.
      revert Htokens. apply Forall_impl. now intros line Hline. }
  split; [exact Hlines|].
  rewrite Hlines, map_map. cbn [Js.drop append]. rewrite map_id.
  apply join_split.
Qed.

(** *** The specification document *)

Ltac same_text :=
  unfold Js.join, JSON.quote, quoted, boolText;
  cbn [JSON.serialize concat];
  unfold JSON.quote;
  rewrite ?append_assoc;
  reflexivity.

Lemma serialize_parameter (param : BlueprintParameter) :
  JSON.serialize "  " "            " (formatParameter param) = parameterText param.
Proof.
  unfold formatParameter, parameterText.
  rewrite serialize_object. cbn [map fst snd].
  change ("            " ++ "  ") with "              ".
  destruct (isArray param) as [[|]|], (defaultValue param), (param_description param);
    same_text.
Qed.

Lemma serialize_array_of {A : Type} (indent inner : string)
  (object : A -> JSON.value) (text : A -> string) (l : list A) :
  inner = indent ++ "  " ->
  (forall x, JSON.serialize "  " inner (object x) = text x) ->
  JSON.serialize "  " indent (JSON.Arr (map object l)) = arrayText indent (map text l).
Proof.
  intros -> Hitem. rewrite serialize_array, map_map.
  f_equal. apply map_ext. exact Hitem.
Qed.

Lemma serialize_node (node : BlueprintNode) :
  JSON.serialize "  " "        " (blueprintNode node) = nodeText node.
Proof.
  unfold blueprintNode, nodeText, formatParameters.
  rewrite <- (serialize_array_of "          " "            " formatParameter
                parameterText (inputs node) eq_refl serialize_parameter).
  rewrite <- (serialize_array_of "          " "            " formatParameter
                parameterText (outputs node) eq_refl serialize_parameter).
  rewrite serialize_object. cbn [map fst snd].
  change ("        " ++ "  ") with "          ".
  generalize (JSON.serialize "  " "          "
                (JSON.Arr (map formatParameter (inputs node)))).
  generalize (JSON.serialize "  " "          "
                (JSON.Arr (map formatParameter (outputs node)))).
  intros outs ins. same_text.
Qed.

Lemma mapFrom_ext {A B : Type} (f g : nat -> A -> B) (i : nat) (l : list A) :
  (forall j x, f j x = g j x) -> mapFrom f i l = mapFrom g i l.
Proof.
  intros Hsame. revert i. induction l as [|x l IH]; intros i; [reflexivity|].
  cbn [mapFrom]. now rewrite Hsame, IH.
Qed.

Lemma map_mapFrom {A B C : Type} (h : B -> C) (f : nat -> A -> B) (i : nat)
  (l : list A) :
  map h (mapFrom f i l) = mapFrom (fun j x => h (f j x)) i l.
Proof.
  revert i. induction l as [|x l IH]; intros i; [reflexivity|].
  cbn [mapFrom map]. now rewrite IH.
Qed.

Lemma mapFrom_map {A B C : Type} (f : nat -> B -> C) (g : A -> B) (i : nat)
  (l : list A) :
  mapFrom f i (map g l) = mapFrom (fun j x => f j (g x)) i l.
Proof.
  revert i. induction l as [|x l IH]; intros i; [reflexivity|].
  cbn [mapFrom map]. now rewrite IH.
Qed.

Lemma serialize_array_from {A : Type} (indent inner : string)
  (object : nat -> A -> JSON.value) (text : nat -> A -> string) (l : list A) :
  inner = indent ++ "  " ->
  (forall j x, JSON.serialize "  " inner (object j x) = text j x) ->
  JSON.serialize "  " indent (JSON.Arr (mapFrom object 0 l))
  = arrayText indent (mapFrom text 0 l).
Proof.
  intros -> Hitem. rewrite serialize_array, map_mapFrom.
  f_equal. apply mapFrom_ext. exact Hitem.
Qed.

Lemma commandKeyName_quote (k : CommandKey) :
  JSON.quote (commandKeyName k) = quoted (commandKeyName k).
Proof. now destruct k. Qed.

Lemma serialize_command (keys : list CommandKey) (command : CommandBinding) :
  JSON.serialize "  " "        " (commandObject keys command)
  = commandText keys command.
Proof.
  unfold commandObject, commandText.
  destruct keys as [|k keys]; [reflexivity|].
  set (order := k :: keys).
  assert (Hne : map (fun k' =>
                       JSON.quote (commandKeyName k') ++ ": "
                         ++ JSON.quote (commandField k' command)) order <> [])
    by discriminate.
  change (JSON.serialize "  " "        "
            (JSON.Obj
               (map (fun k' => (commandKeyName k', JSON.Str (commandField k' command)))
                  order)))
    with ("{" ++ nl ++ "          "
            ++ Js.join (("," ++ nl) ++ "          ")
                 (map (fun kv =>
                         JSON.quote (fst kv) ++ ": "
                           ++ JSON.serialize "  " "          " (snd kv))
                    (map (fun k' =>
                            (commandKeyName k', JSON.Str (commandField k' command)))
                       order))
            ++ nl ++ "        }").
  rewrite map_map. cbn [fst snd JSON.serialize].
  rewrite <- (append_assoc "          ").
  rewrite (join_indent "          " ("," ++ nl) _ Hne), map_map.
  assert (Hkeys :
            map (fun k' =>
                   "          " ++ JSON.quote (commandKeyName k') ++ ": "
                     ++ JSON.quote (commandField k' command)) order
            = map (fun k' =>
                     "          " ++ quoted (commandKeyName k') ++ ": "
                       ++ JSON.quote (commandField k' command)) order).
  { apply map_ext. intros k'. now rewrite commandKeyName_quote. }
  now rewrite Hkeys.
Qed.

Lemma commandText_store (command : CommandBinding) :
  commandText storeKeys command = storeCommandText command.
Proof.
  unfold commandText, storeCommandText, storeKeys.
  cbn [map commandKeyName commandField].
  unfold Js.join. cbn [concat]. rewrite ?append_assoc. reflexivity.
Qed.

Lemma serialize_module (keys : nat -> list CommandKey) (md : AddonModule) :
  JSON.serialize "  " "    " (blueprintModule keys md) = moduleText keys md.
Proof.
  unfold blueprintModule, moduleText.
  rewrite <- (serialize_strings "      " (dependencies md)).
  rewrite <- (serialize_array_of "      " "        " blueprintNode nodeText
                (nodes md) eq_refl serialize_node).
  rewrite <- (serialize_array_from "      " "        "
                (fun j command => commandObject (keys j) command)
                (fun j command => commandText (keys j) command)
                (commands md) eq_refl
                (fun j command => serialize_command (keys j) command)).
  rewrite serialize_object. cbn [map fst snd].
  change ("    " ++ "  ") with "      ".
  generalize (JSON.serialize "  " "      "
                (JSON.Arr (map JSON.Str (dependencies md)))).
  generalize (JSON.serialize "  " "      "
                (JSON.Arr (map blueprintNode (nodes md)))).
  generalize (JSON.serialize "  " "      "
                (JSON.Arr (mapFrom (fun j command => commandObject (keys j) command) 0
                             (commands md)))).
  intros cs ns deps. same_text.
Qed.

Lemma serialize_meta (m : AddonMeta) :
  JSON.serialize "  " "  " (metaObject m) = metaText m.
Proof.
  unfold metaObject, metaText.
  rewrite serialize_object. cbn [map fst snd].
  change ("  " ++ "  ") with "    ".
  same_text.
Qed.

(** X21. The specification document is the JSON text, two spaces per
    level, of the meta data and of the modules with their ids, nodes and
    commands.  Every parameter is written without its id as name, type,
    isArray, defaultValue and description, where an absent isArray is false,
    an absent default value is null and an absent description is the empty
    string.  Every command is written with its keys in the order its own
    object has them; for a command in the order of the store that is id,
    name, context, hotkey, description, script. *)
Theorem createBlueprintJSON_text (keys : nat -> nat -> list CommandKey)
  (state : AddonState) :
  createBlueprintJSON keys state = blueprintText keys state
  /\ (forall command, commandText storeKeys command = storeCommandText command).
Proof.
  split; [|apply commandText_store].
  unfold createBlueprintJSON, JSON.stringify2, blueprintObject, blueprintText.
  rewrite <- (serialize_array_from "  " "    "
                (fun i md => blueprintModule (keys i) md)
                (fun i md => moduleText (keys i) md)
                (modules state) eq_refl
                (fun i md => serialize_module (keys i) md)).
  rewrite <- serialize_meta.
  rewrite serialize_object. cbn [map fst snd].
  change ("" ++ "  ") with "  ".
  generalize (JSON.serialize "  " "  "
                (JSON.Arr (mapFrom (fun i md => blueprintModule (keys i) md) 0
                             (modules state)))).
  generalize (JSON.serialize "  " "  " (metaObject (meta state))).
  intros m ms. same_text.
Qed.

Lemma blueprintModule_withoutParameterIds (keys : nat -> list CommandKey)
  (md : AddonModule) :
  blueprintModule keys (withoutParameterIds md) = blueprintModule keys md.
Proof.
  unfold blueprintModule, withoutParameterIds.
  cbn [mod_id mod_name target mod_description dependencies nodes commands withNodes].
  rewrite map_map.
  assert (Hnodes : forall ns : list BlueprintNode,
             map (fun node =>
                    blueprintNode
                      {| node_id := node_id node; node_title := node_title node;
                         node_category := node_category node;
                         node_description := node_description node;
                         inputs := map anonParameter (inputs node);
                         outputs := map anonParameter (outputs node);
                         body := body node |}) ns
             = map blueprintNode ns).
  { intros ns. apply map_ext. intros node. unfold blueprintNode, formatParameters.
    cbn [node_id node_title node_category node_description inputs outputs body].
    now rewrite !map_map. }
  now rewrite Hnodes.
Qed.

(** X22. The specification document holds no parameter id and does not
    look at the selection: two models with the same meta data and the same
    modules apart from parameter ids give the same document, whatever the
    key orders of their command objects. *)
Theorem blueprint_ignores_parameter_ids (keys : nat -> nat -> list CommandKey)
  (s s' : AddonState) :
  meta s = meta s' ->
  map withoutParameterIds (modules s) = map withoutParameterIds (modules s') ->
  createBlueprintJSON keys s = createBlueprintJSON keys s'.
Proof.
  intros Hmeta Hmodules. unfold createBlueprintJSON, blueprintObject.
  rewrite Hmeta.
  assert (Hsame : forall ms,
             mapFrom (fun i md => blueprintModule (keys i) md) 0 ms
             = mapFrom (fun i md => blueprintModule (keys i) md) 0
                 (map withoutParameterIds ms)).
  { intros ms. rewrite mapFrom_map. apply mapFrom_ext.
    intros i md. now rewrite blueprintModule_withoutParameterIds. }
  now rewrite (Hsame (modules s)), (Hsame (modules s')), Hmodules.
Qed.

Lemma blueprint_ignores_parameter_ids_witness :
  createBlueprintJSON (fun _ _ => scriptFirst) (defaultState demoUUID)
  = createBlueprintJSON (fun _ _ => scriptFirst)
      (selectNode (Some "uuid-1")
         (updateParameter "uuid-0" "uuid-1" Inputs "uuid-2"
            {| pp_id := Some "renumbered"; pp_name := None; pp_kind := None;
               pp_defaultValue := None; pp_description := None;
               pp_isArray := None |}
            (defaultState demoUUID))).
Proof.
  apply blueprint_ignores_parameter_ids; reflexivity.
Defined.

(** ** The workspace *)

Lemma orElseOpt_find_In {A : Type} (p : A -> bool) (l : list A) (x : A) :
  Workspace.orElseOpt (find p l) (hd_error l) = Some x -> In x l.
Proof.
  destruct (find p l) as [y|] eqn:Hfind; cbn [Workspace.orElseOpt].
  - intros Hx. injection Hx as <-. now apply find_some in Hfind.
  - destruct l as [|y l]; [discriminate|]. cbn [hd_error].
    intros Hx. injection Hx as <-. now left.
Qed.

Lemma orElseOpt_find_None {A : Type} (p : A -> bool) (l : list A) :
  Workspace.orElseOpt (find p l) (hd_error l) = None <-> l = [].
Proof.
  split; [|now intros ->].
  destruct l as [|y l]; [reflexivity|].
  cbn [find hd_error]. destruct (p y); [discriminate|].
  now destruct (find p l).
Qed.

Lemma shown_module_In (s : AddonState) (md : AddonModule) :
  Workspace.selectedModule s = Some md -> In md (modules s).
Proof. apply orElseOpt_find_In. Qed.

Lemma shown_node_In (s : AddonState) (md : AddonModule) (node : BlueprintNode) :
  Workspace.selectedModule s = Some md ->
  Workspace.selectedNode s = Some node -> In node (nodes md).
Proof.
  unfold Workspace.selectedNode. intros ->. apply orElseOpt_find_In.
Qed.

Lemma autoSelect_none (s : AddonState) : Workspace.autoSelect s = None.
Proof.
  unfold Workspace.autoSelect.
  destruct (Workspace.selectedModule s) eqn:Hshown; [reflexivity|].
  apply orElseOpt_find_None in Hshown. now rewrite Hshown.
Qed.

Lemma find_never {A : Type} (l : list A) : find (fun _ : A => false) l = None.
Proof. induction l as [|x l IH]; [reflexivity|exact IH]. Qed.

(** X23. The workspace shows a module whenever the model has one, and the
    node it shows is always a node of the module it shows, whatever the
    selection of the store says.  When the selected module id resolves, the
    module shown is the one it resolves to; when it is null or resolves to
    nothing, the module shown is the first module of the model.  In the
    module shown, the node shown is the one the selected node id resolves
    to, and the first node of the module when that id is null or resolves
    to nothing there. *)
Theorem shown_node_in_shown_module (s : AddonState) :
  (Workspace.selectedModule s = None <-> modules s = [])
  /\ (forall md, Workspace.selectedModule s = Some md -> In md (modules s))
  /\ (forall node, Workspace.selectedNode s = Some node ->
                   exists md, Workspace.selectedModule s = Some md
                              /\ In node (nodes md))
  /\ (forall md, Workspace.selectedModule s = Some md ->
                 (Workspace.selectedNode s = None <-> nodes md = []))
  /\ (forall i md, selectedModuleId s = Some i ->
                   findModule i (modules s) = Some md ->
                   Workspace.selectedModule s = Some md)
  /\ ((forall i, selectedModuleId s = Some i -> findModule i (modules s) = None) ->
      Workspace.selectedModule s = hd_error (modules s))
  /\ (forall md i node, Workspace.selectedModule s = Some md ->
                        selectedNodeId s = Some i ->
                        findNode i md = Some node ->
                        Workspace.selectedNode s = Some node)
  /\ (forall md, Workspace.selectedModule s = Some md ->
                 (forall i, selectedNodeId s = Some i -> findNode i md = None) ->
                 Workspace.selectedNode s = hd_error (nodes md)).
Proof.
  split; [apply orElseOpt_find_None|].
  split; [apply shown_module_In|].
  split; [|split; [|split; [|split; [|split]]]].
  - intros node Hnode.
    destruct (Workspace.selectedModule s) as [md|] eqn:Hshown.
    + exists md. split; [reflexivity|]. now apply (shown_node_In s).
    + unfold Workspace.selectedNode in Hnode. now rewrite Hshown in Hnode.
  - intros md Hshown. unfold Workspace.selectedNode. rewrite Hshown.
    apply orElseOpt_find_None.
  - intros i md Hid Hfind. unfold Workspace.selectedModule, findModule in *.
    rewrite Hid. cbn [Workspace.isSelected]. now rewrite Hfind.
  - intros Hunresolved. unfold Workspace.selectedModule.
    destruct (selectedModuleId s) as [i|].
    + specialize (Hunresolved i eq_refl). unfold findModule in Hunresolved.
      cbn [Workspace.isSelected]. now rewrite Hunresolved.
    + cbn [Workspace.isSelected].
      now rewrite find_never.
  - intros md i node Hshown Hid Hfind. unfold Workspace.selectedNode, findNode in *.
    rewrite Hshown, Hid. cbn [Workspace.isSelected]. now rewrite Hfind.
  - intros md Hshown Hunresolved. unfold Workspace.selectedNode.
    rewrite Hshown. destruct (selectedNodeId s) as [i|].
    + specialize (Hunresolved i eq_refl). unfold findNode in Hunresolved.
      cbn [Workspace.isSelected]. now rewrite Hunresolved.
    + cbn [Workspace.isSelected].
      now rewrite find_never.
Qed.

Lemma shown_node_in_shown_module_witness :
  selectionConsistent (strayState demoUUID) = false
  /\ (exists md, Workspace.selectedModule (strayState demoUUID) = Some md
                 /\ In (hd bareNode (nodes (fst (createModule demoUUID 0)))) (nodes md))
  /\ Workspace.selectedModule (strayState demoUUID)
     = Some (fst (createModule demoUUID 0)).
Proof.
  split; [reflexivity|]. split.
  - apply (proj1 (proj2 (proj2 (shown_node_in_shown_module (strayState demoUUID))))).
    reflexivity.
  - apply (proj1 (proj2 (proj2 (proj2 (proj2 (proj2
             (shown_node_in_shown_module (strayState demoUUID)))))))).
    intros i Hid. discriminate Hid.
Defined.

(** X24. The effect that would select the first module never fires: its
    condition needs no module shown while the model has a first module,
    and the first module is shown when nothing else is. *)
Theorem autoSelect_never (s : AddonState) : Workspace.autoSelect s = None.
Proof. apply autoSelect_none. Qed.

(** X25. The download hands over the text the preview shows for the same
    tab, under the identifier of the model followed by [.json], [.uplugin]
    or [.h]. *)
Theorem download_is_preview (keys : nat -> nat -> list CommandKey)
  (tab : Workspace.PreviewTab) (s : AddonState) :
  snd (Workspace.handleDownload keys tab s) = Workspace.previewContent keys tab s
  /\ fst (Workspace.handleDownload keys tab s)
     = identifier (meta s)
         ++ match tab with
            | Workspace.TabBlueprint => ".json"
            | Workspace.TabUplugin => ".uplugin"
            | Workspace.TabCpp => ".h"
            end.
Proof. now destruct tab. Qed.

(** *** The dependencies field *)

Lemma trim_leading_space (d : string) : Js.trim (String " " d) = Js.trim d.
Proof. now destruct d. Qed.

Lemma split_comma_join (x : string) (rest : list string) :
  Forall (fun t => Js.count "," t = 0) (x :: rest) ->
  Js.split "," (Js.join ", " (x :: rest))
  = x :: map (fun d => String " " d) rest.
Proof.
  unfold Js.join. revert x.
  induction rest as [|y rest IH]; intros x Hclean.
  - apply split_single. now apply Forall_cons_iff in Hclean.
  - apply Forall_cons_iff in Hclean as [Hx Hclean].
    change (concat ", " (x :: y :: rest))
      with (x ++ String "," (String " " (concat ", " (y :: rest)))).
    rewrite split_token by assumption.
    rewrite split_cons_other by reflexivity.
    now rewrite (IH y Hclean).
Qed.

(** X26. The dependencies field gives back what it shows: parsing the
    text shown for a module yields its dependency list, when every name is
    non-empty, has no comma and no white space at its ends. *)
Theorem dependencies_round_trip (md : AddonModule) :
  forallb cleanDependency (dependencies md) = true ->
  Workspace.dependenciesOfInput (Workspace.dependenciesValue md) = dependencies md.
Proof.
  unfold Workspace.dependenciesOfInput, Workspace.dependenciesValue.
  intros Hclean. rewrite forallb_forall in Hclean.
  assert (Hparts : forall d, In d (dependencies md) ->
                             Js.trim d = d /\ Js.truthy d = true
                             /\ Js.count "," d = 0).
  { intros d Hin. specialize (Hclean d Hin). unfold cleanDependency in Hclean.
    apply andb_true_iff in Hclean as [Hclean Hcount].
    apply andb_true_iff in Hclean as [Htrim Htruthy].
    apply String.eqb_eq in Htrim. now apply Nat.eqb_eq in Hcount. }
  destruct (dependencies md) as [|x rest]; [reflexivity|].
  rewrite split_comma_join
    by (apply Forall_forall; intros d Hin; now apply Hparts).
  cbn [map]. rewrite map_map.
  rewrite (map_ext_in _ (fun d => d))
    by (intros d Hin; rewrite trim_leading_space; apply Hparts; now right).
  rewrite map_id, (proj1 (Hparts x (or_introl eq_refl))).
  apply filter_all. intros d Hin. now apply Hparts.
Qed.

Lemma dependencies_round_trip_witness :
  Workspace.dependenciesOfInput
    (Workspace.dependenciesValue (fst (createModule demoUUID 0)))
  = ["Core"; "Engine"; "UnrealEd"].
Proof.
  apply (dependencies_round_trip (fst (createModule demoUUID 0))).
  reflexivity.
Defined.

Lemma count_app (c : ascii) (a b : string) :
  Js.count c (a ++ b) = Js.count c a + Js.count c b.
Proof.
  induction a as [|x a IH]; [reflexivity|].
  cbn [append Js.count]. rewrite IH. lia.
Qed.

Lemma count_rev (c : ascii) (s : string) : Js.count c (Js.rev s) = Js.count c s.
Proof.
  induction s as [|x s IH]; [reflexivity|].
  cbn [Js.rev Js.count]. rewrite count_app, IH. cbn [Js.count]. lia.
Qed.

Lemma count_drop (c : ascii) (n : nat) (s : string) :
  Js.count c (Js.drop n s) <= Js.count c s.
Proof.
  revert s. induction n as [|n IH]; intros s; [reflexivity|].
  destruct s as [|x s]; [reflexivity|].
  cbn [Js.drop Js.count]. specialize (IH s). lia.
Qed.

Lemma count_stripAll (c : ascii) (table : list string) (fuel : nat) (s : string) :
  Js.count c (Js.stripAll table fuel s) <= Js.count c s.
Proof.
  revert s. induction fuel as [|fuel IH]; intros s; [reflexivity|].
  cbn [Js.stripAll].
  destruct (Js.stripOne table s) as [s'|] eqn:Hstrip; [|reflexivity].
  assert (Hless : Js.count c s' <= Js.count c s).
  { clear IH. induction table as [|w table IHt]; [discriminate Hstrip|].
    cbn [Js.stripOne] in Hstrip.
    destruct (prefix w s); [|now apply IHt].
    injection Hstrip as <-. apply count_drop. }
  specialize (IH s'). lia.
Qed.

Lemma count_trim (c : ascii) (s : string) : Js.count c (Js.trim s) <= Js.count c s.
Proof.
  unfold Js.trim, Js.trimEnd, Js.trimStart.
  rewrite count_rev.
  etransitivity; [apply count_stripAll|].
  rewrite count_rev. apply count_stripAll.
Qed.

(** X27. Whatever is typed into the dependencies field, no dependency name
    that is stored is empty or holds a comma. *)
Theorem dependencies_never_empty (value d : string) :
  In d (Workspace.dependenciesOfInput value) ->
  d <> "" /\ Js.count "," d = 0.
Proof.
  unfold Workspace.dependenciesOfInput. intros Hin.
  apply filter_In in Hin as [Hin Htruthy].
  split.
  - intros ->. discriminate Htruthy.
  - apply in_map_iff in Hin as (token & <- & Htoken).
    pose proof (proj1 (Forall_forall _ _) (split_tokens "," value) token Htoken)
      as Hnone.
    cbn beta in Hnone. pose proof (count_trim "," token). lia.
Qed.

Lemma dependencies_never_empty_witness :
  In "Engine" (Workspace.dependenciesOfInput "Core, , Engine ,")
  /\ Js.count "," "Engine" = 0.
Proof.
  assert (Hin : In "Engine" (Workspace.dependenciesOfInput "Core, , Engine ,"))
    by (right; now left).
  split; [exact Hin|].
  exact (proj2 (dependencies_never_empty "Core, , Engine ," "Engine" Hin)).
Defined.

(** *** The calls the workspace makes *)

Lemma hasModule_In (md : AddonModule) (s : AddonState) :
  In md (modules s) -> hasModule (mod_id md) s = true.
Proof.
  intros Hin. apply existsb_exists. exists md.
  split; [assumption|apply String.eqb_refl].
Qed.

Lemma hasNode_In (md : AddonModule) (node : BlueprintNode) (s : AddonState) :
  In md (modules s) -> In node (nodes md) ->
  hasNode (mod_id md) (node_id node) s = true.
Proof.
  intros Hin Hnode. apply existsb_exists. exists md. split; [assumption|].
  rewrite String.eqb_refl. apply existsb_exists. exists node.
  split; [assumption|apply String.eqb_refl].
Qed.

Lemma hasParameter_In (md : AddonModule) (node : BlueprintNode)
  (placement : Placement) (param : BlueprintParameter) (s : AddonState) :
  In md (modules s) -> In node (nodes md) -> In param (placed placement node) ->
  hasParameter (mod_id md) (node_id node) placement (param_id param) s = true.
Proof.
  intros Hin Hnode Hparam. apply existsb_exists. exists md. split; [assumption|].
  rewrite String.eqb_refl. apply existsb_exists. exists node. split; [assumption|].
  rewrite String.eqb_refl. apply existsb_exists. exists param.
  split; [assumption|apply String.eqb_refl].
Qed.

Lemma hasCommand_In (md : AddonModule) (command : CommandBinding) (s : AddonState) :
  In md (modules s) -> In command (commands md) ->
  hasCommand (mod_id md) (cmd_id command) s = true.
Proof.
  intros Hin Hcommand. apply existsb_exists. exists md. split; [assumption|].
  rewrite String.eqb_refl. apply existsb_exists. exists command.
  split; [assumption|apply String.eqb_refl].
Qed.

Lemma anyNode_In (md : AddonModule) (node : BlueprintNode) (s : AddonState) :
  In md (modules s) -> In node (nodes md) -> anyNode (node_id node) s = true.
Proof.
  intros Hin Hnode. apply existsb_exists. exists md. split; [assumption|].
  apply existsb_exists. exists node. split; [assumption|apply String.eqb_refl].
Qed.

Lemma offers_keepsIds (s : AddonState) (a : Action) :
  Workspace.Offers s a -> keepsIds a = true.
Proof.
  destruct 1 as [ |u| |md Hin|md Hin|md Hin|md e Hin|md Hshown|md node Hshown Hnode
                |md node e Hshown Hnode|md node Hshown Hnode
                |md node placement Hshown Hnode
                |md node placement param e Hshown Hnode Hparam
                |md node placement param Hshown Hnode Hparam
                |md Hshown|md command e Hshown Hcommand
                |md command Hshown Hcommand|a Hauto];
    try reflexivity.
  - now destruct e.
  - now destruct e.
  - now destruct e.
  - now destruct e.
  - now rewrite autoSelect_none in Hauto.
Qed.

Lemma offers_target (s : AddonState) (a : Action) :
  Workspace.Offers s a -> targetMissing a s = false.
Proof.
  destruct 1 as [ |u| |md Hin|md Hin|md Hin|md e Hin|md Hshown|md node Hshown Hnode
                |md node e Hshown Hnode|md node Hshown Hnode
                |md node placement Hshown Hnode
                |md node placement param e Hshown Hnode Hparam
                |md node placement param Hshown Hnode Hparam
                |md Hshown|md command e Hshown Hcommand
                |md command Hshown Hcommand|a Hauto];
    cbn [targetMissing]; try reflexivity;
    try (pose proof (shown_module_In s md Hshown) as Hin);
    try (apply negb_false_iff).
  - now apply hasModule_In.
  - now apply hasModule_In.
  - now apply hasModule_In.
  - now apply hasModule_In.
  - now apply hasModule_In.
  - now apply (anyNode_In md).
  - apply hasNode_In; [assumption|now apply (shown_node_In s)].
  - apply hasNode_In; [assumption|now apply (shown_node_In s)].
  - apply hasNode_In; [assumption|now apply (shown_node_In s)].
  - apply hasParameter_In; [assumption|now apply (shown_node_In s)|assumption].
  - apply hasParameter_In; [assumption|now apply (shown_node_In s)|assumption].
  - now apply hasModule_In.
  - now apply hasCommand_In.
  - now apply hasCommand_In.
  - now rewrite autoSelect_none in Hauto.
Qed.

(** X28. Every store call of the workspace names entities of the model it
    shows, so none of them is a call on a missing id, and none of its
    patches sets an id or a list of nested entities. *)
Theorem offers_well_formed (s : AddonState) (a : Action) :
  Workspace.Offers s a -> targetMissing a s = false /\ keepsIds a = true.
Proof.
  intros Hoffer. split; [now apply offers_target|now apply (offers_keepsIds s)].
Qed.

Lemma reachableBy_weaken (uuid : nat -> string)
  (allowed allowed' : Action -> AddonState -> Prop) (st : Store) :
  (forall a s, allowed a s -> allowed' a s) ->
  reachableBy uuid allowed st -> reachableBy uuid allowed' st.
Proof.
  intros Himpl. induction 1 as [|a st Hreach IH Hallowed].
  - apply reach_initial.
  - apply reach_dispatch; [assumption|now apply Himpl].
Qed.

(** X29. With a generator that never returns an identifier twice, every
    model the workspace can bring the store to, from the default model by
    its own store calls, has ids unique within their collections. *)
Theorem workspace_ids_unique (uuid : nat -> string) (st : Store) :
  NeverRepeats uuid ->
  reachableBy uuid (fun a s => Workspace.Offers s a) st ->
  UniqueIds (model st).
Proof.
  intros Hgen Hreach.
  apply (ModulesGood_unique uuid (draws st)).
  apply (reachable_good uuid Hgen).
  revert Hreach. apply reachableBy_weaken.
  intros a s. apply offers_keepsIds.
Qed.

Lemma offers_well_formed_witness :
  Workspace.Offers (defaultState demoUUID) (AddNode "uuid-0")
  /\ targetMissing (AddNode "uuid-0") (defaultState demoUUID) = false.
Proof.
  assert (Hoffer : Workspace.Offers (defaultState demoUUID) (AddNode "uuid-0"))
    by exact (Workspace.offer_addNode (defaultState demoUUID)
                (fst (createModule demoUUID 0)) eq_refl).
  split; [exact Hoffer|].
  exact (proj1 (offers_well_formed (defaultState demoUUID) (AddNode "uuid-0") Hoffer)).
Defined.

Lemma workspace_ids_unique_witness :
  reachableBy demoUUID (fun a s => Workspace.Offers s a)
    (dispatch demoUUID (AddNode "uuid-0") (initialStore demoUUID))
  /\ UniqueIds (model (dispatch demoUUID (AddNode "uuid-0") (initialStore demoUUID))).
Proof.
  assert (Hreach :
            reachableBy demoUUID (fun a s => Workspace.Offers s a)
              (dispatch demoUUID (AddNode "uuid-0") (initialStore demoUUID))).
  { apply reach_dispatch; [apply reach_initial|].
    exact (Workspace.offer_addNode (defaultState demoUUID)
             (fst (createModule demoUUID 0)) eq_refl). }
  split; [exact Hreach|].
  exact (workspace_ids_unique demoUUID _ demoUUID_never_repeats Hreach).
Defined.

(** ** The regions of the scaffold *)

Lemma join_cons_more (sep x y : string) (l : list string) :
  Js.join sep (x :: y :: l) = x ++ sep ++ Js.join sep (y :: l).
Proof. reflexivity. Qed.

Lemma join_app (sep : string) (front back : list string) :
  front <> [] -> back <> [] ->
  Js.join sep (front ++ back) = Js.join sep front ++ sep ++ Js.join sep back.
Proof.
  intros Hfront Hback.
  induction front as [|x [|y front] IH]; [now destruct Hfront| |].
  - destruct back as [|z back]; [now destruct Hback|]. reflexivity.
  - cbn [app]. rewrite !join_cons_more.
    cbn [app] in IH. rewrite IH by discriminate.
    now rewrite !append_assoc.
Qed.

(** An element of a joined list stands in the joined text. *)
Lemma join_middle (sep x : string) (front back : list string) :
  exists before behind,
    Js.join sep (front ++ x :: back) = before ++ x ++ behind.
Proof.
  assert (Hlast : exists behind, Js.join sep (x :: back) = x ++ behind).
  { destruct back as [|y back].
    - exists "". cbn. now rewrite append_empty_r.
    - exists (sep ++ Js.join sep (y :: back)). apply join_cons_more. }
  destruct Hlast as (behind & Hlast).
  destruct front as [|z front].
  - exists "", behind. exact Hlast.
  - exists (Js.join sep (z :: front) ++ sep), behind.
    rewrite join_app by discriminate.
    now rewrite Hlast, !append_assoc.
Qed.

(** Groups joined one by one and then joined again, the empty ones left
    out, are their elements joined. *)
Lemma join_groups {V : Type} (sep : string) (group : V -> list string)
  (items : list V) :
  (forall v, group v = [] \/ Js.truthy (Js.join sep (group v)) = true) ->
  Js.join sep (filter Js.truthy (map (fun v => Js.join sep (group v)) items))
  = Js.join sep (flat_map group items)
  /\ (filter Js.truthy (map (fun v => Js.join sep (group v)) items) = []
      <-> flat_map group items = []).
Proof.
  intros Hgroup. induction items as [|v items [IHtext IHnone]].
  - split; [reflexivity|tauto].
  - cbn [map filter flat_map]. destruct (Hgroup v) as [Hempty|Htruthy].
    + rewrite Hempty. cbn [Js.join concat Js.truthy String.eqb negb app].
      now split.
    + rewrite Htruthy.
      assert (Hne : group v <> []).
      { intros Hempty. rewrite Hempty in Htruthy. discriminate Htruthy. }
      split.
      * destruct (filter Js.truthy (map (fun v' => Js.join sep (group v')) items))
          as [|y kept] eqn:Hkept.
        -- rewrite (proj1 IHnone eq_refl), app_nil_r. reflexivity.
        -- rewrite join_cons_more, IHtext. symmetry. apply join_app; [assumption|].
           intros Hnone. apply IHnone in Hnone. discriminate Hnone.
      * split; [discriminate|].
        intros Hnone. apply app_eq_nil in Hnone as [Hnone _]. now destruct Hne.
Qed.

Lemma split_app (sep : ascii) (a b : string) :
  Js.split sep (a ++ String sep b) = (Js.split sep a ++ Js.split sep b)%list.
Proof.
  induction a as [|c a IH].
  - cbn [append Js.split]. now rewrite Ascii.eqb_refl.
  - cbn [append Js.split]. rewrite IH.
    destruct (Ascii.eqb c sep); [reflexivity|].
    pose proof (split_nonempty sep a) as Hne.
    now destruct (Js.split sep a).
Qed.

(** Indentation goes line by line. *)
Lemma indentLines_app (a b : string) :
  indentLines (a ++ nl ++ b) = indentLines a ++ nl ++ indentLines b.
Proof.
  unfold indentLines.
  change (a ++ nl ++ b) with (a ++ String (ascii_of_nat 10) b).
  rewrite split_app, map_app.
  apply join_app.
  - pose proof (split_nonempty (ascii_of_nat 10) a) as Hne.
    now destruct (Js.split (ascii_of_nat 10) a).
  - pose proof (split_nonempty (ascii_of_nat 10) b) as Hne.
    now destruct (Js.split (ascii_of_nat 10) b).
Qed.

Lemma indentLines_single (line : string) :
  Js.count newline line = 0 -> indentLines line = "    " ++ line.
Proof.
  intros Hline. unfold indentLines.
  now rewrite (split_single (ascii_of_nat 10) line Hline).
Qed.

(** Blocks joined by an empty line are indented block by block, the empty
    line too. *)
Lemma indentLines_blocks (blocks : list string) :
  blocks <> [] ->
  indentLines (Js.join (nl ++ nl) blocks)
  = Js.join (nl ++ "    " ++ nl) (map indentLines blocks).
Proof.
  induction blocks as [|x [|y blocks] IH]; intros Hne; [now destruct Hne| |].
  - reflexivity.
  - specialize (IH ltac:(discriminate)). cbn [map] in IH |- *.
    rewrite (join_cons_more (nl ++ nl) x), (join_cons_more _ (indentLines x)), <- IH.
    change (x ++ (nl ++ nl) ++ Js.join (nl ++ nl) (y :: blocks))
      with (x ++ nl ++ ("" ++ nl ++ Js.join (nl ++ nl) (y :: blocks))).
    rewrite !indentLines_app.
    change (indentLines "") with "    ".
    now rewrite !append_assoc.
Qed.

(** An indented block stands in the indented region. *)
Lemma indented_block_in_region (blocks : list string) (block : string) :
  In block blocks ->
  exists before behind,
    indentLines (Js.join (nl ++ nl) blocks)
    = before ++ indentLines block ++ behind.
Proof.
  intros Hin. rewrite indentLines_blocks by (intros Hnone; now rewrite Hnone in Hin).
  apply in_split in Hin as (front & back & ->).
  rewrite map_app. cbn [map]. apply join_middle.
Qed.

Lemma nodeBlock_snippet (md : AddonModule) (node : BlueprintNode) :
  "// Module: " ++ mod_name md ++ nl ++ createBlueprintNodeSnippet node
  = nodeBlock md node.
Proof.
  unfold createBlueprintNodeSnippet, nodeBlock, nodeAbove, commentBlock.
  rewrite !append_assoc.
  reflexivity.
Qed.

Lemma chordText_inputChord (hotkey : string) : inputChord hotkey = chordText hotkey.
Proof. unfold inputChord, chordText. now rewrite map_map. Qed.

Lemma commandBlock_snippet (command : CommandBinding) :
  "// Command: " ++ cmd_name command ++ nl ++ createCommandSnippet command
  = commandBlock command.
Proof.
  unfold createCommandSnippet, commandBlock, commandAbove, commandBelow.
  rewrite chordText_inputChord, !append_assoc.
  reflexivity.
Qed.

(** The scaffold is its frame around the indented blocks of the nodes and
    the indented blocks of the commands. *)
Lemma createCppScaffold_regions (state : AddonState) :
  createCppScaffold state
  = scaffoldFrame (identifier (meta state))
      (indentLines (Js.join (nl ++ nl) (nodeBlocks state)))
      (indentLines (Js.join (nl ++ nl) (commandBlocks state))).
Proof.
  unfold createCppScaffold, scaffoldFrame, nodeBlocks, commandBlocks.
  cbv zeta.
  rewrite (map_ext _ _ commandBlock_snippet).
  assert (Hgroups :
            map (fun module =>
                   Js.join (nl ++ nl)
                     (map (fun snippet => "// Module: " ++ mod_name module ++ nl ++ snippet)
                        (map createBlueprintNodeSnippet (nodes module))))
                (modules state)
            = map (fun md => Js.join (nl ++ nl) (map (nodeBlock md) (nodes md)))
                (modules state)).
  { apply map_ext. intros md. rewrite map_map. f_equal.
    apply map_ext. intros node. apply nodeBlock_snippet. }
  rewrite Hgroups.
  assert (Hblocks : forall md,
             map (nodeBlock md) (nodes md) = []
             \/ Js.truthy (Js.join (nl ++ nl) (map (nodeBlock md) (nodes md))) = true).
  { intros md. destruct (nodes md) as [|node rest]; [now left|right].
    cbn [map]. unfold nodeBlock, nodeAbove. apply (join_cons_truthy _ "/"). }
  rewrite (proj1 (join_groups (nl ++ nl) (fun md => map (nodeBlock md) (nodes md))
                    (modules state) Hblocks)).
  reflexivity.
Qed.

Lemma scaffoldFrame_parts (identifier : string) :
  exists top middle bottom,
    forall nodesRegion commandsRegion,
      scaffoldFrame identifier nodesRegion commandsRegion
      = top ++ nodesRegion ++ middle ++ commandsRegion ++ bottom.
Proof.
  exists ("#pragma once" ++ nl
            ++ nl
            ++ "#include " ++ dq ++ "CoreMinimal.h" ++ dq ++ nl
            ++ "#include " ++ dq ++ "Kismet/BlueprintFunctionLibrary.h" ++ dq ++ nl
            ++ nl
            ++ "class " ++ identifier ++ "Library : public UBlueprintFunctionLibrary" ++ nl
            ++ "{" ++ nl
            ++ "    GENERATED_BODY()" ++ nl
            ++ nl
            ++ "public:" ++ nl),
         (nl ++ "};" ++ nl
            ++ nl
            ++ "// Editor Command Bindings" ++ nl
            ++ "void Register" ++ identifier
            ++ "Commands(const TSharedRef<FUICommandList>& CommandList)" ++ nl
            ++ "{" ++ nl),
         (nl ++ "}").
  intros nodesRegion commandsRegion. unfold scaffoldFrame.
  rewrite !append_assoc. reflexivity.
Qed.

(** The indented block of an entity stands in the scaffold. *)
Lemma region_in_frame (identifier nodesRegion commandsRegion : string) :
  (forall before block behind,
      nodesRegion = before ++ block ++ behind ->
      exists above below,
        scaffoldFrame identifier nodesRegion commandsRegion
        = above ++ block ++ below)
  /\ (forall before block behind,
         commandsRegion = before ++ block ++ behind ->
         exists above below,
           scaffoldFrame identifier nodesRegion commandsRegion
           = above ++ block ++ below).
Proof.
  destruct (scaffoldFrame_parts identifier) as (top & middle & bottom & Hframe).
  split; intros before block behind ->; rewrite Hframe.
  - exists (top ++ before), (behind ++ middle ++ commandsRegion ++ bottom).
    now rewrite !append_assoc.
  - exists (top ++ nodesRegion ++ middle ++ before), (behind ++ bottom).
    now rewrite !append_assoc.
Qed.

(** *** White space *)

Lemma length_app (a b : string) :
  String.length (a ++ b) = String.length a + String.length b.
Proof. induction a as [|c a IH]; [reflexivity|]. cbn. now rewrite IH. Qed.

Lemma rev_app (a b : string) : Js.rev (a ++ b) = Js.rev b ++ Js.rev a.
Proof.
  induction a as [|c a IH]; cbn [append Js.rev].
  - now rewrite append_empty_r.
  - now rewrite IH, append_assoc.
Qed.

Lemma rev_rev (a : string) : Js.rev (Js.rev a) = a.
Proof.
  induction a as [|c a IH]; [reflexivity|].
  cbn [Js.rev]. rewrite rev_app, IH. reflexivity.
Qed.

Lemma length_rev (a : string) : String.length (Js.rev a) = String.length a.
Proof.
  induction a as [|c a IH]; [reflexivity|].
  cbn [Js.rev]. rewrite length_app, IH. cbn. lia.
Qed.

Lemma prefix_empty (s : string) : String.prefix "" s = true.
Proof. now destruct s. Qed.

Lemma prefix_split (w s : string) :
  String.prefix w s = true -> s = w ++ Js.drop (String.length w) s.
Proof.
  revert s. induction w as [|a w IH]; intros s Hprefix; [reflexivity|].
  destruct s as [|b s]; [discriminate Hprefix|].
  cbn [String.prefix] in Hprefix.
  destruct (Ascii.ascii_dec a b) as [->|]; [|discriminate Hprefix].
  cbn [String.length Js.drop append]. f_equal. now apply IH.
Qed.

Lemma prefix_app (w rest : string) : String.prefix w (w ++ rest) = true.
Proof.
  induction w as [|a w IH]; [apply prefix_empty|].
  cbn [append String.prefix].
  now destruct (Ascii.ascii_dec a a).
Qed.

Lemma prefix_longer (w s t : string) :
  String.prefix w s = true -> String.prefix w (s ++ t) = true.
Proof.
  intros Hprefix. rewrite (prefix_split w s Hprefix), append_assoc.
  apply prefix_app.
Qed.

Lemma stripOne_some (table : list string) (s s' : string) :
  Js.stripOne table s = Some s' -> exists w, In w table /\ s = w ++ s'.
Proof.
  induction table as [|w table IH]; intros Hstrip; [discriminate Hstrip|].
  cbn [Js.stripOne] in Hstrip.
  destruct (String.prefix w s) eqn:Hprefix.
  - injection Hstrip as <-. exists w. split; [now left|].
    now apply prefix_split.
  - destruct (IH Hstrip) as (v & Hin & Heq). exists v. split; [now right|assumption].
Qed.

Lemma stripOne_none (table : list string) (s : string) :
  Js.stripOne table s = None ->
  existsb (fun w => String.prefix w s) table = false.
Proof.
  induction table as [|w table IH]; intros Hstrip; [reflexivity|].
  cbn [Js.stripOne] in Hstrip. cbn [existsb].
  destruct (String.prefix w s); [discriminate Hstrip|].
  now apply IH.
Qed.

Lemma stripAll_run (table : list string) (fuel : nat) (s : string) :
  exists lead, RunOf table lead /\ s = lead ++ Js.stripAll table fuel s.
Proof.
  revert s. induction fuel as [|fuel IH]; intros s.
  - exists "". split; [constructor|reflexivity].
  - cbn [Js.stripAll]. destruct (Js.stripOne table s) as [s'|] eqn:Hstrip.
    + destruct (stripOne_some _ _ _ Hstrip) as (w & Hin & ->).
      destruct (IH s') as (lead & Hrun & Heq).
      exists (w ++ lead). split; [now constructor|].
      now rewrite append_assoc, <- Heq.
    + exists "". split; [constructor|reflexivity].
Qed.

(** The fuel of [stripAll] is enough: nothing of the table is left in
    front. *)
Lemma stripAll_done (table : list string) (fuel : nat) (s : string) :
  Forall (fun w => w <> "") table ->
  String.length s <= fuel ->
  Js.stripOne table (Js.stripAll table fuel s) = None.
Proof.
  intros Hne. revert s. induction fuel as [|fuel IH]; intros s Hfuel.
  - cbn [Js.stripAll]. destruct (Js.stripOne table s) as [s'|] eqn:Hstrip;
      [|reflexivity].
    destruct (stripOne_some _ _ _ Hstrip) as (w & Hin & ->).
    pose proof (proj1 (Forall_forall _ _) Hne w Hin) as Hw.
    rewrite length_app in Hfuel. destruct w; [now destruct Hw|].
    cbn in Hfuel. lia.
  - cbn [Js.stripAll]. destruct (Js.stripOne table s) as [s'|] eqn:Hstrip;
      [|assumption].
    apply IH. destruct (stripOne_some _ _ _ Hstrip) as (w & Hin & ->).
    pose proof (proj1 (Forall_forall _ _) Hne w Hin) as Hw.
    rewrite length_app in Hfuel. destruct w; [now destruct Hw|].
    cbn in Hfuel. lia.
Qed.

Lemma RunOf_app (table : list string) (a b : string) :
  RunOf table a -> RunOf table b -> RunOf table (a ++ b).
Proof.
  intros Ha Hb. induction Ha as [|w s Hin _ IH]; [assumption|].
  rewrite append_assoc. now constructor.
Qed.

Lemma RunOf_rev (table : list string) (s : string) :
  RunOf (map Js.rev table) s -> RunOf table (Js.rev s).
Proof.
  induction 1 as [|w s Hin _ IH]; [constructor|].
  rewrite rev_app. apply RunOf_app; [assumption|].
  apply in_map_iff in Hin as (v & <- & Hin).
  rewrite rev_rev, <- (append_empty_r v). now repeat constructor.
Qed.

Lemma existsb_through_map {V W : Type} (test : W -> bool) (via : V -> W)
  (items : list V) :
  existsb test (map via items) = existsb (fun v => test (via v)) items.
Proof.
  induction items as [|v items IH]; [reflexivity|].
  cbn [map existsb]. now rewrite IH.
Qed.

Lemma whitespace_nonempty :
  Forall (fun w => w <> "") Js.whitespace
  /\ Forall (fun w => w <> "") (map Js.rev Js.whitespace).
Proof.
  split; apply Forall_forall; intros w Hin Hw; rewrite Hw in Hin;
    vm_compute in Hin; intuition discriminate.
Qed.

(** [trim] takes a run of white space from each end and leaves none
    there. *)
Lemma trim_spec (s : string) :
  exists lead trail,
    s = lead ++ Js.trim s ++ trail
    /\ RunOf Js.whitespace lead /\ RunOf Js.whitespace trail
    /\ startsBlank (Js.trim s) = false /\ endsBlank (Js.trim s) = false.
Proof.
  destruct whitespace_nonempty as [Hne Hne'].
  unfold Js.trim, Js.trimEnd.
  set (x := Js.trimStart s).
  set (y := Js.stripAll (map Js.rev Js.whitespace) (String.length x) (Js.rev x)).
  destruct (stripAll_run Js.whitespace (String.length s) s) as (lead & Hlead & Hs).
  fold (Js.trimStart s) in Hs. fold x in Hs.
  destruct (stripAll_run (map Js.rev Js.whitespace) (String.length x) (Js.rev x))
    as (trail & Htrail & Hx).
  fold y in Hx.
  assert (Hxy : x = Js.rev y ++ Js.rev trail).
  { rewrite <- (rev_rev x), Hx. apply rev_app. }
  assert (Hfront : Js.stripOne Js.whitespace x = None).
  { apply (stripAll_done Js.whitespace (String.length s) s Hne). lia. }
  assert (Hback : Js.stripOne (map Js.rev Js.whitespace) y = None).
  { apply (stripAll_done _ (String.length x) (Js.rev x) Hne').
    rewrite length_rev. lia. }
  exists lead, (Js.rev trail).
  split; [now rewrite <- Hxy|].
  split; [assumption|]. split; [now apply RunOf_rev|]. split.
  - unfold startsBlank.
    destruct (existsb (fun w => String.prefix w (Js.rev y)) Js.whitespace) eqn:Hstarts;
      [|reflexivity].
    apply existsb_exists in Hstarts as (w & Hin & Hprefix).
    pose proof (stripOne_none _ _ Hfront) as Hnone.
    assert (Hthere : existsb (fun w => String.prefix w x) Js.whitespace = true).
    { apply existsb_exists. exists w. split; [assumption|].
      rewrite Hxy. now apply prefix_longer. }
    rewrite Hthere in Hnone. discriminate Hnone.
  - unfold endsBlank. rewrite rev_rev.
    pose proof (stripOne_none _ _ Hback) as Hnone.
    rewrite existsb_through_map in Hnone. exact Hnone.
Qed.

(** *** Texts of one line *)

Lemma count_join (c : ascii) (sep : string) (l : list string) :
  Js.count c sep = 0 -> Forall (fun t => Js.count c t = 0) l ->
  Js.count c (Js.join sep l) = 0.
Proof.
  intros Hsep Hl. induction l as [|x [|y l] IH]; [reflexivity| |].
  - now apply Forall_cons_iff in Hl.
  - apply Forall_cons_iff in Hl as [Hx Hl].
    rewrite join_cons_more, !count_app, Hx, Hsep. now apply IH.
Qed.

Lemma split_without (c sep : ascii) (s : string) :
  Js.count c s = 0 -> Forall (fun t => Js.count c t = 0) (Js.split sep s).
Proof.
  induction s as [|d s IH]; intros Hcount; [now repeat constructor|].
  cbn [Js.count] in Hcount.
  destruct (Ascii.eqb d c) eqn:Hd; [discriminate Hcount|].
  specialize (IH Hcount). cbn [Js.split].
  destruct (Ascii.eqb d sep); [now constructor|].
  destruct (Js.split sep s) as [|t ts].
  - repeat constructor. cbn [Js.count]. now rewrite Hd.
  - apply Forall_cons_iff in IH as [Ht Hts].
    constructor; [|assumption]. cbn [Js.count]. now rewrite Hd.
Qed.

Lemma replace_without (c : ascii) (pat rep s : string) :
  Js.count c rep = 0 -> Js.count c s = 0 -> Js.count c (Js.replace pat rep s) = 0.
Proof.
  intros Hrep. induction s as [|d s IH]; intros Hcount.
  - cbn [Js.replace]. destruct (String.prefix pat ""); [|reflexivity].
    rewrite count_app, Hrep. pose proof (count_drop c (String.length pat) "") as Hle.
    cbn [Js.count] in Hle. lia.
  - cbn [Js.replace]. destruct (String.prefix pat (String d s)).
    + rewrite count_app, Hrep.
      pose proof (count_drop c (String.length pat) (String d s)) as Hle. lia.
    + cbn [Js.count] in *. destruct (Ascii.eqb d c); [discriminate Hcount|].
      now apply IH.
Qed.

Lemma chordText_one_line (hotkey : string) :
  Js.count newline hotkey = 0 -> Js.count newline (chordText hotkey) = 0.
Proof.
  intros Hline. unfold chordText. apply count_join; [reflexivity|].
  rewrite map_map. apply Forall_map.
  pose proof (split_without newline "+" hotkey Hline) as Htokens.
  revert Htokens. apply Forall_impl. intros token Htoken.
  unfold substituteToken. rewrite count_app.
  rewrite replace_without; [reflexivity|reflexivity|].
  pose proof (count_trim newline token) as Hle. lia.
Qed.

Lemma commandBlock_lines (command : CommandBinding) :
  Js.count newline (hotkey command) = 0 ->
  indentLines (commandBlock command)
  = indentLines (commandAbove command) ++ nl
      ++ "        FInputChord(" ++ chordText (hotkey command) ++ ")," ++ nl
      ++ indentLines (commandBelow command).
Proof.
  intros Hline. unfold commandBlock.
  replace (commandAbove command ++ nl
             ++ "    FInputChord(" ++ chordText (hotkey command) ++ ")," ++ nl
             ++ commandBelow command)
    with (commandAbove command ++ nl
            ++ ("    FInputChord(" ++ chordText (hotkey command) ++ "),") ++ nl
            ++ commandBelow command)
    by now rewrite !append_assoc.
  rewrite !indentLines_app.
  rewrite (indentLines_single ("    FInputChord(" ++ chordText (hotkey command) ++ "),")).
  - now rewrite !append_assoc.
  - rewrite !count_app, chordText_one_line by assumption. reflexivity.
Qed.

(** *** The substitution *)

(** [Ctrl] does not start inside a text without it and run on into a
    [Ctrl] behind that text. *)
Lemma prefix_Ctrl_behind (a rest : string) :
  String.prefix "Ctrl" a = false ->
  a <> "" ->
  String.prefix "Ctrl" (a ++ "Ctrl" ++ rest) = false.
Proof.
  intros Hprefix Hne.
  destruct a as [|c1 a]; [now destruct Hne|].
  cbn [append String.prefix] in *.
  destruct (Ascii.ascii_dec "C" c1) as [<-|]; [|reflexivity].
  destruct a as [|c2 a]; [reflexivity|].
  cbn [append String.prefix] in *.
  destruct (Ascii.ascii_dec "t" c2) as [<-|]; [|reflexivity].
  destruct a as [|c3 a]; [reflexivity|].
  cbn [append String.prefix] in *.
  destruct (Ascii.ascii_dec "r" c3) as [<-|]; [|reflexivity].
  destruct a as [|c4 a]; [reflexivity|].
  cbn [append String.prefix] in *.
  destruct (Ascii.ascii_dec "l" c4) as [<-|]; [|reflexivity].
  now destruct a.
Qed.

(** [replace] rewrites the first [Ctrl] and keeps what is behind it. *)
Lemma replace_first (before behind : string) :
  Js.includes "Ctrl" before = false ->
  Js.replace "Ctrl" "LeftControl" (before ++ "Ctrl" ++ behind)
  = before ++ "LeftControl" ++ behind.
Proof.
  induction before as [|c a IH]; intros Habsent.
  - now destruct behind.
  - cbn [Js.includes] in Habsent.
    apply orb_false_iff in Habsent as [Hprefix Hrest].
    assert (Hno : String.prefix "Ctrl" (String c (a ++ "Ctrl" ++ behind)) = false)
      by exact (prefix_Ctrl_behind (String c a) behind Hprefix ltac:(discriminate)).
    specialize (IH Hrest). cbn [append] in IH, Hno |- *.
    cbn [Js.replace]. now rewrite Hno, IH.
Qed.

(** C6. The scaffold is its frame around the indented node blocks and the
    indented command blocks, and the block of every command of the model
    is in it with the hotkey rendered by the rule: the hotkey is split on
    [+], every token is trimmed, [LeftControl] is put for [Ctrl] behind
    [EKeys::], and the results are joined with a comma and a space.  For a
    hotkey of one line that is the line [FInputChord(...),] behind eight
    spaces.  There are as many tokens as the hotkey has [+] signs and one
    more; trimming takes a run of white space from each end of a token and
    leaves none there; a token that trims to [Ctrl] becomes the control-key
    token, in any token the first [Ctrl] is rewritten and the rest kept,
    and a token without [Ctrl] is kept; the hotkey [Ctrl+Alt+P], with or
    without spaces around its tokens, yields exactly three tokens, the
    first being the control-key token. *)
Theorem hotkey_rendering (state : AddonState) :
  createCppScaffold state
  = scaffoldFrame (identifier (meta state))
      (indentLines (Js.join (nl ++ nl) (nodeBlocks state)))
      (indentLines (Js.join (nl ++ nl) (commandBlocks state)))
  /\ (forall md command,
         In md (modules state) -> In command (commands md) ->
         exists above below,
           createCppScaffold state
           = above ++ indentLines (commandBlock command) ++ below)
  /\ (forall command,
         "// Command: " ++ cmd_name command ++ nl ++ createCommandSnippet command
         = commandBlock command
         /\ createCommandSnippet command
            = bindingLead command
                ++ "FInputChord("
                ++ Js.join ", "
                     (map substituteToken
                        (map Js.trim (Js.split "+" (hotkey command))))
                ++ ")" ++ bindingRest command
         /\ (Js.count newline (hotkey command) = 0 ->
             indentLines (commandBlock command)
             = indentLines (commandAbove command) ++ nl
                 ++ "        FInputChord(" ++ chordText (hotkey command) ++ ")," ++ nl
                 ++ indentLines (commandBelow command)))
  /\ (forall hotkey,
         List.length (map substituteToken (map Js.trim (Js.split "+" hotkey)))
         = S (Js.count "+" hotkey))
  /\ (forall token,
         exists lead trail,
           token = lead ++ Js.trim token ++ trail
           /\ RunOf Js.whitespace lead /\ RunOf Js.whitespace trail
           /\ startsBlank (Js.trim token) = false
           /\ endsBlank (Js.trim token) = false)
  /\ substituteToken "Ctrl" = "EKeys::LeftControl"
  /\ (forall token, Js.includes "Ctrl" token = false ->
                    substituteToken token = "EKeys::" ++ token)
  /\ (forall before behind,
         Js.includes "Ctrl" before = false ->
         substituteToken (before ++ "Ctrl" ++ behind)
         = "EKeys::" ++ before ++ "LeftControl" ++ behind)
  /\ map substituteToken (map Js.trim (Js.split "+" "Ctrl+Alt+P"))
     = ["EKeys::LeftControl"; "EKeys::Alt"; "EKeys::P"]
  /\ chordText "Ctrl+Alt+P" = "EKeys::LeftControl, EKeys::Alt, EKeys::P"
  /\ chordText " Ctrl + Alt +P " = "EKeys::LeftControl, EKeys::Alt, EKeys::P".
Proof.
  split; [apply createCppScaffold_regions|].
  split.
  { intros md command Hmd Hcommand.
    rewrite createCppScaffold_regions.
    assert (Hin : In (commandBlock command) (commandBlocks state)).
    { unfold commandBlocks. apply in_map, in_flat_map. now exists md. }
    destruct (indented_block_in_region _ _ Hin) as (before & behind & Hregion).
    exact (proj2 (region_in_frame _ _ _) before _ behind Hregion). }
  split.
  { intros command. split; [apply commandBlock_snippet|]. split.
    - rewrite createCommandSnippet_chord, chordText_inputChord. reflexivity.
    - apply commandBlock_lines. }
  split; [intros hotkey; now rewrite !length_map, split_length|].
  split; [apply trim_spec|].
  split; [reflexivity|].
  split.
  { intros token Habsent. unfold substituteToken. now rewrite replace_absent. }
  split.
  { intros before behind Habsent. unfold substituteToken.
    now rewrite replace_first. }
  split; [reflexivity|]. split; reflexivity.
Qed.

(** The default model: its one command is bound to [Ctrl+Alt+P], and the
    line of the chord is in the scaffold. *)
Lemma hotkey_rendering_witness :
  exists above below,
    createCppScaffold (defaultState demoUUID)
    = above ++ nl
        ++ "        FInputChord(EKeys::LeftControl, EKeys::Alt, EKeys::P)," ++ nl
        ++ below.
Proof.
  pose proof (hotkey_rendering (defaultState demoUUID))
    as (_ & Hblock & Hcommand & _).
  destruct (Hblock (fst (createModule demoUUID 0))
              (hd sampleCommand (commands (fst (createModule demoUUID 0))))
              (or_introl eq_refl) (or_introl eq_refl))
    as (above & below & Hscaffold).
  destruct (Hcommand (hd sampleCommand (commands (fst (createModule demoUUID 0)))))
    as (_ & _ & Hlines).
  rewrite (Hlines eq_refl) in Hscaffold.
  exists (above
            ++ indentLines
                 (commandAbove (hd sampleCommand (commands (fst (createModule demoUUID 0)))))),
         (indentLines
            (commandBelow (hd sampleCommand (commands (fst (createModule demoUUID 0)))))
            ++ below).
  rewrite Hscaffold, !append_assoc. reflexivity.
Defined.

Lemma indented_placeholders :
  indentLines (commentBlock "// Outputs:" "// void")
  = "    // Outputs:" ++ nl ++ "    /*" ++ nl ++ "    // void" ++ nl ++ "    */"
  /\ indentLines (commentBlock "// Inputs:" "// none")
     = "    // Inputs:" ++ nl ++ "    /*" ++ nl ++ "    // none" ++ nl ++ "    */".
Proof. split; reflexivity. Qed.

(** C7. The scaffold is its frame around the indented node blocks and the
    indented command blocks, and the block of every node of the model is
    in it.  In the block of a node without outputs the outputs comment
    block holds exactly the placeholder [// void], in that of a node
    without inputs the inputs comment block holds exactly the placeholder
    [// none], each behind the four spaces of the indentation; a list that
    is not empty is written instead of its placeholder. *)
Theorem empty_lists_render_placeholders (state : AddonState) :
  createCppScaffold state
  = scaffoldFrame (identifier (meta state))
      (indentLines (Js.join (nl ++ nl) (nodeBlocks state)))
      (indentLines (Js.join (nl ++ nl) (commandBlocks state)))
  /\ (forall md node,
         In md (modules state) -> In node (nodes md) ->
         exists above below,
           createCppScaffold state
           = above ++ indentLines (nodeBlock md node) ++ below)
  /\ (forall md node,
         "// Module: " ++ mod_name md ++ nl ++ createBlueprintNodeSnippet node
         = nodeBlock md node
         /\ (outputs node = [] ->
             createBlueprintNodeSnippet node
             = snippetThroughBody node
                 ++ commentBlock "// Outputs:" "// void" ++ nl
                 ++ commentBlock "// Inputs:" (Js.orElse (inputsText node) "// none"))
         /\ (inputs node = [] ->
             createBlueprintNodeSnippet node
             = snippetThroughBody node
                 ++ commentBlock "// Outputs:" (Js.orElse (outputsText node) "// void")
                 ++ nl ++ commentBlock "// Inputs:" "// none")
         /\ (outputs node = [] ->
             indentLines (nodeBlock md node)
             = indentLines (nodeAbove md node) ++ nl
                 ++ "    // Outputs:" ++ nl
                 ++ "    /*" ++ nl
                 ++ "    // void" ++ nl
                 ++ "    */" ++ nl
                 ++ indentLines
                      (commentBlock "// Inputs:"
                         (Js.orElse (inputsText node) "// none")))
         /\ (inputs node = [] ->
             indentLines (nodeBlock md node)
             = indentLines (nodeAbove md node) ++ nl
                 ++ indentLines
                      (commentBlock "// Outputs:"
                         (Js.orElse (outputsText node) "// void")) ++ nl
                 ++ "    // Inputs:" ++ nl
                 ++ "    /*" ++ nl
                 ++ "    // none" ++ nl
                 ++ "    */")
         /\ (outputs node <> [] ->
             Js.orElse (outputsText node) "// void" = outputsText node)
         /\ (inputs node <> [] ->
             Js.orElse (inputsText node) "// none" = inputsText node)).
Proof.
  split; [apply createCppScaffold_regions|].
  split.
  { intros md node Hmd Hnode.
    rewrite createCppScaffold_regions.
    assert (Hin : In (nodeBlock md node) (nodeBlocks state)).
    { unfold nodeBlocks. apply in_flat_map. exists md. split; [assumption|].
      now apply in_map. }
    destruct (indented_block_in_region _ _ Hin) as (before & behind & Hregion).
    exact (proj1 (region_in_frame _ _ _) before _ behind Hregion). }
  intros md node. destruct indented_placeholders as [Hvoid Hnone].
  split; [apply nodeBlock_snippet|].
  split.
  { intros Hempty. rewrite createBlueprintNodeSnippet_blocks.
    unfold outputsText at 1. now rewrite Hempty. }
  split.
  { intros Hempty. rewrite createBlueprintNodeSnippet_blocks.
    unfold inputsText at 1. now rewrite Hempty. }
  split.
  { intros Hempty. unfold nodeBlock. rewrite !indentLines_app.
    unfold outputsText. rewrite Hempty. cbn [map Js.join concat].
    change (Js.orElse "" "// void") with "// void".
    rewrite Hvoid. now rewrite ?append_assoc. }
  split.
  { intros Hempty. unfold nodeBlock. rewrite !indentLines_app.
    unfold inputsText at 1. rewrite Hempty. cbn [map Js.join concat].
    change (Js.orElse "" "// none") with "// none".
    rewrite Hnone. now rewrite ?append_assoc. }
  split; [apply outputsText_nonempty|apply inputsText_nonempty].
Qed.

(** A model with a node without parameters: both placeholders are in the
    scaffold. *)
Lemma empty_lists_render_placeholders_witness :
  exists above below,
    createCppScaffold (sampleState demoUUID)
    = above ++ nl
        ++ "    // Outputs:" ++ nl
        ++ "    /*" ++ nl
        ++ "    // void" ++ nl
        ++ "    */" ++ nl
        ++ "    // Inputs:" ++ nl
        ++ "    /*" ++ nl
        ++ "    // none" ++ nl
        ++ "    */" ++ below.
Proof.
  pose proof (empty_lists_render_placeholders (sampleState demoUUID))
    as (_ & Hblock & Hnode).
  destruct (Hblock (hd (fst (createModule demoUUID 0)) (modules (sampleState demoUUID)))
              bareNode (or_introl eq_refl) (or_introl eq_refl))
    as (above & below & Hscaffold).
  destruct (Hnode (hd (fst (createModule demoUUID 0)) (modules (sampleState demoUUID)))
              bareNode)
    as (_ & _ & _ & Hlines & _).
  rewrite (Hlines eq_refl) in Hscaffold.
  exists (above
            ++ indentLines
                 (nodeAbove
                    (hd (fst (createModule demoUUID 0)) (modules (sampleState demoUUID)))
                    bareNode)),
         below.
  rewrite Hscaffold, !append_assoc. reflexivity.
Defined.
